(** * Travel itinerary planner: pool construction, sampling and annotations

    A shallow embedding of [app.py].  Python values that reach an itinerary
    are modelled by [pyval]; the random generator, the network and the
    iteration order of hash sets form the environment [env] the program
    runs in; the part of the program that draws random numbers, sends a
    request or writes to the page runs in the monad [M]. *)

From Stdlib Require Import String Ascii List ZArith Lia Bool Arith PeanoNat Permutation.
Import ListNotations.
Local Open Scope list_scope.

Set Implicit Arguments.
Set Warnings "-register-all".
#[local] Unset Elimination Schemes.

(** ** Python values *)

(** What [response.json()] can decode to.  Numbers are integers here; a JSON
    number with a fraction is outside the model.  The members of an object
    are kept in insertion order and have distinct keys. *)
Inductive pyval : Type :=
| PNone
| PBool (b : bool)
| PInt (z : Z)
| PStr (s : string)
| PList (items : list pyval)
| PDict (members : list (string * pyval)).

#[local] Set Elimination Schemes.

(** Python's [==] for the element type of a list ([x in l] compares
    with it). *)
Class PyEq (A : Type) := py_eq : A -> A -> bool.

#[export] Instance string_PyEq : PyEq string := String.eqb.

Definition Z_of_bool (b : bool) : Z := if b then 1%Z else 0%Z.

(** [True == 1] and [False == 0] hold in Python; two dicts are equal when
    they have the same keys with equal values, in any order. *)
Fixpoint pyval_eqb (x y : pyval) {struct x} : bool :=
  match x, y with
  | PNone, PNone => true
  | PBool a, PBool b => Bool.eqb a b
  | PBool a, PInt z => Z.eqb (Z_of_bool a) z
  | PInt z, PBool b => Z.eqb z (Z_of_bool b)
  | PInt a, PInt b => Z.eqb a b
  | PStr a, PStr b => String.eqb a b
  | PList xs, PList ys =>
      (fix items_eqb (xs ys : list pyval) {struct xs} : bool :=
         match xs, ys with
         | [], [] => true
         | x' :: xs', y' :: ys' => pyval_eqb x' y' && items_eqb xs' ys'
         | _, _ => false
         end) xs ys
  | PDict ms, PDict ns =>
      Nat.eqb (length ms) (length ns) &&
      (fix members_eqb (ms : list (string * pyval)) {struct ms} : bool :=
         match ms with
         | [] => true
         | (k, v) :: ms' =>
             (fix lookup_eqb (ns : list (string * pyval)) : bool :=
                match ns with
                | [] => false
                | (k', v') :: ns' =>
                    if String.eqb k k' then pyval_eqb v v' else lookup_eqb ns'
                end) ns
             && members_eqb ms'
         end) ms
  | _, _ => false
  end.

#[export] Instance pyval_PyEq : PyEq pyval := pyval_eqb.

(** [x in l] *)
Definition py_in {A} `{PyEq A} (x : A) (l : list A) : bool :=
  existsb (py_eq x) l.

(** ** Text *)

(** A [str] is held as its UTF-8 bytes (a [str] with a lone surrogate has
    no such form and is outside the model).  A byte below 128 is an ASCII
    character; a byte [10xxxxxx] continues the code point begun before it. *)
Definition is_ascii_byte (c : ascii) : bool := nat_of_ascii c <? 128.

Definition is_ascii (s : string) : bool :=
  forallb is_ascii_byte (list_ascii_of_string s).

Definition is_continuation (c : ascii) : bool :=
  let n := nat_of_ascii c in
  ((128 <=? n) && (n <? 192))%bool.

Definition continues (cp : string) : bool :=
  match cp with
  | EmptyString => false
  | String c _ => is_continuation c
  end.

(** The characters of a [str], each as the bytes that encode it: what
    [s[i]], [for c in s] and [s.strip()] count and hand out. *)
Fixpoint code_points (s : string) : list string :=
  match s with
  | EmptyString => []
  | String c rest =>
      match code_points rest with
      | [] => [String c EmptyString]
      | cp :: cps =>
          if continues cp then String c cp :: cps
          else String c EmptyString :: cp :: cps
      end
  end.

Definition bytes (l : list nat) : string :=
  string_of_list_ascii (map ascii_of_nat l).

(** The characters [str.isspace] accepts, which are the ones [str.strip()]
    removes: U+0009 to U+000D, U+001C to U+0020, U+0085, U+00A0, U+1680,
    U+2000 to U+200A, U+2028, U+2029, U+202F, U+205F and U+3000. *)
Definition whitespace : list string :=
  map bytes
    [ [9]; [10]; [11]; [12]; [13]; [28]; [29]; [30]; [31]; [32];
      [194; 133]; [194; 160]; [225; 154; 128];
      [226; 128; 128]; [226; 128; 129]; [226; 128; 130]; [226; 128; 131];
      [226; 128; 132]; [226; 128; 133]; [226; 128; 134]; [226; 128; 135];
      [226; 128; 136]; [226; 128; 137]; [226; 128; 138];
      [226; 128; 168]; [226; 128; 169]; [226; 128; 175];
      [226; 129; 159]; [227; 128; 128] ].

Definition is_space (c : string) : bool := existsb (String.eqb c) whitespace.

Fixpoint lstrip (cps : list string) : list string :=
  match cps with
  | [] => []
  | c :: rest => if is_space c then lstrip rest else cps
  end.

(** [s.strip()] *)
Definition strip (s : string) : string :=
  String.concat ""%string (rev (lstrip (rev (lstrip (code_points s))))).

(** [if s:] for a [str]. *)
Definition truthy (s : string) : bool := negb (String.eqb s ""%string).

Definition lower_ascii (c : ascii) : ascii :=
  let n := nat_of_ascii c in
  if ((65 <=? n) && (n <=? 90))%bool then ascii_of_nat (n + 32) else c.

(** [s.lower()] on a [str] of ASCII characters: the letters A to Z become
    a to z, every other character stays. *)
Fixpoint ascii_lower (s : string) : string :=
  match s with
  | EmptyString => EmptyString
  | String c rest => String (lower_ascii c) (ascii_lower rest)
  end.

(** ** Exceptions, the environment and the monad *)

Inductive exn : Type :=
| ValueError          (* randrange(0), sample larger than population *)
| IndexError          (* subscript out of range *)
| KeyError            (* missing key of a dict *)
| TypeError           (* value neither subscriptable nor iterable *)
| RequestException    (* requests.get failed: connection, timeout *)
| HTTPError           (* raise_for_status *)
| JSONDecodeError.    (* response.json() *)

(** The reply to one [requests.get]: no reply at all, or a status code and
    the body, [None] when the body is not JSON. *)
Inductive response : Type :=
| NoReply
| Reply (status : nat) (body : option pyval).

Inductive ui_event : Type :=
| st_error (e : exn)      (* st.error("Error fetching live itinerary: " + str(e)) *)
| st_warning.             (* st.warning("No live itinerary found. ...") *)

(** The environment: what the random generator will draw, what the network
    will answer, the order in which a hash set hands out its elements
    (any order, but of exactly its elements), and [str.lower] as the
    interpreter's Unicode tables define it (on ASCII text it is
    [ascii_lower]). *)
Record env : Type := Env {
  draws : nat -> nat;
  replies : nat -> response;
  set_order : list string -> list string;
  set_order_perm : forall s, Permutation (set_order s) s;
  str_lower : string -> string;
  str_lower_ascii : forall s, is_ascii s = true -> str_lower s = ascii_lower s
}.

(** The state: how many numbers were drawn, how many requests were sent,
    and what was reported on the page. *)
Record state : Type := State {
  drawn : nat;
  sent : nat;
  ui : list ui_event
}.

Inductive outcome (A : Type) : Type :=
| Done (a : A)
| Raise (e : exn)
| OutOfFuel.           (* a [while] loop was still running when the fuel ended *)

Arguments Done {A} a.
Arguments Raise {A} e.
Arguments OutOfFuel {A}.

Definition M (A : Type) : Type := env -> state -> outcome A * state.

Definition ret {A} (a : A) : M A := fun _ s => (Done a, s).

Definition bind {A B} (m : M A) (k : A -> M B) : M B :=
  fun E s =>
    match m E s with
    | (Done a, s') => k a E s'
    | (Raise e, s') => (Raise e, s')
    | (OutOfFuel, s') => (OutOfFuel, s')
    end.

Definition raise {A} (e : exn) : M A := fun _ s => (Raise e, s).

Definition out_of_fuel {A} : M A := fun _ s => (OutOfFuel, s).

(** [try: m  except Exception as e: handler e] *)
Definition try_except {A} (m : M A) (handler : exn -> M A) : M A :=
  fun E s =>
    match m E s with
    | (Raise e, s') => handler e E s'
    | r => r
    end.

Declare Scope m_scope.
Delimit Scope m_scope with M.
Notation "x <- m ;; k" := (bind m (fun x => k))
  (at level 61, m at next level, right associativity) : m_scope.
Notation "' pat <- m ;; k" := (bind m (fun x => match x with pat => k end))
  (at level 61, pat pattern, m at next level, right associativity) : m_scope.
Notation "m ;; k" := (bind m (fun _ => k))
  (at level 61, right associativity) : m_scope.
Local Open Scope m_scope.

(** *** The random generator *)

(** One number from the generator. *)
Definition draw : M nat :=
  fun E s => (Done (draws E (drawn s)), State (S (drawn s)) (sent s) (ui s)).

(** [_randbelow(n)], for [n > 0]: any of [0 .. n-1]. *)
Definition randbelow (n : nat) : M nat :=
  r <- draw ;; ret (r mod n).

(** [random.randrange(n)] *)
Definition randrange (n : nat) : M nat :=
  if Nat.eqb n 0 then raise ValueError else randbelow n.

(** [l[i]] *)
Definition subscript {A} (l : list A) (i : nat) : M A :=
  match nth_error l i with
  | Some x => ret x
  | None => raise IndexError
  end.

(** [random.choice(l)] *)
Definition choice {A} (l : list A) : M A :=
  match l with
  | [] => raise IndexError
  | _ => i <- randbelow (length l) ;; subscript l i
  end.

(** [random.random() < 0.6]: the float drawn is represented by its first
    decimal digit. *)
Definition random_lt_06 : M bool :=
  r <- draw ;; ret (r mod 10 <? 6).

(** [list(s)] for a set [s] of strings, kept in insertion order. *)
Definition list_of_set (s : list string) : M (list string) :=
  fun E st => (Done (set_order E s), st).

(** ** Dynamic fallback generation *)

Definition templates : list string :=
  [ "Explore local art galleries in {}";
    "Attend a live music concert in {}";
    "Experience a local music festival in {}";
    "Relax in a scenic park in {}";
    "Visit a quirky museum in {}";
    "Discover historical heritage at a museum in {}";
    "Shop at local markets in {}";
    "Browse boutique shops in {}";
    "Join a guided historical tour in {}";
    "Take a local cooking class in {}";
    "Discover hidden alleys in {}";
    "Stroll along the coastline in {}";
    "Enjoy an evening cruise in {}";
    "Attend an art exhibition in {}";
    "Join a street art tour in {}";
    "Visit an open-air festival in {}";
    "Savor regional street food in {}";
    "Take a bicycle tour in {}";
    "Join a cultural workshop in {}";
    "Discover local handicrafts in {}" ]%string.

Definition adjectives : list string :=
  [ "amazing"; "unforgettable"; "charming"; "historic";
    "vibrant"; "quaint"; "dynamic"; "bustling"; "splendid";
    "exciting"; "remarkable" ]%string.

(** [tpl.format(arg)] for a template with one [{}] field: the field is
    replaced by [arg], the text around it is kept. *)
Fixpoint format (tpl arg : string) : string :=
  match tpl with
  | EmptyString => EmptyString
  | String c rest =>
      match rest with
      | String c' rest' =>
          if (Ascii.eqb c "{"%char && Ascii.eqb c' "}"%char)%bool
          then (arg ++ rest')%string
          else String c (format rest arg)
      | EmptyString => String c EmptyString
      end
  end.

(** [s.add(x)] *)
Definition set_add (x : string) (s : list string) : list string :=
  if py_in x s then s else s ++ [x].

(** One pass of lines 41-43: a template, an adjective six times out of
    ten, and the destination filled in. *)
Definition draw_fallback_item (destination : string) : M string :=
  tpl <- choice templates ;;
  below <- random_lt_06 ;;
  prefix <- (if below : bool
             then adj <- choice adjectives ;; ret (adj ++ " ")%string
             else ret ""%string) ;;
  ret (format tpl (prefix ++ destination)%string).

(** The loop of [generate_dynamic_fallback]; it returns the set and the
    number of attempts made.  [fuel] bounds the iterations and
    [generate_dynamic_fallback] passes enough of it. *)
Fixpoint fallback_loop (fuel : nat) (destination : string) (count : nat)
    (fallbacks : list string) (attempts : nat) : M (list string * nat) :=
  if ((length fallbacks <? count) && (attempts <? count * 10))%bool then
    match fuel with
    | O => out_of_fuel
    | S fuel' =>
        fallback_item <- draw_fallback_item destination ;;
        fallback_loop fuel' destination count
          (set_add fallback_item fallbacks) (S attempts)
    end
  else ret (fallbacks, attempts).

Definition generate_dynamic_fallback (destination : string) (count : nat)
  : M (list string) :=
  ' (fallbacks, _) <- fallback_loop (count * 10) destination count [] 0 ;;
  list_of_set fallbacks.

Definition get_fallback_list (destination : string) : M (list string) :=
  generate_dynamic_fallback destination 50.

(** ** Helper functions: the pool and the day groups *)

(** [if x not in l: l.append(x)] *)
Definition append_new {A} `{PyEq A} (x : A) (l : list A) : list A :=
  if py_in x l then l else l ++ [x].

(** [for task in tasks: if task not in unique_tasks: unique_tasks.append(task)] *)
Fixpoint dedup_into {A} `{PyEq A} (unique_tasks tasks : list A) : list A :=
  match tasks with
  | [] => unique_tasks
  | task :: rest => dedup_into (append_new task unique_tasks) rest
  end.

Definition dedup {A} `{PyEq A} (tasks : list A) : list A := dedup_into [] tasks.

(** The [while] loop of [create_global_pool].  Nothing bounds its
    iterations in the source; [fuel] bounds them here and the loop answers
    [OutOfFuel] when it still wants to run with no fuel left. *)
Fixpoint top_up {A} `{PyEq A} (fuel : nat) (fallback_list : list A)
    (required : nat) (unique_tasks : list A) : M (list A) :=
  if length unique_tasks <? required then
    match fuel with
    | O => out_of_fuel
    | S fuel' =>
        i <- randrange (length fallback_list) ;;
        candidate <- subscript fallback_list i ;;
        top_up fuel' fallback_list required (append_new candidate unique_tasks)
    end
  else ret unique_tasks.

Definition create_global_pool {A} `{PyEq A} (fuel : nat)
    (tasks fallback_list : list A) (destination : string) (required : nat)
  : M (list A) :=
  top_up fuel fallback_list required (dedup tasks).

(** [l[i] = x] *)
Definition assign {A} (l : list A) (i : nat) (x : A) : M (list A) :=
  if i <? length l then ret (firstn i l ++ x :: skipn (S i) l)
  else raise IndexError.

(** The loop of [random.sample] over its copy [pool] of the population:
    [m] items are still unselected and stand at [pool[0 : m]]. *)
Fixpoint sample_loop {A} (k : nat) (pool : list A) (m : nat) : M (list A) :=
  match k with
  | O => ret []
  | S k' =>
      j <- randbelow m ;;
      x <- subscript pool j ;;
      y <- subscript pool (m - 1) ;;
      pool' <- assign pool j y ;;
      rest <- sample_loop k' pool' (m - 1) ;;
      ret (x :: rest)
  end.

(** The least power of 4 that is at least [x], looked for from [p]. *)
Fixpoint pow4_at_least (fuel p x : nat) : nat :=
  if x <=? p then p
  else
    match fuel with
    | O => p
    | S fuel' => pow4_at_least fuel' (4 * p) x
    end.

(** The population size up to which [random.sample] copies the population:
    [21], and [4 ** ceil(log(k * 3, 4))] more when [k > 5] (the exponent is
    taken exactly here; the library's floating-point logarithm gives the
    same for the sizes a trip can ask for). *)
Definition setsize (k : nat) : nat :=
  if 5 <? k then 21 + pow4_at_least (3 * k) 1 (3 * k) else 21.

(** [while j in selected: j = randbelow(n)].  Nothing bounds this loop in
    the library; [fuel] bounds it here. *)
Fixpoint redraw (fuel n : nat) (selected : list nat) (j : nat) : M nat :=
  if existsb (Nat.eqb j) selected then
    match fuel with
    | O => out_of_fuel
    | S fuel' => j' <- randbelow n ;; redraw fuel' n selected j'
    end
  else ret j.

(** The loop of [random.sample] over the positions of a large population:
    a position is drawn again while it is one of the [selected]. *)
Fixpoint sample_by_rejection {A} (fuel : nat) (population : list A)
    (n k : nat) (selected : list nat) : M (list A) :=
  match k with
  | O => ret []
  | S k' =>
      j <- randbelow n ;;
      j <- redraw fuel n selected j ;;
      x <- subscript population j ;;
      rest <- sample_by_rejection fuel population n k' (j :: selected) ;;
      ret (x :: rest)
  end.

(** [random.sample(population, k)]: an error when [k] exceeds the
    population; a population of at most [setsize k] items is copied and the
    copy drawn from; of a larger one, positions are drawn and redrawn until
    [k] different ones are found. *)
Definition random_sample {A} (fuel : nat) (population : list A) (k : nat)
  : M (list A) :=
  let n := length population in
  if n <? k then raise ValueError
  else if n <=? setsize k then sample_loop k population n
  else sample_by_rejection fuel population n k [].

(** [l[a:b]] for indices from the left. *)
Definition slice {A} (l : list A) (a b : nat) : list A :=
  firstn (b - a) (skipn a l).

Definition generate_groups_from_global_pool {A} (fuel : nat)
    (global_pool : list A) (days tasks_per_day : nat) : M (list (list A)) :=
  let required := days * tasks_per_day in
  sampled_tasks <- random_sample fuel global_pool required ;;
  ret (map (fun i => slice sampled_tasks (i * tasks_per_day) ((i + 1) * tasks_per_day))
           (seq 0 days)).

(** [split_list(lst, n)]: [n] consecutive parts of nearly equal length, and
    no part at all when [n <= 0]. *)
Definition split_list {A} (lst : list A) (n : Z) : list (list A) :=
  if (n <=? 0)%Z then []
  else
    let parts := Z.to_nat n in
    let k := length lst / parts in
    let m := length lst mod parts in
    map (fun i => slice lst (i * k + Nat.min i m) ((i + 1) * k + Nat.min (i + 1) m))
        (seq 0 parts).

(** ** The itinerary *)

Record day : Type := { Day : nat; Activities : list pyval }.

(** [[{"Day": i + 1, "Activities": group} for i, group in enumerate(groups)]] *)
Definition itinerary_of (groups : list (list pyval)) : list day :=
  map (fun ig => {| Day := fst ig + 1; Activities := snd ig |})
      (combine (seq 0 (length groups)) groups).

(** ** The live source *)

Definition report (ev : ui_event) : M unit :=
  fun _ s => (Done tt, State (drawn s) (sent s) (ui s ++ [ev])).

(** [requests.get(base_url, params=params, timeout=5)]: one request sent,
    one reply read.  The reply is the environment's, whatever the
    parameters of the request. *)
Definition requests_get : M (nat * option pyval) :=
  fun E s =>
    let s' := State (drawn s) (S (sent s)) (ui s) in
    match replies E (sent s) with
    | NoReply => (Raise RequestException, s')
    | Reply status body => (Done (status, body), s')
    end.

(** [response.raise_for_status()]: an error for the 4xx and 5xx codes. *)
Definition raise_for_status (status : nat) : M unit :=
  if ((400 <=? status) && (status <? 600))%bool then raise HTTPError else ret tt.

(** [response.json()] *)
Definition response_json (body : option pyval) : M pyval :=
  match body with
  | Some data => ret data
  | None => raise JSONDecodeError
  end.

(** [data[i]] for a decoded value and an integer [i]. *)
Definition py_subscript (data : pyval) (i : nat) : M pyval :=
  match data with
  | PList items => subscript items i
  | PStr s => c <- subscript (code_points s) i ;; ret (PStr c)
  | PDict _ => raise KeyError
  | PNone | PBool _ | PInt _ => raise TypeError
  end.

(** What [for t in tasks] runs over. *)
Definition py_iter (tasks : pyval) : M (list pyval) :=
  match tasks with
  | PList items => ret items
  | PStr s => ret (map PStr (code_points s))
  | PDict members => ret (map (fun kv => PStr (fst kv)) members)
  | PNone | PBool _ | PInt _ => raise TypeError
  end.

Definition fetch_itinerary_from_wiki (fuel : nat) (destination : string)
    (duration : nat) : M (list day) :=
  let points_required := duration * 3 in
  try_except
    (' (status, body) <- requests_get ;;
     raise_for_status status ;;
     data <- response_json body ;;
     tasks <- py_subscript data 1 ;;
     ts <- py_iter tasks ;;
     let tasks := dedup ts in
     fallback_list <- get_fallback_list destination ;;
     global_pool <- create_global_pool fuel tasks (map PStr fallback_list)
                      destination points_required ;;
     groups <- generate_groups_from_global_pool fuel global_pool duration 3 ;;
     ret (itinerary_of groups))
    (fun e => report (st_error e) ;; ret []).

(** ** Travel advice and budget tip *)

Inductive month_of_year : Type :=
| January | February | March | April | May | June
| July | August | September | October | November | December.

(** [travel_date.month] *)
Definition month_number (m : month_of_year) : nat :=
  match m with
  | January => 1 | February => 2 | March => 3 | April => 4
  | May => 5 | June => 6 | July => 7 | August => 8
  | September => 9 | October => 10 | November => 11 | December => 12
  end.

(** [travel_date.strftime("%B")], in the default locale. *)
Definition month_name (m : month_of_year) : string :=
  match m with
  | January => "January" | February => "February" | March => "March"
  | April => "April" | May => "May" | June => "June"
  | July => "July" | August => "August" | September => "September"
  | October => "October" | November => "November" | December => "December"
  end.

Record date : Type := { date_year : nat; date_month : month_of_year; date_day : nat }.

(** [month in [a, b, c]] *)
Definition month_in (m : nat) (l : list nat) : bool := existsb (Nat.eqb m) l.

Definition get_travel_advice (destination : string) (travel_date : date)
  : string * string :=
  let month := month_number (date_month travel_date) in
  let month_name := month_name (date_month travel_date) in
  (if String.eqb destination "Paris" then
    let weather :=
      if month_in month [12; 1; 2] then
        "In " ++ month_name ++ ", Paris is wintry (around 5-10°C) – pack heavy, warm clothing."
      else if month_in month [3; 4; 5] then
        "In " ++ month_name ++ ", Paris enjoys mild spring weather (10-15°C) with occasional rain – bring a light jacket and umbrella."
      else if month_in month [6; 7; 8] then
        "In " ++ month_name ++ ", Paris is pleasantly warm (20-25°C) though evenings can be cool – opt for light clothing and a sweater."
      else
        "In " ++ month_name ++ ", Paris is cool and sometimes rainy (10-15°C) – layering is advisable." in
    (weather,
     "French is the official language. Basic phrases like 'Bonjour', 'Merci', and 'Au revoir' are very useful.")
  else if String.eqb destination "Tokyo" then
    let weather :=
      if month_in month [12; 1; 2] then
        "During " ++ month_name ++ ", Tokyo can be chilly (5-10°C) – pack warm layers."
      else if month_in month [3; 4; 5] then
        "In " ++ month_name ++ ", Tokyo enjoys mild weather (10-18°C) with some rain – dress in layers and carry an umbrella."
      else if month_in month [6; 7; 8] then
        "In " ++ month_name ++ ", Tokyo is hot and humid (25-30°C) – wear light, breathable clothing and use sunscreen."
      else
        "In " ++ month_name ++ ", Tokyo's weather is mild with occasional showers (15-20°C) – a light jacket is sufficient." in
    (weather,
     "Japanese is the primary language. Learning phrases like 'こんにちは (Konnichiwa)' and 'ありがとう (Arigatou)' can enhance your trip.")
  else if String.eqb destination "New York" then
    let weather :=
      if month_in month [12; 1; 2] then
        "New York in " ++ month_name ++ " is cold (−2°C to 5°C) – heavy winter attire is a must."
      else if month_in month [3; 4; 5] then
        "In " ++ month_name ++ ", New York is mild (10-18°C) but can be unpredictable – dress in layers and bring a raincoat."
      else if month_in month [6; 7; 8] then
        month_name ++ " in New York is hot and humid (25-30°C) – wear light clothing and stay hydrated."
      else
        "During " ++ month_name ++ ", New York has moderate temperatures (10-20°C) – layered clothing is recommended." in
    (weather, "English is the primary language.")
  else if String.eqb destination "Goa" then
    let weather :=
      if month_in month [12; 1; 2] then
        "In " ++ month_name ++ ", Goa is cooler (20-25°C) and ideal for sightseeing – pack a light jacket for evenings."
      else if month_in month [3; 4; 5] then
        month_name ++ " in Goa is warm (25-30°C) and dry – opt for very light, breathable clothing."
      else if month_in month [6; 7; 8] then
        "During " ++ month_name ++ ", Goa is hot and humid (28-33°C) with occasional rain – choose ultra-light clothes, use sunscreen, and stay hydrated."
      else
        "In " ++ month_name ++ ", Goa is pleasantly warm (25-30°C) with a chance of brief showers – pack accordingly." in
    (weather,
     "English is widely spoken along with Konkani. Basic English usually suffices.")
  else
    ("Weather in " ++ destination ++ " during " ++ month_name ++ " can be variable – please check the forecast and pack accordingly.",
     "Local languages in " ++ destination ++ " may vary – consider learning a few basic phrases or using a translation app."))%string.

Definition low_budget_tip : string :=
  "Opt for budget-friendly dining, public transport, and free attractions.".
Definition mid_budget_tip : string :=
  "Mix economical choices with occasional splurges on well-reviewed experiences.".
Definition premium_tip : string :=
  "Enjoy premium experiences, fine dining, and exclusive guided tours.".

Definition get_budget_tip (budget : Z) : string :=
  if (budget <? 30000)%Z then low_budget_tip
  else if (budget <? 70000)%Z then mid_budget_tip
  else premium_tip.

(** ** Preset itinerary data *)

Definition preset_itineraries : list (string * list string) :=
  [ ("Paris",
     [ "Morning: Visit the Eiffel Tower and enjoy panoramic views.";
       "Late Morning: Explore the Louvre Museum to see timeless artworks.";
       "Afternoon: Savor lunch at a charming café along the Seine.";
       "Early Afternoon: Visit the exterior of Notre-Dame Cathedral and wander historic streets.";
       "Late Afternoon: Stroll through Montmartre and admire Sacré-Cœur Basilica.";
       "Evening: Dine in a traditional French bistro and sample local specialties.";
       "Night: Enjoy a scenic river cruise on the Seine with illuminated landmarks." ]);
    ("Tokyo",
     [ "Morning: Begin at Senso-ji Temple in Asakusa and explore bustling market streets.";
       "Late Morning: Wander along Nakamise Street while sampling traditional snacks.";
       "Afternoon: Enjoy a sushi lunch at a renowned local eatery.";
       "Early Afternoon: Stroll through Ueno Park and visit eclectic museums.";
       "Late Afternoon: Experience the energy of Shibuya Crossing.";
       "Evening: Dine in Shinjuku and take in the lively nightlife.";
       "Night: Relax at an izakaya or enjoy city views from an observatory." ]);
    ("New York",
     [ "Morning: Start with breakfast in Times Square to feel the city’s energy.";
       "Late Morning: Walk through Central Park, visiting iconic spots like Bethesda Terrace.";
       "Afternoon: Have lunch at a famous deli and visit a world-class museum.";
       "Early Afternoon: Explore trendy neighborhoods like SoHo for art and shopping.";
       "Late Afternoon: Take a ferry ride to see the Statue of Liberty up close.";
       "Evening: Enjoy a Broadway show followed by dinner at a top-tier restaurant.";
       "Night: Experience the vibrant nightlife or take a relaxing stroll through a buzzing district." ]);
    ("Goa",
     [ "Morning: Relax on Baga Beach and watch a serene sunrise over the Arabian Sea.";
       "Late Morning: Explore Fort Aguada for its historic charm and coastal views.";
       "Afternoon: Savor a seafood lunch at a beachside shack.";
       "Early Afternoon: Tour a spice plantation to learn about local flavors.";
       "Late Afternoon: Enjoy water sports or take a boat ride along the coast.";
       "Evening: Stroll along the beach while sampling local street food.";
       "Night: Dine on authentic Goan cuisine and enjoy live music by the sea." ]) ]%string.

(** [preset_itineraries[destination]], [None] when the key is missing. *)
Fixpoint dict_get {V} (d : list (string * V)) (key : string) : option V :=
  match d with
  | [] => None
  | (k, v) :: d' => if String.eqb key k then Some v else dict_get d' key
  end.

(** The [extra_tasks] of the preset branch. *)
Definition extra_tasks_for (destination : string) : list string :=
  (if String.eqb destination "Goa" then
     [ "Explore local art galleries in Goa";
       "Attend a cultural performance in Goa";
       "Relax in one of Goa's scenic parks";
       "Visit an offbeat museum in Goa";
       "Experience the vibrant nightlife of Goa";
       "Take a local cooking class in Goa";
       "Shop at Mapusa Market in Goa";
       "Shop at Anjuna Flea Market in Goa";
       "Join a guided historical tour in Goa" ]
   else if String.eqb destination "Paris" then
     [ "Explore chic boutiques and art galleries in Paris";
       "Attend a classical music concert in Paris";
       "Relax at a riverside park in Paris";
       "Visit a contemporary art museum in Paris";
       "Experience Parisian nightlife in trendy bars";
       "Take a pastry-making class in Paris";
       "Shop at local flea markets in Paris";
       "Join a guided walking tour in Montmartre" ]
   else if String.eqb destination "Tokyo" then
     [ "Explore futuristic art galleries in Tokyo";
       "Attend a traditional Kabuki performance in Tokyo";
       "Relax in a serene Japanese garden in Tokyo";
       "Visit a modern museum in Tokyo";
       "Experience Tokyo's bustling nightlife in Shibuya";
       "Take a sushi-making class in Tokyo";
       "Shop at local district markets in Tokyo";
       "Join a guided tour of historical temples in Tokyo" ]
   else if String.eqb destination "New York" then
     [ "Explore local art galleries in New York";
       "Attend a Broadway musical in New York";
       "Relax in Central Park";
       "Visit a cutting-edge museum in New York";
       "Experience New York's vibrant nightlife";
       "Take a culinary tour of New York's diverse neighborhoods";
       "Shop at trendy boutiques and street fairs in New York";
       "Join a guided historical tour of Manhattan" ]
   else
     [ "Explore local art galleries in " ++ destination;
       "Attend a cultural performance in " ++ destination;
       "Relax in a scenic park in " ++ destination;
       "Visit a modern museum in " ++ destination;
       "Experience vibrant nightlife in " ++ destination;
       "Take a local cooking class in " ++ destination;
       "Shop at local markets in " ++ destination;
       "Join a guided historical tour in " ++ destination ])%string.

(** [set(l)], in insertion order. *)
Definition set_of (l : list string) : list string :=
  fold_left (fun s x => set_add x s) l [].

(** ** The Generate Itinerary handler *)

(** Lines 348-419: the itinerary before the annotations. *)
Definition build_itinerary (fuel : nat) (destination : string) (duration : nat)
  : M (list day) :=
  match dict_get preset_itineraries destination with
  | Some base_points =>
      let extra_tasks := extra_tasks_for destination in
      global_tasks <- list_of_set (set_of (base_points ++ extra_tasks)) ;;
      fallback_list <- get_fallback_list destination ;;
      global_pool <- create_global_pool fuel global_tasks fallback_list
                       destination (duration * 3) ;;
      groups <- generate_groups_from_global_pool fuel global_pool duration 3 ;;
      ret (itinerary_of (map (map PStr) groups))
  | None =>
      itinerary <- fetch_itinerary_from_wiki fuel destination duration ;;
      match itinerary with
      | [] =>
          report st_warning ;;
          fallback_list <- get_fallback_list destination ;;
          global_pool <- create_global_pool fuel [] fallback_list
                           destination (duration * 3) ;;
          groups <- generate_groups_from_global_pool fuel global_pool duration 3 ;;
          ret (itinerary_of (map (map PStr) groups))
      | _ :: _ => ret itinerary
      end
  end.

(** [s.lower()] *)
Definition lower (E : env) (s : string) : string := str_lower E s.

(** The guard of the flight lines:
    [start_location.strip() and start_location.lower() != destination.lower()]. *)
Definition flights_wanted (E : env) (start_location destination : string) : bool :=
  (truthy (strip start_location)
   && negb (String.eqb (lower E start_location) (lower E destination)))%bool.

Definition departure_message (start_location destination : string) : string :=
  ("Take a flight from " ++ start_location ++ " to " ++ destination ++ ".")%string.

Definition return_message (start_location destination : string) : string :=
  ("Take a flight from " ++ destination ++ " back to " ++ start_location ++ ".")%string.

Definition budget_line (budget : Z) : string :=
  ("Budget Tip: " ++ get_budget_tip budget)%string.

Definition with_activities (d : day) (acts : list pyval) : day :=
  {| Day := Day d; Activities := acts |}.

(** [itinerary[0]['Activities'] = [x] + itinerary[0]['Activities']] *)
Definition prepend_first (x : pyval) (itinerary : list day) : M (list day) :=
  match itinerary with
  | [] => raise IndexError
  | d :: rest => ret (with_activities d (x :: Activities d) :: rest)
  end.

(** [itinerary[-1]['Activities'].append(x)] *)
Fixpoint append_last (x : pyval) (itinerary : list day) : M (list day) :=
  match itinerary with
  | [] => raise IndexError
  | [d] => ret [with_activities d (Activities d ++ [x])]
  | d :: rest => rest' <- append_last x rest ;; ret (d :: rest')
  end.

(** Lines 421-429: the flight lines and the budget tip. *)
Definition annotate (start_location destination : string) (budget : Z)
    (itinerary : list day) : M (list day) :=
  fun E =>
    (itinerary <-
       (if flights_wanted E start_location destination then
          itinerary <- prepend_first
                         (PStr (departure_message start_location destination))
                         itinerary ;;
          append_last (PStr (return_message start_location destination)) itinerary
        else ret itinerary) ;;
     let budget_tip := budget_line budget in
     ret (map (fun d => with_activities d (Activities d ++ [PStr budget_tip]))
              itinerary)) E.

(** The handler of the Generate Itinerary button, up to the rendering: the
    annotated itinerary and the two pieces of advice. *)
Definition generate_itinerary (fuel : nat) (destination start_location : string)
    (budget : Z) (duration : nat) (travel_date : date)
  : M (list day * (string * string)) :=
  itinerary <- build_itinerary fuel destination duration ;;
  itinerary <- annotate start_location destination budget itinerary ;;
  ret (itinerary, get_travel_advice destination travel_date).

(** ** Vocabulary of the properties *)

(** The state after [n] more draws. *)
Definition after_draws (n : nat) (s : state) : state :=
  State (drawn s + n) (sent s) (ui s).

(** [sub] occurs in [s]. *)
Definition contains (s sub : string) : Prop :=
  exists pre post, s = (pre ++ sub ++ post)%string.

(** The text of a template before its field. *)
Definition template_head (tpl : string) : string :=
  substring 0 (String.length tpl - 2) tpl.

(** A string the fallback generator can produce for [destination]. *)
Definition synthetic (destination item : string) : Prop :=
  exists tpl prefix,
    In tpl templates /\
    (prefix = ""%string \/ exists adj, In adj adjectives /\ prefix = (adj ++ " ")%string) /\
    item = format tpl (prefix ++ destination)%string.

(** Every position of a list of [n] items is drawn at least once among the
    next [T] draws. *)
Definition covers (E : env) (s : state) (T n : nat) : Prop :=
  forall i, i < n -> exists t, t < T /\ draws E (drawn s + t) mod n = i.

(** Following the words of the specification: the candidates in their
    order, each kept at its first occurrence only. *)
Fixpoint first_occurrences {A} `{PyEq A} (l : list A) : list A :=
  match l with
  | [] => []
  | x :: rest => x :: filter (fun y => negb (py_eq x y)) (first_occurrences rest)
  end.

(** Following the words of the specification: the same character up to
    the case of a letter A to Z, and text equal when case is ignored. *)
Definition same_letter (a b : ascii) : Prop :=
  a = b \/
  (65 <= nat_of_ascii a <= 90 /\ nat_of_ascii b = nat_of_ascii a + 32) \/
  (65 <= nat_of_ascii b <= 90 /\ nat_of_ascii a = nat_of_ascii b + 32).

Definition equal_ignoring_case (s d : string) : Prop :=
  Forall2 same_letter (list_ascii_of_string s) (list_ascii_of_string d).

(** An ASCII whitespace character (tab, line feed, vertical tab, form feed,
    carriage return, the four separators, space), and text made of such
    characters only. *)
Definition blank_character (c : ascii) : Prop :=
  9 <= nat_of_ascii c <= 13 \/ 28 <= nat_of_ascii c <= 32.

Definition blank (s : string) : Prop :=
  Forall blank_character (list_ascii_of_string s).

(** A day with the budget line appended. *)
Definition tipped (budget : Z) (d : day) : day :=
  with_activities d (Activities d ++ [PStr (budget_line budget)]).

(** Lines 416-419: the itinerary from fallback items alone. *)
Definition synthetic_itinerary (fuel : nat) (destination : string) (duration : nat)
  : M (list day) :=
  fallback_list <- get_fallback_list destination ;;
  global_pool <- create_global_pool fuel [] fallback_list destination (duration * 3) ;;
  groups <- generate_groups_from_global_pool fuel global_pool duration 3 ;;
  ret (itinerary_of (map (map PStr) groups)).

(** A decoded body with nothing at index 1, and what [data[1]] raises. *)
Inductive no_second_item : pyval -> exn -> Prop :=
| short_list items : length items < 2 -> no_second_item (PList items) IndexError
| short_text s : length (code_points s) < 2 -> no_second_item (PStr s) IndexError
| an_object members : no_second_item (PDict members) KeyError
| a_null : no_second_item PNone TypeError
| a_boolean b : no_second_item (PBool b) TypeError
| a_number z : no_second_item (PInt z) TypeError.

(** A value a [for] loop cannot run over. *)
Inductive not_iterable : pyval -> Prop :=
| null_not_iterable : not_iterable PNone
| boolean_not_iterable b : not_iterable (PBool b)
| number_not_iterable z : not_iterable (PInt z).

(** The replies on which the fetch fails, with the exception raised. *)
Inductive fetch_failure : response -> exn -> Prop :=
| network_failure : fetch_failure NoReply RequestException
| error_status status body :
    400 <= status < 600 -> fetch_failure (Reply status body) HTTPError
| body_not_json status :
    ~ 400 <= status < 600 -> fetch_failure (Reply status None) JSONDecodeError
| body_without_second_item status data e :
    ~ 400 <= status < 600 -> no_second_item data e ->
    fetch_failure (Reply status (Some data)) e
| second_item_not_iterable status items tasks :
    ~ 400 <= status < 600 -> nth_error items 1 = Some tasks -> not_iterable tasks ->
    fetch_failure (Reply status (Some (PList items))) TypeError.

(** An activity the fallback generator made for [destination]. *)
Definition synthetic_activity (destination : string) (a : pyval) : Prop :=
  exists item, a = PStr item /\ synthetic destination item.

(** The prefixes the fallback generator can put before the destination. *)
Definition prefixes : list string :=
  ""%string :: map (fun adj => (adj ++ " ")%string) adjectives.

(** Every string the fallback generator can make for [destination]. *)
Definition all_fallbacks (destination : string) : list string :=
  flat_map (fun tpl => map (fun prefix => format tpl (prefix ++ destination)%string)
                           prefixes)
           templates.

(** [s] starts with [p]. *)
Fixpoint starts_with (p s : string) : bool :=
  match p, s with
  | EmptyString, _ => true
  | String a p', String b s' => (Ascii.eqb a b && starts_with p' s')%bool
  | String _ _, EmptyString => false
  end.

(** [sub in s], computed. *)
Fixpoint containsb (s sub : string) : bool :=
  (starts_with sub s ||
   match s with
   | EmptyString => false
   | String _ s' => containsb s' sub
   end)%bool.

(** Day [d'] is day [d] after the annotations: the same number, the same
    activities in the same order, at most the departure line before them,
    at most the return line after them, and the budget line last. *)
Definition annotated (start_location destination : string) (budget : Z)
    (d d' : day) : Prop :=
  Day d' = Day d /\
  exists before after,
    Activities d' = before ++ Activities d ++ after ++ [PStr (budget_line budget)] /\
    incl before [PStr (departure_message start_location destination)] /\
    length before <= 1 /\
    incl after [PStr (return_message start_location destination)] /\
    length after <= 1.

(** The flight line of a day, when it gets one. *)
Definition flight_lines (wanted : bool) (line : string) : list pyval :=
  if wanted then [PStr line] else [].

(** ** Sample environments *)

(** An environment whose generator counts upwards, whose network never
    answers and whose sets iterate in insertion order. *)
Definition counting_env : env :=
  Env (fun i => i) (fun _ => NoReply) (fun s => s) (fun s => Permutation_refl s)
      ascii_lower (fun s _ => eq_refl).

(** The same with a generator that always draws 0. *)
Definition stuck_env : env :=
  Env (fun _ => 0) (fun _ => NoReply) (fun s => s) (fun s => Permutation_refl s)
      ascii_lower (fun s _ => eq_refl).

(** An environment whose network answers every request with [reply] and
    whose sets iterate in reverse insertion order. *)
Definition replying_env (reply : response) : env :=
  Env (fun i => 7 * i + 3) (fun _ => reply) (@rev string)
      (fun s => Permutation_sym (Permutation_rev s))
      ascii_lower (fun s _ => eq_refl).

Definition initial_state : state := State 0 0 [].

(** An environment whose generator draws every number twice in a row:
    0, 0, 1, 1, 2, 2, ... *)
Definition halving_env : env :=
  Env (fun i => i / 2) (fun _ => NoReply) (fun s => s) (fun s => Permutation_refl s)
      ascii_lower (fun s _ => eq_refl).

(** A pool of 22 different one-letter places. *)
Definition twenty_two_places : list string :=
  map (fun c => String c EmptyString)
      (list_ascii_of_string "abcdefghijklmnopqrstuv").

(** * Properties *)

(** ** Budget tip and travel advice *)

(** C8: [get_budget_tip] sends every budget to exactly one of three fixed
    texts, chosen by the thresholds 30000 and 70000; 20000 gets the
    low-budget text, 50000 the mid-budget text and 90000 the premium text. *)
Theorem get_budget_tip_thresholds :
  (forall budget : Z,
      (budget < 30000 /\ get_budget_tip budget = low_budget_tip)%Z \/
      (30000 <= budget < 70000 /\ get_budget_tip budget = mid_budget_tip)%Z \/
      (70000 <= budget /\ get_budget_tip budget = premium_tip)%Z) /\
  (low_budget_tip <> mid_budget_tip /\ mid_budget_tip <> premium_tip /\
   low_budget_tip <> premium_tip) /\
  get_budget_tip 20000 =
    "Opt for budget-friendly dining, public transport, and free attractions."%string /\
  get_budget_tip 50000 =
    "Mix economical choices with occasional splurges on well-reviewed experiences."%string /\
  get_budget_tip 90000 =
    "Enjoy premium experiences, fine dining, and exclusive guided tours."%string.
Proof.
  split; [| split; [| repeat split; reflexivity]].
  - intro budget. unfold get_budget_tip.
    destruct (Z.ltb_spec budget 30000) as [Hlow | Hlow].
    + left. split; [assumption | reflexivity].
    + destruct (Z.ltb_spec budget 70000) as [Hmid | Hmid].
      * right. left. split; [lia | reflexivity].
      * right. right. split; [assumption | reflexivity].
  - repeat split; discriminate.
Qed.

(** C9: both thresholds are strict: a budget of exactly 30000 gets the
    mid-budget text, not the low-budget one, and a budget of exactly 70000
    gets the premium text, not the mid-budget one. *)
Theorem get_budget_tip_boundaries :
  get_budget_tip 30000 = mid_budget_tip /\
  get_budget_tip 30000 <> low_budget_tip /\
  get_budget_tip 29999 = low_budget_tip /\
  get_budget_tip 70000 = premium_tip /\
  get_budget_tip 70000 <> mid_budget_tip /\
  get_budget_tip 69999 = mid_budget_tip.
Proof.
  repeat split; try reflexivity; vm_compute; discriminate.
Qed.

Lemma eqb_other (destination preset : string) :
  destination <> preset -> String.eqb destination preset = false.
Proof. intro Hne. now apply String.eqb_neq. Qed.

(** C7: [get_travel_advice] is a function of the destination and the date
    alone.  For Paris, any date in July gets the warm-summer text (20-25°C)
    and the French-phrases text, any date in January the wintry text
    (5-10°C); a destination that is none of the four presets gets the
    generic texts, which name the month and the destination. *)
Theorem get_travel_advice_cases :
  (forall y d,
      get_travel_advice "Paris" {| date_year := y; date_month := July; date_day := d |} =
      ("In July, Paris is pleasantly warm (20-25°C) though evenings can be cool – opt for light clothing and a sweater.",
       "French is the official language. Basic phrases like 'Bonjour', 'Merci', and 'Au revoir' are very useful.")%string) /\
  (forall y d,
      fst (get_travel_advice "Paris"
             {| date_year := y; date_month := January; date_day := d |}) =
      "In January, Paris is wintry (around 5-10°C) – pack heavy, warm clothing."%string) /\
  (forall destination travel_date,
      ~ In destination ["Paris"; "Tokyo"; "New York"; "Goa"]%string ->
      get_travel_advice destination travel_date =
      ("Weather in " ++ destination ++ " during " ++ month_name (date_month travel_date)
         ++ " can be variable – please check the forecast and pack accordingly.",
       "Local languages in " ++ destination
         ++ " may vary – consider learning a few basic phrases or using a translation app.")%string).
Proof.
  split; [| split].
  - intros y d. reflexivity.
  - intros y d. reflexivity.
  - intros destination travel_date Hother. unfold get_travel_advice.
    rewrite !eqb_other; [reflexivity | | | |];
      intro Heq; apply Hother; subst destination; simpl; tauto.
Qed.

(** ** Reasoning in the monad *)

Lemma bind_Done {A B} (m : M A) (k : A -> M B) E s a s' :
  m E s = (Done a, s') -> bind m k E s = k a E s'.
Proof. unfold bind. intros ->. reflexivity. Qed.

Lemma bind_Raise {A B} (m : M A) (k : A -> M B) E s e s' :
  m E s = (Raise e, s') -> bind m k E s = (Raise e, s').
Proof. unfold bind. intros ->. reflexivity. Qed.

Lemma bind_OutOfFuel {A B} (m : M A) (k : A -> M B) E s s' :
  m E s = (OutOfFuel, s') -> bind m k E s = (OutOfFuel, s').
Proof. unfold bind. intros ->. reflexivity. Qed.

Lemma bind_Done_inv {A B} (m : M A) (k : A -> M B) E s b s2 :
  bind m k E s = (Done b, s2) ->
  exists a s1, m E s = (Done a, s1) /\ k a E s1 = (Done b, s2).
Proof.
  unfold bind. destruct (m E s) as [[a | e |] s1]; intro Hk; try discriminate.
  exists a, s1. split; [reflexivity | assumption].
Qed.

(** Run the first command of a sequence by what it is known to return. *)
Ltac bind_step H := rewrite (@bind_Done _ _ _ _ _ _ _ _ H).
Ltac bind_step_in H H' := rewrite (@bind_Done _ _ _ _ _ _ _ _ H) in H'.
Ltac bind_raise H := rewrite (@bind_Raise _ _ _ _ _ _ _ _ H).
Ltac bind_out H := rewrite (@bind_OutOfFuel _ _ _ _ _ _ _ H).

Lemma after_draws_0 s : after_draws 0 s = s.
Proof. destruct s. unfold after_draws. simpl. now rewrite Nat.add_0_r. Qed.

Lemma after_draws_add n m s :
  after_draws m (after_draws n s) = after_draws (n + m) s.
Proof. unfold after_draws. simpl. now rewrite Nat.add_assoc. Qed.

Lemma randbelow_Done n E s :
  randbelow n E s = (Done (draws E (drawn s) mod n), after_draws 1 s).
Proof. unfold randbelow, bind, draw, ret, after_draws. now rewrite Nat.add_1_r. Qed.

Lemma subscript_Done {A} (l : list A) i E s :
  i < length l -> exists x, nth_error l i = Some x /\ subscript l i E s = (Done x, s).
Proof.
  intro Hi. unfold subscript.
  destruct (nth_error l i) as [x |] eqn:Hnth.
  - exists x. split; reflexivity.
  - apply nth_error_None in Hnth. lia.
Qed.

Lemma choice_Done {A} (l : list A) E s :
  l <> [] ->
  exists x, In x l /\ choice l E s = (Done x, after_draws 1 s).
Proof.
  intro Hne. destruct l as [| a l']; [congruence |].
  set (l := a :: l') in *.
  assert (Hi : draws E (drawn s) mod length l < length l)
    by (apply Nat.mod_upper_bound; discriminate).
  destruct (subscript_Done l E (after_draws 1 s) Hi) as (x & Hnth & Hsub).
  exists x. split; [eapply nth_error_In; eassumption |].
  unfold choice. fold l. unfold l at 1.
  bind_step (randbelow_Done (length l) E s). exact Hsub.
Qed.

(** ** The fallback generator *)

Lemma string_app_nil_r (s : string) : (s ++ "")%string = s.
Proof. induction s as [| c s IH]; simpl; [reflexivity | now rewrite IH]. Qed.

Lemma string_app_assoc (a b c : string) :
  ((a ++ b) ++ c)%string = (a ++ (b ++ c))%string.
Proof. induction a as [| x a IH]; simpl; [reflexivity | now rewrite IH]. Qed.

Lemma format_template tpl arg :
  In tpl templates -> format tpl arg = (template_head tpl ++ arg)%string.
Proof.
  unfold templates. intro Hin. simpl in Hin.
  repeat (destruct Hin as [<- | Hin];
          [cbn; rewrite string_app_nil_r; reflexivity |]).
  contradiction.
Qed.

Lemma synthetic_contains destination item :
  synthetic destination item -> contains item destination.
Proof.
  intros (tpl & prefix & Htpl & _ & ->).
  rewrite (format_template _ Htpl).
  exists (template_head tpl ++ prefix)%string, ""%string.
  now rewrite string_app_nil_r, string_app_assoc.
Qed.

Lemma draw_fallback_item_Done destination E s :
  exists item n,
    draw_fallback_item destination E s = (Done item, after_draws n s) /\
    2 <= n <= 3 /\ synthetic destination item.
Proof.
  unfold draw_fallback_item.
  destruct (choice_Done (l := templates) E s) as (tpl & Htpl & Hc1);
    [discriminate |].
  bind_step Hc1.
  set (s1 := after_draws 1 s).
  assert (Hr : random_lt_06 E s1 =
               (Done (draws E (drawn s1) mod 10 <? 6), after_draws 2 s)).
  { unfold random_lt_06, bind, draw, ret, s1, after_draws. simpl.
    repeat f_equal. lia. }
  bind_step Hr.
  destruct (draws E (drawn s1) mod 10 <? 6).
  - destruct (choice_Done (l := adjectives) E (after_draws 2 s))
      as (adj & Hadj & Hc2); [discriminate |].
    rewrite after_draws_add in Hc2.
    exists (format tpl ((adj ++ " ") ++ destination)%string), 3.
    split; [| split; [lia |]].
    + assert (Hp : (adj <- choice adjectives ;; ret (adj ++ " ")%string) E
                     (after_draws 2 s) = (Done (adj ++ " ")%string, after_draws 3 s))
        by (bind_step Hc2; reflexivity).
      cbv iota. bind_step Hp. reflexivity.
    + exists tpl, (adj ++ " ")%string. split; [assumption |].
      split; [right; exists adj; split; [assumption | reflexivity] | reflexivity].
  - exists (format tpl ("" ++ destination)%string), 2.
    split; [reflexivity | split; [lia |]].
    exists tpl, ""%string. split; [assumption |].
    split; [left; reflexivity | reflexivity].
Qed.

(** ** Appending what is not yet there *)

Section PyEqFacts.
Context {A : Type} {eqA : PyEq A}.
Hypothesis py_eq_spec : forall x y : A, py_eq x y = true <-> x = y.

Lemma py_in_spec (x : A) l : py_in x l = true <-> In x l.
Proof.
  unfold py_in. rewrite existsb_exists. split.
  - intros (y & Hy & Heq). apply py_eq_spec in Heq. now subst.
  - intro Hx. exists x. split; [assumption | now apply py_eq_spec].
Qed.

Lemma py_in_false (x : A) l : py_in x l = false <-> ~ In x l.
Proof.
  rewrite <- py_in_spec. destruct (py_in x l); split; congruence.
Qed.

Lemma append_new_NoDup (x : A) l : NoDup l -> NoDup (append_new x l).
Proof.
  intro Hnd. unfold append_new. destruct (py_in x l) eqn:Hin; [assumption |].
  apply py_in_false in Hin.
  apply NoDup_app; [assumption | repeat constructor; intros [] | ].
  intros y Hy [<- | []]. contradiction.
Qed.

Lemma append_new_In (x y : A) l : In y (append_new x l) <-> In y l \/ y = x.
Proof.
  unfold append_new. destruct (py_in x l) eqn:Hin.
  - apply py_in_spec in Hin. split; [tauto | intros [Hy | ->]; assumption].
  - rewrite in_app_iff. simpl. split; intros [Hy | Hy]; auto.
    destruct Hy as [<- | []]. now right.
Qed.

Lemma append_new_length (x : A) l :
  length l <= length (append_new x l) <= S (length l).
Proof.
  unfold append_new. destruct (py_in x l); [lia |]. rewrite length_app. simpl. lia.
Qed.

Lemma append_new_extends (x : A) l :
  exists extra, append_new x l = l ++ extra /\ (extra = [] \/ extra = [x]).
Proof.
  unfold append_new. destruct (py_in x l).
  - exists []. split; [now rewrite app_nil_r | now left].
  - exists [x]. split; [reflexivity | now right].
Qed.
End PyEqFacts.

Lemma string_eq_spec (x y : string) : py_eq x y = true <-> x = y.
Proof. apply String.eqb_eq. Qed.

Lemma set_add_NoDup x s : NoDup s -> NoDup (set_add x s).
Proof. apply (append_new_NoDup string_eq_spec). Qed.

Lemma set_add_In x y s : In y (set_add x s) <-> In y s \/ y = x.
Proof. apply (append_new_In string_eq_spec). Qed.

Lemma set_add_length x s : length s <= length (set_add x s) <= S (length s).
Proof. apply (append_new_length (eqA := string_PyEq)). Qed.

(** The loop of the generator always leaves by its own test: it makes at
    most [count * 10] attempts, each of two or three draws, and stops with
    [count] items or with the attempts used up. *)
Lemma fallback_loop_Done destination count E :
  forall fuel fallbacks attempts s,
    count * 10 <= fuel + attempts ->
    attempts <= count * 10 ->
    NoDup fallbacks ->
    length fallbacks <= count ->
    Forall (synthetic destination) fallbacks ->
    exists fallbacks' attempts' n,
      fallback_loop fuel destination count fallbacks attempts E s =
        (Done (fallbacks', attempts'), after_draws n s) /\
      attempts <= attempts' <= count * 10 /\
      2 * (attempts' - attempts) <= n <= 3 * (attempts' - attempts) /\
      NoDup fallbacks' /\
      Forall (synthetic destination) fallbacks' /\
      (length fallbacks' = count \/
       length fallbacks' < count /\ attempts' = count * 10) /\
      length fallbacks <= length fallbacks' /\
      (attempts < attempts' -> 1 <= length fallbacks').
Proof.
  induction fuel as [| fuel IH]; intros fallbacks attempts s Hfuel Hatt Hnd Hlen Hsyn.
  - assert (attempts = count * 10) by lia. subst attempts.
    exists fallbacks, (count * 10), 0. simpl.
    rewrite Nat.ltb_irrefl, andb_false_r, after_draws_0.
    repeat split; try lia; try assumption.
  - simpl.
    destruct (Nat.ltb_spec (length fallbacks) count) as [Hl | Hl];
      destruct (Nat.ltb_spec attempts (count * 10)) as [Ha | Ha]; simpl;
      try (exists fallbacks, attempts, 0; rewrite after_draws_0;
           repeat split; try lia; try assumption; lia).
    destruct (draw_fallback_item_Done destination E s)
      as (item & n1 & Hdraw & Hn1 & Hitem).
    bind_step Hdraw.
    assert (Hone : 1 <= length (set_add item fallbacks)).
    { unfold set_add. destruct (py_in item fallbacks) eqn:Hin.
      - apply (py_in_spec string_eq_spec) in Hin.
        destruct fallbacks; [contradiction | simpl; lia].
      - rewrite length_app. simpl. lia. }
    pose proof (set_add_length item fallbacks) as Hgrow.
    destruct (IH (set_add item fallbacks) (S attempts) (after_draws n1 s))
      as (fb' & att' & n2 & Hrun & Hatt' & Hn2 & Hnd' & Hsyn' & Hexit & Hmono & _).
    + lia.
    + lia.
    + now apply set_add_NoDup.
    + lia.
    + apply Forall_forall. intros y Hy. apply set_add_In in Hy.
      destruct Hy as [Hy | ->]; [| assumption].
      revert y Hy. now apply Forall_forall.
    + exists fb', att', (n1 + n2). rewrite Hrun, after_draws_add.
      repeat split; try lia; assumption.
Qed.

(** C4: for every destination and every count N, [generate_dynamic_fallback]
    returns: its loop makes at most 10 N attempts (of two or three draws
    each), and the list returned has at most N strings, no string twice,
    each containing the destination name.  The list is shorter than N only
    when all 10 N attempts were used.  [get_fallback_list] is the case
    N = 50. *)
Theorem generate_dynamic_fallback_bounded (destination : string) (N : nat) E s :
  exists fallbacks attempts n,
    fallback_loop (N * 10) destination N [] 0 E s =
      (Done (fallbacks, attempts), after_draws n s) /\
    generate_dynamic_fallback destination N E s =
      (Done (set_order E fallbacks), after_draws n s) /\
    attempts <= 10 * N /\ n <= 3 * attempts /\
    length (set_order E fallbacks) <= N /\
    NoDup (set_order E fallbacks) /\
    Forall (fun item => contains item destination) (set_order E fallbacks) /\
    (length (set_order E fallbacks) < N -> attempts = 10 * N) /\
    (N = 50 ->
     get_fallback_list destination E s = (Done (set_order E fallbacks), after_draws n s)).
Proof.
  destruct (@fallback_loop_Done destination N E (N * 10) [] 0 s
              ltac:(lia) ltac:(lia) (NoDup_nil _) ltac:(simpl; lia) (Forall_nil _))
    as (fb & att & n & Hrun & Hatt & Hn & Hnd & Hsyn & Hexit & _).
  pose proof (set_order_perm E fb) as Hperm.
  assert (Hgen : generate_dynamic_fallback destination N E s =
                 (Done (set_order E fb), after_draws n s)).
  { unfold generate_dynamic_fallback. bind_step Hrun. reflexivity. }
  exists fb, att, n.
  rewrite (Permutation_length Hperm).
  repeat split; try assumption; try lia.
  - eapply Permutation_NoDup; [symmetry; exact Hperm | assumption].
  - apply Forall_forall. intros item Hitem.
    apply synthetic_contains.
    eapply Forall_forall; [exact Hsyn |].
    eapply Permutation_in; eassumption.
  - intros ->. exact Hgen.
Qed.

(** ** The pool builder *)

Section PoolFacts.
Context {A : Type} {eqA : PyEq A}.
Hypothesis py_eq_spec : forall x y : A, py_eq x y = true <-> x = y.

Lemma dedup_into_NoDup (tasks : list A) :
  forall acc, NoDup acc -> NoDup (dedup_into acc tasks).
Proof.
  induction tasks as [| x tasks IH]; intros acc Hacc; simpl; [assumption |].
  apply IH. now apply append_new_NoDup.
Qed.

Lemma dedup_into_In (tasks : list A) :
  forall acc y, In y (dedup_into acc tasks) <-> In y acc \/ In y tasks.
Proof.
  induction tasks as [| x tasks IH]; intros acc y; simpl; [tauto |].
  rewrite IH, (append_new_In py_eq_spec). intuition congruence.
Qed.

Lemma dedup_NoDup (tasks : list A) : NoDup (dedup tasks).
Proof. apply dedup_into_NoDup. constructor. Qed.

Lemma dedup_In (tasks : list A) y : In y (dedup tasks) <-> In y tasks.
Proof. unfold dedup. rewrite dedup_into_In. simpl. tauto. Qed.

Lemma filter_filter (f g : A -> bool) l :
  filter f (filter g l) = filter (fun y => g y && f y) l.
Proof.
  induction l as [| x l IH]; simpl; [reflexivity |].
  destruct (g x); simpl; [destruct (f x) |]; now rewrite IH.
Qed.

Lemma dedup_into_first_occurrences (tasks : list A) :
  forall acc,
    dedup_into acc tasks =
    acc ++ filter (fun y => negb (py_in y acc)) (first_occurrences tasks).
Proof.
  induction tasks as [| x tasks IH]; intro acc; simpl.
  - now rewrite app_nil_r.
  - rewrite IH. unfold append_new.
    destruct (py_in x acc) eqn:Hx; simpl.
    + f_equal. rewrite filter_filter. apply filter_ext_in.
      intros y _. destruct (py_in y acc) eqn:Hy; [now rewrite andb_false_r |].
      destruct (py_eq x y) eqn:Hxy; [| reflexivity].
      apply py_eq_spec in Hxy. subst y. congruence.
    + rewrite <- app_assoc. simpl. do 2 f_equal.
      rewrite filter_filter. apply filter_ext_in.
      intros y _. unfold py_in. rewrite existsb_app. simpl.
      rewrite orb_false_r, negb_orb, andb_comm. f_equal. f_equal.
      destruct (py_eq y x) eqn:Hyx, (py_eq x y) eqn:Hxy; try reflexivity.
      * apply py_eq_spec in Hyx. subst y.
        rewrite (proj2 (py_eq_spec x x) eq_refl) in Hxy. discriminate.
      * apply py_eq_spec in Hxy. subst y.
        rewrite (proj2 (py_eq_spec x x) eq_refl) in Hyx. discriminate.
Qed.

(** The loop over the candidates keeps each at its first occurrence. *)
Lemma dedup_first_occurrences (tasks : list A) :
  dedup tasks = first_occurrences tasks.
Proof.
  unfold dedup. rewrite dedup_into_first_occurrences. simpl.
  induction (first_occurrences tasks) as [| y l IH]; simpl; congruence.
Qed.

Lemma dedup_idempotent (tasks : list A) : NoDup tasks -> dedup tasks = tasks.
Proof.
  intro Hnd. rewrite dedup_first_occurrences.
  induction Hnd as [| x l Hx Hnd IH]; simpl; [reflexivity |].
  rewrite IH. f_equal.
  rewrite <- (filter_ext_in (fun _ => true)).
  - clear. induction l as [| y l IH]; simpl; congruence.
  - intros y Hy. destruct (py_eq x y) eqn:Hxy; [| reflexivity].
    apply py_eq_spec in Hxy. subst y. contradiction.
Qed.

(** No list without repetition drawn from the candidates and the
    fallback items is longer than the deduplicated union. *)
Lemma union_bound (tasks fallback_list l : list A) :
  NoDup l -> incl l (dedup tasks ++ fallback_list) ->
  length l <= length (dedup (tasks ++ fallback_list)).
Proof.
  intros Hnd Hincl. apply NoDup_incl_length; [assumption |].
  intros y Hy. apply dedup_In. apply Hincl in Hy.
  rewrite in_app_iff in *. rewrite dedup_In in Hy. assumption.
Qed.

(** What the loop returns, whenever it returns. *)
Lemma top_up_Done_inv (fallback_list : list A) required E :
  forall fuel unique_tasks s pool s',
    top_up fuel fallback_list required unique_tasks E s = (Done pool, s') ->
    NoDup unique_tasks ->
    exists extra n,
      pool = unique_tasks ++ extra /\
      Forall (fun x => In x fallback_list) extra /\
      NoDup pool /\
      length pool = Nat.max required (length unique_tasks) /\
      s' = after_draws n s /\ n <= fuel.
Proof.
  induction fuel as [| fuel IH]; intros u s pool s' Hrun Hnd; simpl in Hrun;
    destruct (Nat.ltb_spec (length u) required) as [Hlt | Hge];
    try discriminate;
    try (injection Hrun as <- <-; exists [], 0;
         rewrite app_nil_r, after_draws_0;
         repeat split; try constructor; try assumption; lia).
  unfold randrange in Hrun.
  destruct (Nat.eqb_spec (length fallback_list) 0) as [Hz | Hnz];
    [discriminate |].
  bind_step_in (randbelow_Done (length fallback_list) E s) Hrun.
  destruct (subscript_Done fallback_list E (after_draws 1 s)
              (Nat.mod_upper_bound (draws E (drawn s)) _ Hnz))
    as (c & Hnth & Hsub).
  bind_step_in Hsub Hrun.
  apply IH in Hrun; [| now apply append_new_NoDup].
  destruct Hrun as (extra & n & -> & Hextra & Hndp & Hlen & -> & Hn).
  destruct (append_new_extends c u) as (e0 & He0 & Hcase).
  pose proof (append_new_length c u) as Hl.
  exists (e0 ++ extra), (1 + n).
  rewrite He0 in *. rewrite <- app_assoc in Hndp, Hlen.
  rewrite <- app_assoc, after_draws_add.
  repeat split; try assumption; try lia.
  apply Forall_app. split; [| assumption].
  destruct Hcase as [-> | ->]; repeat constructor.
  eapply nth_error_In; eassumption.
Qed.

(** More fuel does not change what the loop returns. *)
Lemma top_up_more_fuel (fallback_list : list A) required E :
  forall fuel fuel' unique_tasks s pool s',
    top_up fuel fallback_list required unique_tasks E s = (Done pool, s') ->
    fuel <= fuel' ->
    top_up fuel' fallback_list required unique_tasks E s = (Done pool, s').
Proof.
  induction fuel as [| fuel IH]; intros fuel' u s pool s' Hrun Hle;
    simpl in Hrun.
  - destruct fuel'; simpl; destruct (length u <? required);
      try discriminate; assumption.
  - destruct fuel' as [| fuel']; [lia |]. simpl.
    destruct (length u <? required); [| assumption].
    unfold bind in *.
    destruct (randrange (length fallback_list) E s) as [[i | e |] s1];
      try discriminate.
    destruct (subscript fallback_list i E s1) as [[c | e |] s2];
      try discriminate.
    apply IH with (fuel' := fuel') in Hrun; [assumption | lia].
Qed.

(** With too few distinct items in reach the loop never leaves. *)
Lemma top_up_stalls (fallback_list unique0 : list A) required E :
  fallback_list <> [] ->
  (forall l, NoDup l -> incl l (unique0 ++ fallback_list) -> length l < required) ->
  forall fuel unique_tasks s,
    NoDup unique_tasks -> incl unique_tasks (unique0 ++ fallback_list) ->
    fst (top_up fuel fallback_list required unique_tasks E s) = OutOfFuel.
Proof.
  intros Hne Hsmall.
  induction fuel as [| fuel IH]; intros u s Hnd Hincl; simpl;
    destruct (Nat.ltb_spec (length u) required) as [Hlt | Hge];
    try reflexivity;
    try (specialize (Hsmall u Hnd Hincl); lia).
  unfold randrange.
  destruct (Nat.eqb_spec (length fallback_list) 0) as [Hz | Hnz];
    [destruct fallback_list; [congruence | discriminate] |].
  bind_step (randbelow_Done (length fallback_list) E s).
  destruct (subscript_Done fallback_list E (after_draws 1 s)
              (Nat.mod_upper_bound (draws E (drawn s)) _ Hnz))
    as (c & Hnth & Hsub).
  bind_step Hsub.
  apply IH; [now apply append_new_NoDup |].
  intros y Hy. apply (append_new_In py_eq_spec) in Hy.
  destruct Hy as [Hy | ->]; [now apply Hincl |].
  apply in_or_app. right. eapply nth_error_In; eassumption.
Qed.

(** With an empty fallback list the first pass of the loop raises. *)
Lemma top_up_raises (required : nat) (unique_tasks : list A) fuel E s :
  length unique_tasks < required ->
  top_up (S fuel) [] required unique_tasks E s = (Raise ValueError, s).
Proof.
  intro Hlt. simpl.
  destruct (Nat.ltb_spec (length unique_tasks) required); [reflexivity | lia].
Qed.

(** With enough distinct items in reach, the loop returns once every
    position of the fallback list has been drawn. *)
Lemma top_up_returns (fallback_list : list A) required E :
  forall T unique_tasks s,
    NoDup unique_tasks ->
    (forall i, i < length fallback_list ->
       (exists t, t < T /\ draws E (drawn s + t) mod length fallback_list = i) \/
       (exists c, nth_error fallback_list i = Some c /\ In c unique_tasks)) ->
    (exists l, NoDup l /\ incl l (unique_tasks ++ fallback_list) /\
               required <= length l) ->
    exists pool s',
      top_up T fallback_list required unique_tasks E s = (Done pool, s').
Proof.
  induction T as [| T IH]; intros u s Hnd Hcov (l & Hl & Hincl & Hreq); simpl;
    destruct (Nat.ltb_spec (length u) required) as [Hlt | Hge];
    try (exists u, s; reflexivity).
  - exfalso.
    assert (Hlu : incl l u).
    { intros y Hy. apply Hincl in Hy. apply in_app_or in Hy.
      destruct Hy as [Hy | Hy]; [assumption |].
      apply In_nth_error in Hy. destruct Hy as (i & Hi).
      assert (Hlti : i < length fallback_list)
        by (apply nth_error_Some; congruence).
      destruct (Hcov i Hlti) as [(t & Ht & _) | (c & Hc & Hin)]; [lia |].
      congruence. }
    pose proof (NoDup_incl_length Hl Hlu). lia.
  - unfold randrange.
    destruct (Nat.eqb_spec (length fallback_list) 0) as [Hz | Hnz].
    + exfalso. destruct fallback_list; [| discriminate].
      rewrite app_nil_r in Hincl.
      pose proof (NoDup_incl_length Hl Hincl). lia.
    + bind_step (randbelow_Done (length fallback_list) E s).
      destruct (subscript_Done fallback_list E (after_draws 1 s)
                  (Nat.mod_upper_bound (draws E (drawn s)) _ Hnz))
        as (c & Hnth & Hsub).
      bind_step Hsub.
      apply IH.
      * now apply append_new_NoDup.
      * intros i Hi. destruct (Hcov i Hi) as [(t & Ht & Hdraw) | (c' & Hc' & Hin)].
        -- destruct t as [| t].
           ++ right. exists c. rewrite Nat.add_0_r in Hdraw. rewrite <- Hdraw.
              split; [assumption |].
              apply (append_new_In py_eq_spec). now right.
           ++ left. exists t. split; [lia |]. simpl.
              rewrite <- Hdraw. f_equal. f_equal. lia.
        -- right. exists c'. split; [assumption |].
           apply (append_new_In py_eq_spec). now left.
      * exists l. split; [assumption |]. split; [| assumption].
        intros y Hy. apply Hincl in Hy. rewrite in_app_iff in *.
        destruct Hy as [Hy | Hy]; [left | now right].
        apply (append_new_In py_eq_spec). now left.
Qed.
End PoolFacts.

(** What [create_global_pool] returns, whenever it returns, whatever the
    draws: the candidates at their first occurrences, then fallback items,
    nothing twice, [required] items unless the candidates alone were more. *)
Lemma create_global_pool_Done_inv (tasks fallback_list : list string)
    (destination : string) (required fuel : nat) E s pool s' :
  create_global_pool fuel tasks fallback_list destination required E s = (Done pool, s') ->
  exists extra n,
    pool = first_occurrences tasks ++ extra /\
    Forall (fun x => In x fallback_list) extra /\
    NoDup pool /\
    length pool = Nat.max required (length (first_occurrences tasks)) /\
    s' = after_draws n s /\ n <= fuel.
Proof.
  unfold create_global_pool. intro Hrun.
  apply (top_up_Done_inv string_eq_spec) in Hrun;
    [| apply (dedup_NoDup string_eq_spec)].
  now rewrite (dedup_first_occurrences string_eq_spec) in Hrun.
Qed.

Lemma create_global_pool_returns (tasks fallback_list : list string)
    (destination : string) (required T : nat) E s :
  required <= length (dedup (tasks ++ fallback_list)) ->
  covers E s T (length fallback_list) ->
  exists pool s',
    create_global_pool T tasks fallback_list destination required E s = (Done pool, s').
Proof.
  intros Henough Hcov. unfold create_global_pool.
  apply (top_up_returns string_eq_spec).
  - apply (dedup_NoDup string_eq_spec).
  - intros i Hi. left. now apply Hcov.
  - exists (dedup (tasks ++ fallback_list)).
    split; [apply (dedup_NoDup string_eq_spec) |]. split; [| assumption].
    intros y Hy. rewrite (dedup_In string_eq_spec) in Hy.
    rewrite in_app_iff in *. rewrite (dedup_In string_eq_spec). assumption.
Qed.

(** The two lemmas above put together. *)
Lemma create_global_pool_covered (tasks fallback_list : list string)
    (destination : string) (required T : nat) E s :
  required <= length (dedup (tasks ++ fallback_list)) ->
  covers E s T (length fallback_list) ->
  exists pool extra n,
    create_global_pool T tasks fallback_list destination required E s =
      (Done pool, after_draws n s) /\
    n <= T /\
    (forall fuel, T <= fuel ->
       create_global_pool fuel tasks fallback_list destination required E s =
         (Done pool, after_draws n s)) /\
    NoDup pool /\
    length pool = Nat.max required (length (first_occurrences tasks)) /\
    pool = first_occurrences tasks ++ extra /\
    Forall (fun x => In x fallback_list) extra.
Proof.
  intros Henough Hcov.
  destruct (@create_global_pool_returns tasks fallback_list destination
              required T E s Henough Hcov) as (pool & s' & Hrun).
  destruct (@create_global_pool_Done_inv _ _ _ _ _ _ _ _ _ Hrun)
    as (extra & n & Hpool & Hextra & Hnd & Hlen & -> & Hn).
  exists pool, extra, n. repeat split; try assumption.
  intros fuel Hfuel. unfold create_global_pool in *.
  eapply top_up_more_fuel; eassumption.
Qed.

(** C1 (amended): when the candidates and the fallback list hold at least
    [required] distinct strings between them, and the draws reach every
    position of the fallback list within [T] draws, [create_global_pool]
    returns, after at most [T] draws, a list without duplicates that starts
    with the candidates at their first occurrences, in order, and goes on
    with fallback items only.  Its length is [required] when the candidates
    hold at most [required] distinct strings, and the number of distinct
    candidates otherwise. *)
Theorem create_global_pool_spec (tasks fallback_list : list string)
    (destination : string) (required T : nat) E s :
  required <= length (dedup (tasks ++ fallback_list)) ->
  covers E s T (length fallback_list) ->
  exists pool extra n,
    create_global_pool T tasks fallback_list destination required E s =
      (Done pool, after_draws n s) /\
    n <= T /\
    (forall fuel, T <= fuel ->
       create_global_pool fuel tasks fallback_list destination required E s =
         (Done pool, after_draws n s)) /\
    NoDup pool /\
    length pool = Nat.max required (length (first_occurrences tasks)) /\
    pool = first_occurrences tasks ++ extra /\
    Forall (fun x => In x fallback_list) extra.
Proof.
  intros Henough Hcov. unfold create_global_pool.
  assert (Hnd : NoDup (dedup tasks)) by apply (dedup_NoDup string_eq_spec).
  destruct (@top_up_returns _ _ string_eq_spec fallback_list required E T
              (dedup tasks) s Hnd) as (pool & s' & Hrun).
  { intros i Hi. left. now apply Hcov. }
  { exists (dedup (tasks ++ fallback_list)).
    split; [apply (dedup_NoDup string_eq_spec) |]. split; [| assumption].
    intros y Hy. rewrite (dedup_In string_eq_spec) in Hy.
    rewrite in_app_iff in *. now rewrite (dedup_In string_eq_spec). }
  destruct (top_up_Done_inv string_eq_spec _ _ _ _ _ Hrun Hnd)
    as (extra & n & Hpool & Hextra & Hndp & Hlen & -> & Hn).
  rewrite (dedup_first_occurrences string_eq_spec) in *.
  exists pool, extra, n. repeat split; try assumption.
  intros fuel Hfuel. eapply top_up_more_fuel; eassumption.
Qed.

(** C2 (amended): the three ways the top-up loop of [create_global_pool]
    can go.  With a non-empty fallback list and fewer than [required]
    distinct strings among candidates and fallback items, the loop is still
    running after any number of passes, whatever is drawn.  With an empty
    fallback list and too few candidates, the first pass raises
    [ValueError].  With at least [required] distinct strings in reach, the
    loop returns once the draws have reached every position of the
    fallback list, with [required] items in the pool (or the distinct
    candidates, when these were more). *)
Theorem top_up_loop_outcomes (tasks fallback_list : list string)
    (destination : string) (required : nat) :
  (fallback_list <> [] ->
   length (dedup (tasks ++ fallback_list)) < required ->
   forall fuel E s,
     fst (create_global_pool fuel tasks fallback_list destination required E s)
     = OutOfFuel) /\
  (fallback_list = [] ->
   length (dedup tasks) < required ->
   forall fuel E s,
     create_global_pool (S fuel) tasks fallback_list destination required E s
     = (Raise ValueError, s)) /\
  (required <= length (dedup (tasks ++ fallback_list)) ->
   forall E s T,
     covers E s T (length fallback_list) ->
     exists pool n,
       n <= T /\
       (forall fuel, T <= fuel ->
          create_global_pool fuel tasks fallback_list destination required E s =
            (Done pool, after_draws n s)) /\
       length pool = Nat.max required (length (dedup tasks))).
Proof.
  split; [| split].
  - intros Hne Hfew fuel E s. unfold create_global_pool.
    apply (top_up_stalls string_eq_spec) with (unique0 := dedup tasks).
    + assumption.
    + intros l Hl Hincl.
      pose proof (@union_bound _ _ string_eq_spec tasks fallback_list l Hl Hincl).
      lia.
    + apply (dedup_NoDup string_eq_spec).
    + apply incl_appl, incl_refl.
  - intros -> Hfew fuel E s. unfold create_global_pool.
    now apply top_up_raises.
  - intros Henough E s T Hcov.
    destruct (@create_global_pool_covered tasks fallback_list destination
                required T E s Henough Hcov)
      as (pool & extra & n & _ & Hn & Hfuel & _ & Hlen & _).
    exists pool, n. repeat split; try assumption.
    now rewrite (dedup_first_occurrences string_eq_spec).
Qed.

(** A generator that draws every position of the fallback list sooner or
    later reaches them all within some number of draws, and the pool
    builder then returns. *)
Lemma fair_draws_cover (E : env) (s : state) (n : nat) :
  (forall i, i < n -> exists t, draws E (drawn s + t) mod n = i) ->
  exists T, covers E s T n.
Proof.
  intro Hfair. unfold covers.
  assert (Hupto : forall k, k <= n ->
            exists T, forall i, i < k ->
              exists t, t < T /\ draws E (drawn s + t) mod n = i).
  { induction k as [| k IH]; intro Hk.
    - exists 0. intros i Hi. lia.
    - destruct (IH ltac:(lia)) as (T & HT).
      destruct (Hfair k ltac:(lia)) as (t & Ht).
      exists (Nat.max T (S t)). intros i Hi.
      destruct (Nat.eq_dec i k) as [-> | Hne].
      + exists t. split; [lia | exact Ht].
      + destruct (HT i ltac:(lia)) as (t' & Ht' & Hdraw).
        exists t'. split; [lia | exact Hdraw]. }
  apply Hupto. lia.
Qed.

Lemma create_global_pool_fair (tasks fallback_list : list string)
    (destination : string) (required : nat) E s :
  required <= length (dedup (tasks ++ fallback_list)) ->
  (forall i, i < length fallback_list ->
     exists t, draws E (drawn s + t) mod length fallback_list = i) ->
  exists fuel pool s',
    create_global_pool fuel tasks fallback_list destination required E s =
      (Done pool, s').
Proof.
  intros Henough Hfair.
  destruct (fair_draws_cover E s Hfair) as (T & Hcov).
  exists T. eapply create_global_pool_returns; eassumption.
Qed.

(** C1, as stated, fails: with the candidates of the Goa preset and a
    one-day trip the pool keeps all sixteen candidates, though three were
    required. *)
Lemma create_global_pool_exceeds_required :
  exists base_points pool,
    dict_get preset_itineraries "Goa" = Some base_points /\
    create_global_pool 0 (base_points ++ extra_tasks_for "Goa")
      ["Relax in a scenic park in Goa"%string] "Goa" (1 * 3)
      counting_env initial_state = (Done pool, initial_state) /\
    1 * 3 <= length (dedup ((base_points ++ extra_tasks_for "Goa")
                              ++ ["Relax in a scenic park in Goa"%string])) /\
    length pool = 16 /\
    length pool <> 1 * 3.
Proof.
  eexists. eexists. split; [reflexivity |].
  split; [vm_compute; reflexivity |].
  split; [vm_compute; lia |].
  split; [reflexivity | discriminate].
Qed.

Lemma covers_counting (n : nat) : covers counting_env initial_state n n.
Proof.
  intros i Hi. exists i. split; [assumption |].
  simpl. now apply Nat.mod_small.
Qed.

Lemma create_global_pool_spec_witness :
  exists pool extra n,
    create_global_pool 3 ["a"; "b"; "a"]%string ["b"; "c"; "d"]%string "Goa" 4
      counting_env initial_state = (Done pool, after_draws n initial_state) /\
    n <= 3 /\
    (forall fuel, 3 <= fuel ->
       create_global_pool fuel ["a"; "b"; "a"]%string ["b"; "c"; "d"]%string "Goa" 4
         counting_env initial_state = (Done pool, after_draws n initial_state)) /\
    NoDup pool /\
    length pool = Nat.max 4 (length (first_occurrences ["a"; "b"; "a"]%string)) /\
    pool = first_occurrences ["a"; "b"; "a"]%string ++ extra /\
    Forall (fun x => In x ["b"; "c"; "d"]%string) extra.
Proof.
  apply (@create_global_pool_spec ["a"; "b"; "a"]%string ["b"; "c"; "d"]%string
           "Goa"%string 4 3 counting_env initial_state).
  - vm_compute. lia.
  - exact (@covers_counting 3).
Defined.

(** C2, as stated, fails: with an empty fallback list the loop does not run
    for ever, its first pass ends in [ValueError]. *)
Lemma top_up_empty_fallback_raises :
  length (dedup (@nil string ++ [])) < 1 /\
  create_global_pool 1 (@nil string) [] "Goa" 1 counting_env initial_state
  = (Raise ValueError, initial_state) /\
  fst (create_global_pool 1 (@nil string) [] "Goa" 1 counting_env initial_state)
  <> OutOfFuel.
Proof.
  split; [vm_compute; lia |]. split; [reflexivity | discriminate].
Qed.

Lemma top_up_loop_outcomes_witness :
  exists pool n,
    n <= 3 /\
    (forall fuel, 3 <= fuel ->
       create_global_pool fuel ["a"; "b"; "a"]%string ["b"; "c"; "d"]%string "Goa" 4
         counting_env initial_state = (Done pool, after_draws n initial_state)) /\
    length pool = Nat.max 4 (length (dedup ["a"; "b"; "a"]%string)).
Proof.
  apply (proj2 (proj2 (@top_up_loop_outcomes ["a"; "b"; "a"]%string
                         ["b"; "c"; "d"]%string "Goa"%string 4))).
  - vm_compute. lia.
  - exact (@covers_counting 3).
Defined.

(** The draws matter: a generator that always draws 0 keeps the loop on
    the first fallback item, though a second one is there. *)
Lemma top_up_stuck_draws :
  2 <= length (dedup (@nil string ++ ["a"; "b"]%string)) /\
  forall fuel s,
    fst (create_global_pool fuel [] ["a"; "b"]%string "Goa" 2 stuck_env s) = OutOfFuel.
Proof.
  split; [vm_compute; lia |].
  assert (Hstuck : forall fuel s,
             fst (top_up fuel ["a"; "b"]%string 2 ["a"%string] stuck_env s) = OutOfFuel).
  { induction fuel as [| fuel IH]; intro s; [reflexivity |].
    simpl. unfold bind. simpl. apply IH. }
  intros [| fuel] s; [reflexivity |].
  unfold create_global_pool. simpl. unfold bind. simpl. apply Hstuck.
Qed.

(** ** The day sampler *)

Lemma firstn_S_nth_error {A} (l : list A) :
  forall i y, nth_error l i = Some y -> firstn (S i) l = firstn i l ++ [y].
Proof.
  induction l as [| a l IH]; intros [| i] y Hy; simpl in *; try discriminate.
  - now injection Hy as ->.
  - f_equal. now apply IH.
Qed.

(** One pass of the loop of [random.sample]: the item drawn and the items
    left unselected are the unselected items of before. *)
Lemma sample_step_Permutation {A} (pool : list A) :
  forall j m x y,
    j < m ->
    nth_error pool j = Some x ->
    nth_error pool (m - 1) = Some y ->
    Permutation (firstn m pool)
                (x :: firstn (m - 1) (firstn j pool ++ y :: skipn (S j) pool)).
Proof.
  induction pool as [| a pool IH]; intros j m x y Hj Hx Hy.
  - destruct j; discriminate.
  - destruct m as [| m]; [lia |].
    replace (S m - 1) with m in * by lia.
    destruct j as [| j]; simpl in Hx.
    + injection Hx as ->. cbn [firstn skipn app].
      destruct m as [| m]; [reflexivity |].
      simpl in Hy. apply perm_skip.
      rewrite (firstn_S_nth_error _ _ Hy). cbn [firstn].
      symmetry. apply Permutation_cons_append.
    + destruct m as [| m]; [lia |]. simpl in Hy.
      cbn [firstn skipn app].
      specialize (IH j (S m) x y ltac:(lia) Hx).
      replace (S m - 1) with m in IH by lia.
      specialize (IH Hy).
      etransitivity; [apply perm_skip; exact IH |]. apply perm_swap.
Qed.

Lemma sample_loop_Done {A} E :
  forall k (pool : list A) m s,
    k <= m -> m <= length pool ->
    exists result rest,
      sample_loop k pool m E s = (Done result, after_draws k s) /\
      length result = k /\
      Permutation (firstn m pool) (result ++ rest).
Proof.
  induction k as [| k IH]; intros pool m s Hk Hm.
  - exists [], (firstn m pool). simpl. rewrite after_draws_0.
    repeat split; reflexivity.
  - simpl.
    set (j := draws E (drawn s) mod m).
    assert (Hj : j < m) by (apply Nat.mod_upper_bound; lia).
    bind_step (randbelow_Done m E s). fold j.
    destruct (subscript_Done pool E (after_draws 1 s) (i := j) ltac:(lia))
      as (x & Hx & Hsx).
    destruct (subscript_Done pool E (after_draws 1 s) (i := m - 1) ltac:(lia))
      as (y & Hy & Hsy).
    bind_step Hsx. bind_step Hsy.
    unfold assign at 1.
    destruct (Nat.ltb_spec j (length pool)) as [_ | Hbad]; [| lia].
    set (pool' := firstn j pool ++ y :: skipn (S j) pool).
    assert (Hlen' : length pool' = length pool).
    { unfold pool'. rewrite length_app, length_firstn. cbn [length].
      rewrite length_skipn. lia. }
    destruct (IH pool' (m - 1) (after_draws 1 s) ltac:(lia) ltac:(lia))
      as (result & rest & Hrun & Hlen & Hperm).
    rewrite after_draws_add in Hrun.
    exists (x :: result), rest.
    split; [| split].
    + assert (Hret : ret pool' E (after_draws 1 s) = (Done pool', after_draws 1 s))
        by reflexivity.
      bind_step Hret. bind_step Hrun. reflexivity.
    + simpl. now rewrite Hlen.
    + etransitivity; [exact (sample_step_Permutation pool Hj Hx Hy) |].
      simpl. now apply perm_skip.
Qed.

(** *** The set-size threshold *)

Lemma pow4_at_least_ge :
  forall fuel p x, 1 <= p -> x <= p + fuel -> x <= pow4_at_least fuel p x.
Proof.
  induction fuel as [| fuel IH]; intros p x Hp Hx; cbn [pow4_at_least];
    destruct (Nat.leb_spec x p) as [Hle | Hgt]; try lia.
  apply IH; lia.
Qed.

(** A population of up to 21 items is always copied, and so is one of
    exactly [k] items. *)
Lemma setsize_at_least (k : nat) : 21 <= setsize k /\ k <= setsize k.
Proof.
  unfold setsize. destruct (Nat.ltb_spec 5 k) as [Hk | Hk]; [| lia].
  pose proof (@pow4_at_least_ge (3 * k) 1 (3 * k) ltac:(lia) ltac:(lia)). lia.
Qed.

Example setsize_values :
  setsize 3 = 21 /\ setsize 5 = 21 /\ setsize 6 = 85 /\ setsize 21 = 85 /\
  setsize 22 = 277 /\ setsize 150 = 1045.
Proof. repeat split; reflexivity. Qed.

(** *** Drawing from a copy *)

(** On a population it copies, [random.sample] makes [k] draws and returns
    [k] items standing at [k] different places of the population. *)
Lemma random_sample_Done {A} fuel (population : list A) k E s :
  k <= length population ->
  length population <= setsize k ->
  exists sampled rest,
    random_sample fuel population k E s = (Done sampled, after_draws k s) /\
    length sampled = k /\
    Permutation population (sampled ++ rest).
Proof.
  intros Hk Hsmall. unfold random_sample.
  destruct (Nat.ltb_spec (length population) k) as [Hbad | _]; [lia |].
  destruct (Nat.leb_spec (length population) (setsize k)) as [_ | Hbad]; [| lia].
  destruct (@sample_loop_Done A E k population (length population) s Hk (le_n _))
    as (sampled & rest & Hrun & Hlen & Hperm).
  rewrite firstn_all in Hperm. now exists sampled, rest.
Qed.

Lemma random_sample_Raise {A} fuel (population : list A) k E s :
  length population < k ->
  random_sample fuel population k E s = (Raise ValueError, s).
Proof.
  intro Hk. unfold random_sample.
  now destruct (Nat.ltb_spec (length population) k) as [_ | Hbad]; [| lia].
Qed.

(** *** Drawing positions by rejection *)

Lemma selected_spec (j : nat) (selected : list nat) :
  existsb (Nat.eqb j) selected = true <-> In j selected.
Proof.
  rewrite existsb_exists. split.
  - intros (x & Hin & Heq). apply Nat.eqb_eq in Heq. now subst x.
  - intro Hin. exists j. split; [assumption | apply Nat.eqb_refl].
Qed.

(** The redrawing loop.  It returns a position that is not selected: [j]
    itself without a draw, or the first unselected position drawn.  It is
    still running when the fuel ends only if [j] and every position drawn
    meanwhile were selected ones. *)
Lemma redraw_outcome (n : nat) (selected : list nat) E :
  forall fuel j s,
    (exists j' m,
        redraw fuel n selected j E s = (Done j', after_draws m s) /\
        ~ In j' selected /\
        m <= fuel /\
        (forall t, t + 1 < m -> In (draws E (drawn s + t) mod n) selected) /\
        (m = 0 /\ j' = j \/
         0 < m /\ In j selected /\ j' = draws E (drawn s + (m - 1)) mod n)) \/
    (redraw fuel n selected j E s = (OutOfFuel, after_draws fuel s) /\
     In j selected /\
     forall t, t < fuel -> In (draws E (drawn s + t) mod n) selected).
Proof.
  induction fuel as [| fuel IH]; intros j s; cbn [redraw];
    destruct (existsb (Nat.eqb j) selected) eqn:Hsel.
  - right. apply selected_spec in Hsel. rewrite after_draws_0.
    split; [reflexivity | split; [assumption | intros t Ht; lia]].
  - left. exists j, 0. rewrite after_draws_0.
    split; [reflexivity |].
    split; [intro Hin; apply selected_spec in Hin; congruence |].
    split; [lia |]. split; [intros t Ht; lia | left; now split].
  - apply selected_spec in Hsel.
    bind_step (randbelow_Done n E s).
    destruct (IH (draws E (drawn s) mod n) (after_draws 1 s))
      as [(j' & m & Hrun & Hfresh & Hm & Hrejected & Hlast)
         | (Hrun & Hfirst & Hrejected)].
    + left. exists j', (1 + m). rewrite after_draws_add in Hrun.
      split; [exact Hrun |]. split; [exact Hfresh |]. split; [lia |].
      split.
      * intros [| t] Ht.
        -- rewrite Nat.add_0_r.
           destruct Hlast as [(-> & _) | (_ & Hin & _)]; [lia | exact Hin].
        -- specialize (Hrejected t ltac:(lia)). cbn [drawn after_draws] in Hrejected.
           now replace (drawn s + S t) with (drawn s + 1 + t) by lia.
      * right. split; [lia |]. split; [exact Hsel |].
        destruct Hlast as [(-> & ->) | (Hpos & _ & ->)].
        -- now rewrite Nat.add_0_r.
        -- cbn [drawn after_draws]. f_equal. f_equal. lia.
    + right. rewrite after_draws_add in Hrun.
      split; [exact Hrun |]. split; [exact Hsel |].
      intros [| t] Ht.
      * now rewrite Nat.add_0_r.
      * specialize (Hrejected t ltac:(lia)). cbn [drawn after_draws] in Hrejected.
        now replace (drawn s + S t) with (drawn s + 1 + t) by lia.
  - left. exists j, 0. rewrite after_draws_0.
    split; [reflexivity |].
    split; [intro Hin; apply selected_spec in Hin; congruence |].
    split; [lia |]. split; [intros t Ht; lia | left; now split].
Qed.

(** The sampling loop over positions.  When it returns, it has taken the
    items at [k] different positions, none of them selected before, every
    position drawn on the way was one of these or selected before, and the
    last draw gave a position not drawn before.  When the fuel ends, the
    positions drawn so far and the next [fuel] ones all belong to fewer
    than [k] positions besides the selected ones. *)
Lemma sample_by_rejection_outcome {A} (population : list A) (fuel : nat) E :
  0 < length population ->
  forall k selected s,
    (exists sampled positions m,
        sample_by_rejection fuel population (length population) k selected E s =
          (Done sampled, after_draws m s) /\
        length positions = k /\
        NoDup positions /\
        (forall j, In j positions -> ~ In j selected) /\
        Forall2 (fun j x => nth_error population j = Some x) positions sampled /\
        k <= m /\
        (forall t, t < m ->
           In (draws E (drawn s + t) mod length population) (positions ++ selected)) /\
        (0 < k ->
         0 < m /\
         In (draws E (drawn s + (m - 1)) mod length population) positions /\
         forall t, t < m - 1 ->
           draws E (drawn s + t) mod length population <>
           draws E (drawn s + (m - 1)) mod length population)) \/
    (exists m chosen,
        sample_by_rejection fuel population (length population) k selected E s =
          (OutOfFuel, after_draws m s) /\
        length chosen < k /\
        forall t, t < fuel ->
          In (draws E (drawn s + t) mod length population) (chosen ++ selected)).
Proof.
  intro Hn. set (n := length population).
  induction k as [| k IH]; intros selected s; cbn [sample_by_rejection].
  - left. exists [], [], 0. rewrite after_draws_0.
    split; [reflexivity |]. split; [reflexivity |]. split; [constructor |].
    split; [intros j [] |]. split; [constructor |]. split; [lia |].
    split; intros; lia.
  - bind_step (randbelow_Done n E s).
    set (j0 := draws E (drawn s) mod n).
    destruct (@redraw_outcome n selected E fuel j0 (after_draws 1 s))
      as [(j & m1 & Hrun & Hfresh & Hm1 & Hrejected & Hlast)
         | (Hrun & Hfirst & Hrejected)].
    + rewrite after_draws_add in Hrun. bind_step Hrun.
      assert (Hj : j < n).
      { destruct Hlast as [(_ & ->) | (_ & _ & ->)];
          apply Nat.mod_upper_bound; lia. }
      destruct (subscript_Done population E (after_draws (1 + m1) s) (i := j) Hj)
        as (x & Hx & Hsx).
      bind_step Hsx.
      assert (Hbefore : forall t, t < 1 + m1 ->
                 In (draws E (drawn s + t) mod n) (j :: selected)).
      { intros t Ht.
        destruct Hlast as [(-> & ->) | (Hpos & Hin & ->)].
        - replace t with 0 by lia. rewrite Nat.add_0_r. now left.
        - destruct (Nat.eq_dec t m1) as [-> | Hne].
          + left. cbn [drawn after_draws].
            f_equal. f_equal. lia.
          + right. destruct t as [| t]; [now rewrite Nat.add_0_r |].
            specialize (Hrejected t ltac:(lia)). cbn [drawn after_draws] in Hrejected.
            now replace (drawn s + S t) with (drawn s + 1 + t) by lia. }
      assert (Haccepted : draws E (drawn s + m1) mod n = j /\
                 forall t, t < m1 -> draws E (drawn s + t) mod n <> j).
      { destruct Hlast as [(-> & ->) | (Hpos & Hin & ->)].
        - split; [now rewrite Nat.add_0_r | intros t Ht; lia].
        - split; [cbn [drawn after_draws]; f_equal; f_equal; lia |].
          intros t Ht Heq. apply Hfresh. rewrite <- Heq.
          destruct t as [| t]; [now rewrite Nat.add_0_r |].
          specialize (Hrejected t ltac:(lia)). cbn [drawn after_draws] in Hrejected.
          now replace (drawn s + S t) with (drawn s + 1 + t) by lia. }
      destruct (IH (j :: selected) (after_draws (1 + m1) s))
        as [(sampled & positions & m & Hrest & Hlen & Hnd & Hnew & Hitems & Hk & Hdrawn
             & Hend)
           | (m2 & chosen & Hrest & Hlen & Hdrawn)].
      * rewrite after_draws_add in Hrest. bind_step Hrest.
        left. exists (x :: sampled), (j :: positions), (1 + m1 + m).
        split; [reflexivity |]. split; [cbn; now rewrite Hlen |].
        split.
        { constructor; [| exact Hnd]. intro Hin. apply (Hnew j Hin). now left. }
        split.
        { intros j' [<- | Hin]; [exact Hfresh |].
          intro Hsel. apply (Hnew j' Hin). now right. }
        split; [constructor; assumption |]. split; [lia |].
        split.
        { intros t Ht. destruct (Nat.lt_ge_cases t (1 + m1)) as [Hlt | Hge].
          - destruct (Hbefore t Hlt) as [<- | Hin]; [now left |].
            right. apply in_or_app. now right.
          - specialize (Hdrawn (t - (1 + m1)) ltac:(lia)).
            cbn [drawn after_draws] in Hdrawn.
            replace (drawn s + (1 + m1) + (t - (1 + m1))) with (drawn s + t)
              in Hdrawn by lia.
            apply in_app_or in Hdrawn. destruct Hdrawn as [Hin | [<- | Hin]].
            + right. apply in_or_app. now left.
            + now left.
            + right. apply in_or_app. now right. }
        intros _. split; [lia |].
        destruct k as [| k].
        { destruct positions; [| discriminate].
          assert (m = 0).
          { destruct m as [| m]; [reflexivity |].
            specialize (Hdrawn 0 ltac:(lia)). cbn [app] in Hdrawn.
            cbn [drawn after_draws] in Hdrawn. rewrite Nat.add_0_r in Hdrawn.
            exfalso. cbn [sample_by_rejection] in Hrest. unfold ret in Hrest.
            injection Hrest as _ Hstate. lia. }
          subst m.
          replace (1 + m1 + 0 - 1) with m1 by lia.
          destruct Haccepted as (-> & Hfirst).
          split; [now left | exact Hfirst]. }
        destruct (Hend ltac:(lia)) as (Hm & Hin & Hfirst).
        cbn [drawn after_draws] in Hin, Hfirst.
        replace (drawn s + (1 + m1) + (m - 1)) with (drawn s + (1 + m1 + m - 1))
          in Hin, Hfirst by lia.
        split; [now right |].
        intros t Ht. destruct (Nat.lt_ge_cases t (1 + m1)) as [Hlt | Hge].
        -- intro Heq. apply (Hnew _ Hin). rewrite <- Heq. now apply Hbefore.
        -- specialize (Hfirst (t - (1 + m1)) ltac:(lia)).
           now replace (drawn s + (1 + m1) + (t - (1 + m1))) with (drawn s + t)
             in Hfirst by lia.
      * bind_out Hrest.
        right. exists (1 + m1 + m2), (chosen ++ [j]).
        split; [now rewrite after_draws_add |].
        split; [rewrite length_app; cbn; lia |].
        intros t Ht. destruct (Nat.lt_ge_cases t (1 + m1)) as [Hlt | Hge].
        -- rewrite <- app_assoc. apply in_or_app. right. now apply Hbefore.
        -- rewrite <- app_assoc. cbn [app].
           destruct (Nat.lt_ge_cases (t - (1 + m1)) fuel) as [Hin | Hout]; [| lia].
           specialize (Hdrawn _ Hin). cbn [drawn after_draws] in Hdrawn.
           now replace (drawn s + (1 + m1) + (t - (1 + m1))) with (drawn s + t)
             in Hdrawn by lia.
    + bind_out Hrun.
      right. exists (1 + fuel), [].
      split; [now rewrite after_draws_add |].
      split; [cbn; lia |].
      intros t Ht. cbn [app].
      destruct t as [| t]; [now rewrite Nat.add_0_r |].
      specialize (Hrejected t ltac:(lia)). cbn [drawn after_draws] in Hrejected.
      now replace (drawn s + S t) with (drawn s + 1 + t) by lia.
Qed.

(** Items taken at different positions of a list leave the others over. *)
Lemma seq_split (positions : list nat) :
  forall all, NoDup positions -> incl positions all ->
    exists others, Permutation all (positions ++ others).
Proof.
  induction positions as [| j positions IH]; intros all Hnd Hincl.
  - now exists all.
  - inversion Hnd as [| ? ? Hnew Hnd']; subst.
    destruct (in_split j all (Hincl j (or_introl eq_refl))) as (l1 & l2 & ->).
    destruct (IH (l1 ++ l2) Hnd') as (others & Hperm).
    { intros i Hi. specialize (Hincl i (or_intror Hi)).
      apply in_app_or in Hincl. apply in_or_app.
      destruct Hincl as [Hin | [<- | Hin]]; [now left | contradiction | now right]. }
    exists others. cbn [app]. etransitivity.
    + symmetry. apply Permutation_middle.
    + now apply perm_skip.
Qed.

Lemma map_nth_seq {A} (d : A) (l : list A) :
  map (fun j => nth j l d) (seq 0 (length l)) = l.
Proof.
  induction l as [| a l IH]; [reflexivity |].
  cbn [length seq map nth]. f_equal.
  rewrite <- seq_shift, map_map. exact IH.
Qed.

Lemma picked_Permutation {A} (l : list A) (positions : list nat) (sampled : list A) :
  NoDup positions ->
  Forall2 (fun j x => nth_error l j = Some x) positions sampled ->
  length sampled = length positions /\
  exists rest, Permutation l (sampled ++ rest).
Proof.
  intros Hnd Hitems. split.
  { symmetry. eapply Forall2_length; exact Hitems. }
  destruct l as [| d l'] eqn:Hl.
  { inversion Hitems as [| j x ? ? Hx]; subst; [now exists [] |].
    destruct j; discriminate. }
  rewrite <- Hl in *. clear Hl l'.
  destruct (@seq_split positions (seq 0 (length l)) Hnd) as (others & Hperm).
  { intros j Hj. apply in_seq. split; [lia |]. cbn.
    clear Hnd. induction Hitems as [| j' x ? ? Hx _ IH]; [contradiction |].
    destruct Hj as [-> | Hj]; [| now apply IH].
    apply nth_error_Some. congruence. }
  exists (map (fun j => nth j l d) others).
  apply (Permutation_map (fun j => nth j l d)) in Hperm.
  rewrite map_nth_seq, map_app in Hperm.
  replace (map (fun j => nth j l d) positions) with sampled in Hperm; [exact Hperm |].
  clear Hnd Hperm. induction Hitems as [| j x ? ? Hx _ IH]; [reflexivity |].
  cbn [map]. f_equal; [| exact IH].
  symmetry. now apply nth_error_nth.
Qed.

(** Every position below [n] is one of fewer than [n] positions: never. *)
Lemma positions_exhausted (n : nat) (chosen : list nat) :
  (forall i, i < n -> In i chosen) -> n <= length chosen.
Proof.
  intro Hall. transitivity (length (seq 0 n)); [now rewrite length_seq |].
  apply NoDup_incl_length; [apply seq_NoDup |].
  intros i Hi. apply in_seq in Hi. apply Hall. lia.
Qed.

(** [random.sample], whatever the size of the population: it never raises
    when the population has [k] items; when it returns, it returns [k] items
    standing at [k] different places; it returns after [k] draws on a
    population it copies, and on a larger one as soon as [k] different
    positions were drawn, which they are within [T] draws when every
    position is drawn among them and the fuel allows [T] redraws. *)
Lemma random_sample_outcome {A} (fuel : nat) (population : list A) k E s :
  k <= length population ->
  (exists sampled rest m,
      random_sample fuel population k E s = (Done sampled, after_draws m s) /\
      length sampled = k /\
      Permutation population (sampled ++ rest) /\
      k <= m /\
      (length population <= setsize k -> m = k) /\
      (forall T, covers E s T (length population) -> 0 < k -> m <= T)) \/
  (exists m,
      random_sample fuel population k E s = (OutOfFuel, after_draws m s) /\
      setsize k < length population /\
      forall T, covers E s T (length population) -> fuel < T).
Proof.
  intro Hk.
  destruct (Nat.le_gt_cases (length population) (setsize k)) as [Hsmall | Hlarge].
  - destruct (@random_sample_Done A fuel population k E s Hk Hsmall)
      as (sampled & rest & Hrun & Hlen & Hperm).
    left. exists sampled, rest, k.
    split; [exact Hrun |]. split; [exact Hlen |]. split; [exact Hperm |].
    split; [lia |]. split; [reflexivity |].
    intros T Hcover Hpos.
    (* a covering window has a draw for every position *)
    destruct (Nat.le_gt_cases k T) as [Hle | Hgt]; [exact Hle | exfalso].
    assert (Hall : forall i, i < length population ->
               In i (map (fun t => draws E (drawn s + t) mod length population)
                         (seq 0 T))).
    { intros i Hi. destruct (Hcover i Hi) as (t & Ht & <-).
      apply in_map_iff. exists t. split; [reflexivity |]. apply in_seq. lia. }
    apply positions_exhausted in Hall. rewrite length_map, length_seq in Hall. lia.
  - assert (Hn : 0 < length population) by lia.
    assert (Hcode : random_sample fuel population k E s =
                    sample_by_rejection fuel population (length population) k [] E s).
    { unfold random_sample.
      destruct (Nat.ltb_spec (length population) k) as [Hbad | _]; [lia |].
      destruct (Nat.leb_spec (length population) (setsize k)) as [Hbad | _]; [lia |].
      reflexivity. }
    rewrite Hcode.
    destruct (@sample_by_rejection_outcome A population fuel E Hn k [] s)
      as [(sampled & positions & m & Hrun & Hlen & Hnd & _ & Hitems & Hm & _ & Hend)
         | (m & chosen & Hrun & Hlen & Hdrawn)].
    + destruct (@picked_Permutation A population positions sampled Hnd Hitems)
        as (Hsame & rest & Hperm).
      left. exists sampled, rest, m.
      split; [exact Hrun |]. split; [lia |]. split; [exact Hperm |].
      split; [exact Hm |]. split; [lia |].
      intros T Hcover Hpos.
      destruct (Hend Hpos) as (Hm0 & _ & Hfirst).
      destruct (Hcover (draws E (drawn s + (m - 1)) mod length population))
        as (t & Ht & Heq); [apply Nat.mod_upper_bound; lia |].
      destruct (Nat.lt_ge_cases t (m - 1)) as [Hlt | Hge]; [| lia].
      exfalso. exact (Hfirst t Hlt Heq).
    + right. exists m. split; [exact Hrun |]. split; [exact Hlarge |].
      intros T Hcover.
      destruct (Nat.lt_ge_cases fuel T) as [Hlt | Hge]; [exact Hlt | exfalso].
      assert (Hall : forall i, i < length population -> In i chosen).
      { intros i Hi. destruct (Hcover i Hi) as (t & Ht & <-).
        specialize (Hdrawn t ltac:(lia)). now rewrite app_nil_r in Hdrawn. }
      apply positions_exhausted in Hall. lia.
Qed.

Lemma slice_length {A} (l : list A) a b :
  b <= length l -> length (slice l a b) = b - a.
Proof.
  intro Hb. unfold slice. rewrite length_firstn, length_skipn. lia.
Qed.

(** Consecutive slices of width [t] put together give the list back. *)
Lemma concat_slices {A} t :
  forall days (l : list A),
    length l = days * t ->
    concat (map (fun i => slice l (i * t) ((i + 1) * t)) (seq 0 days)) = l.
Proof.
  induction days as [| days IH]; intros l Hlen.
  - destruct l; [reflexivity | discriminate].
  - cbn [seq map concat]. rewrite <- seq_shift, map_map.
    transitivity (firstn t l ++ skipn t l); [| apply firstn_skipn]. f_equal.
    + unfold slice. simpl. f_equal. lia.
    + rewrite <- (IH (skipn t l)) at 1.
      * f_equal. apply map_ext. intro i. unfold slice.
        rewrite skipn_skipn. f_equal; [lia | f_equal; lia].
      * rewrite length_skipn. simpl in Hlen. lia.
Qed.

(** *** The day groups *)

(** The shape of the groups cut from [days * 3] sampled items. *)
Lemma groups_of_three {A} (sampled : list A) (D : nat) :
  length sampled = D * 3 ->
  let groups := map (fun i => slice sampled (i * 3) ((i + 1) * 3)) (seq 0 D) in
  length groups = D /\
  Forall (fun group => length group = 3) groups /\
  (forall i, i < D ->
     nth_error groups i = Some (slice sampled (i * 3) ((i + 1) * 3))) /\
  concat groups = sampled.
Proof.
  intros Hlen groups.
  split; [unfold groups; now rewrite length_map, length_seq |].
  split.
  { apply Forall_forall. intros group Hin. unfold groups in Hin.
    apply in_map_iff in Hin. destruct Hin as (i & <- & Hi).
    apply in_seq in Hi. rewrite slice_length; lia. }
  split.
  { intros i Hi. unfold groups.
    rewrite nth_error_map, nth_error_nth' with (d := 0)
      by (rewrite length_seq; exact Hi).
    rewrite seq_nth by exact Hi. reflexivity. }
  apply concat_slices; exact Hlen.
Qed.






(** ** The annotations *)

Lemma append_last_app (x : pyval) (d : day) E s :
  forall pre,
    append_last x (pre ++ [d]) E s =
    (Done (pre ++ [with_activities d (Activities d ++ [x])]), s).
Proof.
  induction pre as [| d0 pre IH]; [reflexivity |].
  cbn [app append_last]. destruct (pre ++ [d]) as [| d1 rest] eqn:Hrest.
  - destruct pre; discriminate.
  - bind_step IH. reflexivity.
Qed.

(** On the same pool a generator that draws every number twice has two
    positions redrawn: the three items are there after five draws, not
    three; one that never repeats needs no fuel at all. *)
Example sampling_with_redraws :
  generate_groups_from_global_pool 1 twenty_two_places 1 3 halving_env initial_state =
    (Done [["a"; "b"; "c"]%string], after_draws 5 initial_state) /\
  generate_groups_from_global_pool 0 twenty_two_places 1 3 counting_env initial_state =
    (Done [["a"; "b"; "c"]%string], after_draws 3 initial_state) /\
  generate_groups_from_global_pool 0 twenty_two_places 1 3 halving_env initial_state =
    (OutOfFuel, after_draws 2 initial_state).
Proof. repeat split; vm_compute; reflexivity. Qed.

(** *** Text: characters, whitespace and case *)

(** "Lé€" followed by U+1F600 is four characters in ten bytes. *)
Example code_points_of_text :
  code_points (bytes [76; 195; 169; 226; 130; 172; 240; 159; 152; 128]) =
    [ bytes [76]; bytes [195; 169]; bytes [226; 130; 172];
      bytes [240; 159; 152; 128] ] /\
  code_points "Lima" = ["L"; "i"; "m"; "a"]%string /\
  strip (bytes [32; 194; 160; 76; 105; 109; 97; 9; 227; 128; 128]) = "Lima"%string /\
  strip " New York "%string = "New York"%string.
Proof. repeat split; reflexivity. Qed.

Lemma code_points_nonempty (s : string) :
  forall c, In c (code_points s) -> c <> EmptyString.
Proof.
  induction s as [| a s IH]; intros c Hin; [contradiction |].
  cbn [code_points] in Hin.
  destruct (code_points s) as [| cp cps].
  - destruct Hin as [<- | []]. discriminate.
  - destruct (continues cp).
    + destruct Hin as [<- | Hin]; [discriminate |].
      apply IH. now right.
    + destruct Hin as [<- | Hin]; [discriminate |]. now apply IH.
Qed.

(** A [str] of ASCII characters has one character for each byte. *)
Lemma code_points_ascii (s : string) :
  is_ascii s = true ->
  code_points s = map (fun c => String c EmptyString) (list_ascii_of_string s).
Proof.
  unfold is_ascii. induction s as [| a s IH]; intro Hs; [reflexivity |].
  cbn [list_ascii_of_string forallb] in Hs. apply andb_true_iff in Hs.
  destruct Hs as (_ & Hs). cbn [code_points list_ascii_of_string map].
  rewrite (IH Hs). destruct s as [| b s]; [reflexivity |].
  cbn [list_ascii_of_string map continues].
  cbn [list_ascii_of_string forallb] in Hs. apply andb_true_iff in Hs.
  destruct Hs as (Hb & _). unfold is_ascii_byte in Hb. apply Nat.ltb_lt in Hb.
  unfold is_continuation.
  destruct (Nat.leb_spec 128 (nat_of_ascii b)) as [Hbad | _]; [lia | reflexivity].
Qed.

(** Among the one-byte characters, whitespace is 9 to 13 and 28 to 32. *)
Lemma is_space_byte (c : ascii) :
  is_space (String c EmptyString) =
  ((9 <=? nat_of_ascii c) && (nat_of_ascii c <=? 13)
   || (28 <=? nat_of_ascii c) && (nat_of_ascii c <=? 32))%bool.
Proof. destruct c as [[] [] [] [] [] [] [] []]; reflexivity. Qed.

Lemma blank_character_spec (c : ascii) :
  is_space (String c EmptyString) = true <-> blank_character c.
Proof.
  rewrite is_space_byte. unfold blank_character.
  rewrite orb_true_iff, !andb_true_iff, !Nat.leb_le. reflexivity.
Qed.

Lemma lstrip_In (cps : list string) :
  forall c, In c (lstrip cps) -> In c cps.
Proof.
  induction cps as [| a cps IH]; intros c Hin; [contradiction |].
  cbn [lstrip] in Hin. destruct (is_space a); [right; now apply IH | exact Hin].
Qed.

Lemma lstrip_keeps (cps : list string) :
  forall c, In c cps -> is_space c = false -> In c (lstrip cps).
Proof.
  induction cps as [| a cps IH]; intros c Hin Hc; [contradiction |].
  cbn [lstrip]. destruct (is_space a) eqn:Ha; [| exact Hin].
  destruct Hin as [-> | Hin]; [congruence | now apply IH].
Qed.

Lemma lstrip_head (cps : list string) :
  forall c rest, lstrip cps = c :: rest -> is_space c = false.
Proof.
  induction cps as [| a cps IH]; intros c rest Heq; [discriminate |].
  cbn [lstrip] in Heq. destruct (is_space a) eqn:Ha; [now apply (IH c rest) |].
  now injection Heq as <- _.
Qed.

Lemma concat_nonempty (cps : list string) :
  (forall c, In c cps -> c <> EmptyString) ->
  (String.concat ""%string cps = EmptyString <-> cps = []).
Proof.
  intro Hne. split; [| intros ->; reflexivity].
  destruct cps as [| c cps]; [reflexivity |]. intro Heq. exfalso.
  specialize (Hne c (or_introl eq_refl)).
  destruct c as [| a c]; [now apply Hne |].
  cbn [String.concat] in Heq. destruct cps; discriminate.
Qed.

(** [s.strip()] is non-empty exactly when [s] has a character that is not
    whitespace. *)
Lemma strip_truthy (s : string) :
  truthy (strip s) = true <->
  exists c, In c (code_points s) /\ is_space c = false.
Proof.
  unfold truthy, strip. rewrite negb_true_iff, String.eqb_neq.
  assert (Hkept : forall c, In c (rev (lstrip (rev (lstrip (code_points s))))) ->
                            In c (code_points s)).
  { intros c Hin. apply in_rev, lstrip_In, in_rev, lstrip_In in Hin. exact Hin. }
  rewrite (@concat_nonempty _ (fun c Hc => @code_points_nonempty s c (Hkept c Hc))).
  split.
  - intro Hne.
    remember (lstrip (rev (lstrip (code_points s)))) as inner eqn:Hinner.
    destruct inner as [| c rest]; [now elim Hne |]. symmetry in Hinner.
    exists c. split; [| exact (@lstrip_head _ _ _ Hinner)].
    apply Hkept. apply -> in_rev. now left.
  - intros (c & Hin & Hc) Hnil.
    assert (Hthere : In c (rev (lstrip (rev (lstrip (code_points s)))))).
    { apply -> in_rev.
      apply lstrip_keeps; [| exact Hc]. apply -> in_rev.
      now apply lstrip_keeps. }
    rewrite Hnil in Hthere. contradiction.
Qed.

(** ASCII text is blank for [strip] exactly when all its characters are
    whitespace ones. *)
Lemma strip_blank (s : string) :
  is_ascii s = true ->
  (truthy (strip s) = false <-> blank s).
Proof.
  intro Hs. unfold blank. rewrite Forall_forall. split.
  - intros Hno c Hc. apply blank_character_spec.
    destruct (is_space (String c EmptyString)) eqn:Hsp; [reflexivity | exfalso].
    assert (Hyes : truthy (strip s) = true).
    { apply strip_truthy. exists (String c EmptyString). split; [| exact Hsp].
      rewrite (@code_points_ascii s Hs).
      exact (in_map (fun c => String c EmptyString) _ _ Hc). }
    congruence.
  - intro Hall. destruct (truthy (strip s)) eqn:Hyes; [exfalso | reflexivity].
    apply strip_truthy in Hyes. destruct Hyes as (cp & Hin & Hsp).
    rewrite (@code_points_ascii s Hs) in Hin. apply in_map_iff in Hin.
    destruct Hin as (c & <- & Hc).
    apply Hall, blank_character_spec in Hc. congruence.
Qed.

Lemma nat_of_ascii_inj (a b : ascii) : nat_of_ascii a = nat_of_ascii b -> a = b.
Proof.
  intro Heq. rewrite <- (ascii_nat_embedding a), <- (ascii_nat_embedding b).
  now rewrite Heq.
Qed.

Lemma lower_ascii_code (a : ascii) :
  nat_of_ascii (lower_ascii a) =
  if ((65 <=? nat_of_ascii a) && (nat_of_ascii a <=? 90))%bool
  then nat_of_ascii a + 32 else nat_of_ascii a.
Proof.
  unfold lower_ascii.
  destruct (Nat.leb_spec 65 (nat_of_ascii a)) as [Hlo | Hlo];
    destruct (Nat.leb_spec (nat_of_ascii a) 90) as [Hhi | Hhi];
    cbn [andb]; try reflexivity.
  apply nat_ascii_embedding. lia.
Qed.

(** Two characters have the same lowering exactly when they are the same
    letter in either case. *)
Lemma lower_ascii_same (a b : ascii) :
  lower_ascii a = lower_ascii b <-> same_letter a b.
Proof.
  unfold same_letter. split.
  - intro Heq. apply (f_equal nat_of_ascii) in Heq.
    rewrite !lower_ascii_code in Heq.
    destruct (Nat.leb_spec 65 (nat_of_ascii a));
      destruct (Nat.leb_spec (nat_of_ascii a) 90);
      destruct (Nat.leb_spec 65 (nat_of_ascii b));
      destruct (Nat.leb_spec (nat_of_ascii b) 90);
      cbn [andb] in Heq;
      first [ left; apply nat_of_ascii_inj; lia
            | right; left; lia
            | right; right; lia ].
  - intros [-> | [(Hup & Hb) | (Hup & Ha)]]; [reflexivity | |];
      apply nat_of_ascii_inj; rewrite !lower_ascii_code;
      destruct (Nat.leb_spec 65 (nat_of_ascii a));
      destruct (Nat.leb_spec (nat_of_ascii a) 90);
      destruct (Nat.leb_spec 65 (nat_of_ascii b));
      destruct (Nat.leb_spec (nat_of_ascii b) 90);
      cbn [andb]; lia.
Qed.

Lemma ascii_lower_same (s : string) :
  forall d, ascii_lower s = ascii_lower d <-> equal_ignoring_case s d.
Proof.
  unfold equal_ignoring_case.
  induction s as [| a s IH]; intros [| b d]; cbn [ascii_lower list_ascii_of_string].
  - split; [constructor | reflexivity].
  - split; [discriminate | intro Hbad; inversion Hbad].
  - split; [discriminate | intro Hbad; inversion Hbad].
  - split.
    + intro Heq. injection Heq as Hhead Htail.
      constructor; [now apply lower_ascii_same | now apply IH].
    + intro Hall. inversion Hall as [| ? ? ? ? Hhead Htail]; subst.
      f_equal; [now apply lower_ascii_same | now apply IH].
Qed.

(** The guard on ASCII text. *)
Lemma flights_wanted_ascii E (start_location destination : string) :
  is_ascii start_location = true ->
  is_ascii destination = true ->
  flights_wanted E start_location destination =
  (truthy (strip start_location)
   && negb (String.eqb (ascii_lower start_location) (ascii_lower destination)))%bool.
Proof.
  intros Hs Hd. unfold flights_wanted, lower.
  now rewrite (@str_lower_ascii E _ Hs), (@str_lower_ascii E _ Hd).
Qed.

(** C10: the flight lines are added exactly when the starting location has
    a character that is not whitespace and its lowering differs from the
    destination's: for ASCII text, exactly when the starting location is
    not blank and is not the destination up to the case of its letters.
    So " " or a tab, a newline or a no-break space alone as starting
    location, and "GOA" for "goa", add none.  Otherwise every day keeps
    its activities and gets the budget line appended, and nothing else.
    When they are added, the departure line is put in front of the first
    day, the return line after the activities of the last day, before its
    budget line, and the days in between get the budget line only. *)
Theorem annotate_flight_lines (start_location destination : string)
    (budget : Z) (itinerary : list day) E s :
  ((flights_wanted E start_location destination = true <->
    (exists c, In c (code_points start_location) /\ is_space c = false) /\
    lower E start_location <> lower E destination) /\
   (is_ascii start_location = true -> is_ascii destination = true ->
    (flights_wanted E start_location destination = true <->
     ~ blank start_location /\
     ~ equal_ignoring_case start_location destination)) /\
   flights_wanted E "Mumbai" "Goa" = true /\
   flights_wanted E "GOA" "goa" = false /\
   flights_wanted E "goa" "Goa" = false /\
   flights_wanted E "New york" "New York" = false /\
   flights_wanted E "" "Goa" = false /\
   flights_wanted E "   " "Goa" = false /\
   flights_wanted E (bytes [9; 10; 13; 32]) "Goa" = false /\
   flights_wanted E (bytes [32; 194; 160; 227; 128; 128]) "Goa" = false /\
   flights_wanted E " Goa " "Goa" = true) /\
  (flights_wanted E start_location destination = false ->
   annotate start_location destination budget itinerary E s =
     (Done (map (tipped budget) itinerary), s) /\
   (forall d, In d itinerary -> length (Activities d) = 3 ->
      exists a b c,
        Activities (tipped budget d) = [a; b; c; PStr (budget_line budget)])) /\
  (flights_wanted E start_location destination = true ->
   (itinerary = [] ->
    annotate start_location destination budget itinerary E s = (Raise IndexError, s)) /\
   (forall only, itinerary = [only] ->
    annotate start_location destination budget itinerary E s =
      (Done [with_activities only
               (PStr (departure_message start_location destination)
                  :: Activities only
                  ++ [PStr (return_message start_location destination);
                      PStr (budget_line budget)])], s)) /\
   (forall first middle last, itinerary = first :: middle ++ [last] ->
    annotate start_location destination budget itinerary E s =
      (Done (with_activities first
               (PStr (departure_message start_location destination)
                  :: Activities first ++ [PStr (budget_line budget)])
             :: map (tipped budget) middle
             ++ [with_activities last
                   (Activities last
                      ++ [PStr (return_message start_location destination);
                          PStr (budget_line budget)])]), s))).
Proof.
  split; [| split].
  - split; [| split].
    + unfold flights_wanted.
      rewrite andb_true_iff, negb_true_iff, String.eqb_neq, strip_truthy.
      reflexivity.
    + intros Hs Hd. rewrite (@flights_wanted_ascii E _ _ Hs Hd).
      rewrite andb_true_iff, negb_true_iff, String.eqb_neq.
      rewrite <- (@strip_blank start_location Hs), <- ascii_lower_same.
      rewrite not_false_iff_true. reflexivity.
    + repeat match goal with |- _ /\ _ => split end;
        try (rewrite flights_wanted_ascii by reflexivity; reflexivity).
      unfold flights_wanted.
      change (truthy (strip (bytes [32; 194; 160; 227; 128; 128]))) with false.
      reflexivity.
  - intro Hno. split.
    + unfold annotate. rewrite Hno. reflexivity.
    + intros d _ Hlen. destruct (Activities d) as [| a [| b [| c [| ? ?]]]] eqn:Hacts;
        try discriminate.
      exists a, b, c. unfold tipped. simpl. now rewrite Hacts.
  - intro Hyes. split; [| split].
    + intros ->. unfold annotate. rewrite Hyes. reflexivity.
    + intros only ->. unfold annotate. rewrite Hyes. cbn.
      unfold with_activities. cbn. now rewrite <- app_assoc.
    + intros first middle last ->. unfold annotate. rewrite Hyes.
      set (dep := PStr (departure_message start_location destination)).
      set (back := PStr (return_message start_location destination)).
      assert (Hboth :
        (itinerary <- prepend_first dep (first :: middle ++ [last]) ;;
         append_last back itinerary) E s =
        (Done ((with_activities first (dep :: Activities first) :: middle)
               ++ [with_activities last (Activities last ++ [back])]), s)).
      { cbn [prepend_first]. unfold bind, ret. cbv beta iota.
        rewrite app_comm_cons. apply append_last_app. }
      bind_step Hboth. unfold ret. f_equal. f_equal.
      rewrite map_app. cbn. unfold with_activities. cbn.
      now rewrite <- app_assoc.
Qed.

(** ** The handler *)

Lemma get_fallback_list_Done (destination : string) E s :
  exists fallback_list n,
    get_fallback_list destination E s = (Done fallback_list, after_draws n s) /\
    NoDup fallback_list /\
    Forall (synthetic destination) fallback_list /\
    1 <= length fallback_list <= 50.
Proof.
  destruct (@fallback_loop_Done destination 50 E (50 * 10) [] 0 s
              ltac:(lia) ltac:(lia) (NoDup_nil _) ltac:(simpl; lia) (Forall_nil _))
    as (fb & att & n & Hrun & Hatt & Hn & Hnd & Hsyn & Hexit & _ & Hone).
  pose proof (set_order_perm E fb) as Hperm.
  exists (set_order E fb), n. split; [| split; [| split]].
  - unfold get_fallback_list, generate_dynamic_fallback.
    bind_step Hrun. reflexivity.
  - eapply Permutation_NoDup; [symmetry; exact Hperm | assumption].
  - apply Forall_forall. intros item Hitem.
    eapply Forall_forall; [exact Hsyn |].
    eapply Permutation_in; eassumption.
  - rewrite (Permutation_length Hperm). lia.
Qed.

Lemma top_up_enough {A} `{PyEq A} (fallback_list unique_tasks : list A)
    (required fuel : nat) E s :
  required <= length unique_tasks ->
  top_up fuel fallback_list required unique_tasks E s = (Done unique_tasks, s).
Proof.
  intro Hle. destruct fuel; simpl;
    now destruct (Nat.ltb_spec (length unique_tasks) required) as [Hlt | _]; [lia |].
Qed.

Lemma groups_shape {A} (sampled : list A) (days : nat) :
  length sampled = days * 3 ->
  let groups := map (fun i => slice sampled (i * 3) ((i + 1) * 3)) (seq 0 days) in
  length groups = days /\
  Forall (fun group => length group = 3) groups /\
  concat groups = sampled.
Proof.
  intros Hlen groups.
  destruct (groups_of_three sampled days Hlen) as (Hcount & Hthree & _ & Hcat).
  now repeat split.
Qed.

(** A pool of up to 21 items, or of just the items asked for, is sampled
    from a copy. *)
Lemma small_pool (n k : nat) : n <= 21 \/ n <= k -> n <= setsize k.
Proof. pose proof (setsize_at_least k). lia. Qed.

Lemma generate_groups_Done {A} (fuel : nat) (global_pool : list A) (days : nat) E s :
  days * 3 <= length global_pool ->
  length global_pool <= setsize (days * 3) ->
  exists sampled rest,
    generate_groups_from_global_pool fuel global_pool days 3 E s =
      (Done (map (fun i => slice sampled (i * 3) ((i + 1) * 3)) (seq 0 days)),
       after_draws (days * 3) s) /\
    length sampled = days * 3 /\
    Permutation global_pool (sampled ++ rest).
Proof.
  intros Hsize Hsmall.
  destruct (@random_sample_Done A fuel global_pool (days * 3) E s Hsize Hsmall)
    as (sampled & rest & Hrun & Hlen & Hperm).
  exists sampled, rest. split; [| split; assumption].
  unfold generate_groups_from_global_pool. bind_step Hrun. reflexivity.
Qed.

(** The groups of three, whatever the size of the pool: [days] groups cut
    from [days * 3] items standing at different places of the pool, after
    at least that many draws; or the sampler is still redrawing positions
    of a pool too large to be copied. *)
Lemma generate_groups_outcome {A} (fuel : nat) (global_pool : list A) (days : nat)
    E s :
  days * 3 <= length global_pool ->
  (exists sampled rest m,
      generate_groups_from_global_pool fuel global_pool days 3 E s =
        (Done (map (fun i => slice sampled (i * 3) ((i + 1) * 3)) (seq 0 days)),
         after_draws m s) /\
      length sampled = days * 3 /\
      Permutation global_pool (sampled ++ rest) /\
      days * 3 <= m /\
      (length global_pool <= setsize (days * 3) -> m = days * 3)) \/
  (exists m,
      generate_groups_from_global_pool fuel global_pool days 3 E s =
        (OutOfFuel, after_draws m s) /\
      setsize (days * 3) < length global_pool /\
      forall T, covers E s T (length global_pool) -> fuel < T).
Proof.
  intro Hsize.
  destruct (@random_sample_outcome A fuel global_pool (days * 3) E s Hsize)
    as [(sampled & rest & m & Hrun & Hlen & Hperm & Hm & Hsmall & _)
       | (m & Hrun & Hlarge & Hcover)].
  - left. exists sampled, rest, m.
    split; [unfold generate_groups_from_global_pool; bind_step Hrun; reflexivity |].
    now repeat split.
  - right. exists m.
    split; [unfold generate_groups_from_global_pool; bind_out Hrun; reflexivity |].
    now split.
Qed.

Lemma numbered_days_shape (groups : list (list pyval)) :
  forall k,
    let days := map (fun ig => {| Day := fst ig + 1; Activities := snd ig |})
                    (combine (seq k (length groups)) groups) in
    map Activities days = groups /\ map Day days = seq (k + 1) (length groups).
Proof.
  induction groups as [| g groups IH]; intro k; simpl; [split; reflexivity |].
  destruct (IH (S k)) as [Hacts Hdays].
  rewrite Hacts, Hdays. split; reflexivity.
Qed.

Lemma itinerary_of_shape (groups : list (list pyval)) :
  map Activities (itinerary_of groups) = groups /\
  map Day (itinerary_of groups) = seq 1 (length groups).
Proof. apply (numbered_days_shape groups 0). Qed.

Lemma set_of_NoDup (l : list string) : NoDup (set_of l).
Proof.
  unfold set_of. generalize (NoDup_nil string). generalize (@nil string).
  induction l as [| x l IH]; intros acc Hacc; simpl; [assumption |].
  apply IH. now apply set_add_NoDup.
Qed.

Lemma three_items {A} (l : list A) :
  length l = 3 -> exists a b c, l = [a; b; c].
Proof.
  destruct l as [| a [| b [| c [| ? ?]]]]; try discriminate.
  intros _. now exists a, b, c.
Qed.

(** C6: for the destination Goa, a trip of two days and the starting
    location Mumbai, the handler returns, whatever is drawn and whatever
    the fuel: two days, the first beginning with the departure line, the
    last ending with the return line and then the budget line. *)
Theorem goa_two_days_from_mumbai (fuel : nat) (budget : Z) (travel_date : date) E s :
  exists a1 a2 a3 b1 b2 b3 s',
    generate_itinerary fuel "Goa" "Mumbai" budget 2 travel_date E s =
      (Done ([ {| Day := 1;
                  Activities := [ PStr "Take a flight from Mumbai to Goa.";
                                  a1; a2; a3;
                                  PStr ("Budget Tip: " ++ get_budget_tip budget) ] |};
               {| Day := 2;
                  Activities := [ b1; b2; b3;
                                  PStr "Take a flight from Goa back to Mumbai.";
                                  PStr ("Budget Tip: " ++ get_budget_tip budget) ] |} ],
             get_travel_advice "Goa" travel_date), s').
Proof.
  unfold generate_itinerary, build_itinerary.
  destruct (dict_get preset_itineraries "Goa") as [base_points |] eqn:Hbase;
    [| discriminate].
  set (candidates := set_of (base_points ++ extra_tasks_for "Goa")).
  assert (Hcount : length candidates = 16)
    by (injection Hbase as <-; reflexivity).
  pose proof (set_of_NoDup (base_points ++ extra_tasks_for "Goa")) as Hnd.
  fold candidates in Hnd.
  pose proof (set_order_perm E candidates) as Hperm.
  set (global_tasks := set_order E candidates) in *.
  assert (Hnd' : NoDup global_tasks)
    by (eapply Permutation_NoDup; [symmetry; exact Hperm | exact Hnd]).
  assert (Hlen' : length global_tasks = 16)
    by (now rewrite (Permutation_length Hperm)).
  destruct (get_fallback_list_Done "Goa" E s)
    as (fallback_list & n & Hfb & _).
  assert (Hpool : create_global_pool fuel global_tasks fallback_list "Goa" (2 * 3)
                    E (after_draws n s) = (Done global_tasks, after_draws n s)).
  { unfold create_global_pool.
    rewrite (dedup_idempotent string_eq_spec Hnd').
    apply top_up_enough. rewrite Hlen'. lia. }
  destruct (@generate_groups_Done string fuel global_tasks 2 E (after_draws n s)
              ltac:(rewrite Hlen'; lia)
              ltac:(apply small_pool; rewrite Hlen'; lia))
    as (sampled & rest & Hgroups & Hsampled & _).
  destruct (groups_shape sampled 2 Hsampled) as (_ & Hthree & _).
  cbn [seq map] in Hgroups, Hthree.
  apply Forall_cons_iff in Hthree. destruct Hthree as [Hg0 Hthree].
  apply Forall_cons_iff in Hthree. destruct Hthree as [Hg1 _].
  destruct (three_items _ Hg0) as (a1 & a2 & a3 & Heq0).
  destruct (three_items _ Hg1) as (b1 & b2 & b3 & Heq1).
  rewrite Heq0, Heq1 in Hgroups.
  exists (PStr a1), (PStr a2), (PStr a3), (PStr b1), (PStr b2), (PStr b3).
  eexists.
  assert (Hbuild :
    (global_tasks <- list_of_set candidates ;;
     fallback_list <- get_fallback_list "Goa" ;;
     global_pool <- create_global_pool fuel global_tasks fallback_list "Goa" (2 * 3) ;;
     groups <- generate_groups_from_global_pool fuel global_pool 2 3 ;;
     ret (itinerary_of (map (map PStr) groups))) E s =
    (Done [ {| Day := 1; Activities := [PStr a1; PStr a2; PStr a3] |};
            {| Day := 2; Activities := [PStr b1; PStr b2; PStr b3] |} ],
     after_draws (2 * 3) (after_draws n s))).
  { assert (Hset : list_of_set candidates E s = (Done global_tasks, s))
      by reflexivity.
    bind_step Hset. bind_step Hfb. bind_step Hpool. bind_step Hgroups.
    reflexivity. }
  assert (Hguard : flights_wanted E "Mumbai" "Goa" = true)
    by (rewrite flights_wanted_ascii by reflexivity; reflexivity).
  bind_step Hbuild. unfold bind at 1, annotate. rewrite Hguard. reflexivity.
Qed.

(** ** The live source and the degraded itinerary *)

Lemma raise_for_status_error status E s :
  400 <= status < 600 -> raise_for_status status E s = (Raise HTTPError, s).
Proof.
  intros [Hlo Hhi]. unfold raise_for_status.
  now rewrite (proj2 (Nat.leb_le _ _) Hlo), (proj2 (Nat.ltb_lt _ _) Hhi).
Qed.

Lemma raise_for_status_ok status E s :
  ~ 400 <= status < 600 -> raise_for_status status E s = (Done tt, s).
Proof.
  intro Hok. unfold raise_for_status.
  destruct (Nat.leb_spec 400 status); destruct (Nat.ltb_spec status 600);
    try reflexivity. lia.
Qed.

Lemma py_subscript_fails data e E s :
  no_second_item data e -> py_subscript data 1 E s = (Raise e, s).
Proof.
  intros [items Hlen | t Hlen | members | | b | z]; simpl; try reflexivity.
  - unfold subscript.
    now rewrite (proj2 (nth_error_None items 1) ltac:(lia)).
  - unfold bind, subscript.
    now rewrite (proj2 (nth_error_None (code_points t) 1) ltac:(lia)).
Qed.

Lemma py_iter_fails tasks E s :
  not_iterable tasks -> py_iter tasks E s = (Raise TypeError, s).
Proof. now intros [| b | z]. Qed.

(** On a failing reply the fetch sends its one request, reports the error
    and returns the empty list. *)
Lemma fetch_fails (fuel : nat) (destination : string) (duration : nat) E s e :
  fetch_failure (replies E (sent s)) e ->
  fetch_itinerary_from_wiki fuel destination duration E s =
    (Done [], State (drawn s) (S (sent s)) (ui s ++ [st_error e])).
Proof.
  intro Hfail. unfold fetch_itinerary_from_wiki, try_except.
  set (s1 := State (drawn s) (S (sent s)) (ui s)).
  remember (replies E (sent s)) as reply eqn:Hreply.
  destruct Hfail as [| status body Hst | status Hst | status data e Hst Hno
                     | status items tasks Hst Hnth Hnot].
  - assert (Hget : requests_get E s = (Raise RequestException, s1))
      by (unfold requests_get; now rewrite <- Hreply).
    bind_raise Hget. reflexivity.
  - assert (Hget : requests_get E s = (Done (status, body), s1))
      by (unfold requests_get; now rewrite <- Hreply).
    bind_step Hget. bind_raise (raise_for_status_error E s1 Hst). reflexivity.
  - assert (Hget : requests_get E s = (Done (status, None), s1))
      by (unfold requests_get; now rewrite <- Hreply).
    bind_step Hget. bind_step (raise_for_status_ok E s1 Hst). reflexivity.
  - assert (Hget : requests_get E s = (Done (status, Some data), s1))
      by (unfold requests_get; now rewrite <- Hreply).
    bind_step Hget. bind_step (raise_for_status_ok E s1 Hst).
    assert (Hjson : response_json (Some data) E s1 = (Done data, s1)) by reflexivity.
    bind_step Hjson. bind_raise (py_subscript_fails E s1 Hno). reflexivity.
  - assert (Hget : requests_get E s = (Done (status, Some (PList items)), s1))
      by (unfold requests_get; now rewrite <- Hreply).
    bind_step Hget. bind_step (raise_for_status_ok E s1 Hst).
    assert (Hjson : response_json (Some (PList items)) E s1 = (Done (PList items), s1))
      by reflexivity.
    bind_step Hjson.
    assert (Hsub : py_subscript (PList items) 1 E s1 = (Done tasks, s1))
      by (simpl; unfold subscript; now rewrite Hnth).
    bind_step Hsub. bind_raise (py_iter_fails E s1 Hnot). reflexivity.
Qed.

(** What the itinerary from fallback items alone is, whenever it is
    returned: no request sent, the days numbered from 1, three activities a
    day, each made by the fallback generator. *)
Lemma synthetic_itinerary_Done_inv (fuel : nat) (destination : string)
    (duration : nat) E s itinerary s' :
  synthetic_itinerary fuel destination duration E s = (Done itinerary, s') ->
  sent s' = sent s /\
  ui s' = ui s /\
  map Day itinerary = seq 1 duration /\
  Forall (fun d => length (Activities d) = 3 /\
                   Forall (synthetic_activity destination) (Activities d))
         itinerary.
Proof.
  unfold synthetic_itinerary. intro Hrun.
  destruct (get_fallback_list_Done destination E s)
    as (fallback_list & n & Hfb & _ & Hsyn & _).
  bind_step_in Hfb Hrun.
  apply bind_Done_inv in Hrun. destruct Hrun as (pool & s1 & Hpool & Hrun).
  apply create_global_pool_Done_inv in Hpool.
  destruct Hpool as (extra & n1 & -> & Hextra & _ & Hlen & -> & _).
  cbn [first_occurrences app length] in *. rewrite Nat.max_0_r in Hlen.
  destruct (@generate_groups_Done string fuel extra duration E
              (after_draws n1 (after_draws n s)) ltac:(lia)
              ltac:(apply small_pool; lia))
    as (sampled & rest & Hgroups & Hsampled & Hperm).
  bind_step_in Hgroups Hrun. unfold ret in Hrun. injection Hrun as <- <-.
  destruct (groups_shape sampled duration Hsampled) as (Hcount & Hthree & Hcat).
  set (groups := map (fun i => slice sampled (i * 3) ((i + 1) * 3)) (seq 0 duration))
    in *.
  destruct (itinerary_of_shape (map (map PStr) groups)) as [Hacts Hdays].
  split; [reflexivity |]. split; [reflexivity |].
  split; [now rewrite Hdays, length_map, Hcount |].
  apply Forall_forall. intros d Hd.
  assert (Hin : In (Activities d) (map (map PStr) groups))
    by (rewrite <- Hacts; exact (in_map Activities _ _ Hd)).
  apply in_map_iff in Hin. destruct Hin as (group & <- & Hgroup).
  split.
  - rewrite length_map. revert group Hgroup. now apply Forall_forall.
  - apply Forall_forall. intros a Ha.
    apply in_map_iff in Ha. destruct Ha as (item & <- & Hitem).
    exists item. split; [reflexivity |].
    eapply Forall_forall; [exact Hsyn |].
    rewrite Forall_forall in Hextra. apply Hextra.
    eapply Permutation_in; [symmetry; exact Hperm |].
    apply in_or_app. left. rewrite <- Hcat.
    apply in_concat. exists group. now split.
Qed.

(** The itinerary from fallback items alone is returned when the fallback
    list is long enough and the draws reach all of it. *)
Lemma synthetic_itinerary_returns (fuel T : nat) (destination : string)
    (duration : nat) E s fallback_list s1 :
  get_fallback_list destination E s = (Done fallback_list, s1) ->
  duration * 3 <= length fallback_list ->
  covers E s1 T (length fallback_list) ->
  T <= fuel ->
  exists itinerary s',
    synthetic_itinerary fuel destination duration E s = (Done itinerary, s').
Proof.
  intros Hfb Hlong Hcov Hfuel.
  destruct (get_fallback_list_Done destination E s)
    as (fallback_list' & n & Hfb' & Hnd & _).
  rewrite Hfb in Hfb'. injection Hfb' as <- ->.
  destruct (@create_global_pool_covered [] fallback_list destination
              (duration * 3) T E (after_draws n s))
    as (pool & extra & n1 & _ & _ & Hpool & _ & Hlen & _).
  { cbn [app]. now rewrite (dedup_idempotent string_eq_spec Hnd). }
  { exact Hcov. }
  cbn [first_occurrences length] in Hlen. rewrite Nat.max_0_r in Hlen.
  destruct (@generate_groups_Done string fuel pool duration E
              (after_draws n1 (after_draws n s)) ltac:(lia)
              ltac:(apply small_pool; lia))
    as (sampled & rest & Hgroups & _).
  eexists. eexists. unfold synthetic_itinerary.
  bind_step Hfb. bind_step (Hpool fuel Hfuel). bind_step Hgroups. reflexivity.
Qed.

(** C5 (amended): when no reply comes, when the status is a 4xx or 5xx
    code, when the body is not JSON, when the decoded body has nothing at
    index 1, or when what stands there cannot be looped over (null, a
    boolean, a number), [fetch_itinerary_from_wiki] sends its one request
    and no other, reports the error and returns the empty list.  For a
    destination outside the presets the handler then goes on exactly as the
    construction from fallback items alone, with no real candidate: where
    that returns, the days are numbered from 1 and hold three activities
    each, all made by the fallback generator, and no further request was
    sent; and it does return once the fallback list is long enough and the
    draws reach all of it. *)
Theorem fetch_failure_degrades (fuel : nat) (destination : string)
    (duration : nat) E s e :
  fetch_failure (replies E (sent s)) e ->
  fetch_itinerary_from_wiki fuel destination duration E s =
    (Done [], State (drawn s) (S (sent s)) (ui s ++ [st_error e])) /\
  (dict_get preset_itineraries destination = None ->
   build_itinerary fuel destination duration E s =
     synthetic_itinerary fuel destination duration E
       (State (drawn s) (S (sent s)) (ui s ++ [st_error e; st_warning])) /\
   (forall itinerary s',
      build_itinerary fuel destination duration E s = (Done itinerary, s') ->
      sent s' = S (sent s) /\
      map Day itinerary = seq 1 duration /\
      Forall (fun d => length (Activities d) = 3 /\
                       Forall (synthetic_activity destination) (Activities d))
             itinerary) /\
   (forall fallback_list s1 T,
      get_fallback_list destination E
        (State (drawn s) (S (sent s)) (ui s ++ [st_error e; st_warning]))
      = (Done fallback_list, s1) ->
      duration * 3 <= length fallback_list ->
      covers E s1 T (length fallback_list) ->
      T <= fuel ->
      exists itinerary s',
        build_itinerary fuel destination duration E s = (Done itinerary, s'))).
Proof.
  intro Hfail. pose proof (fetch_fails fuel destination duration E s Hfail) as Hfetch.
  split; [exact Hfetch |]. intro Hother.
  assert (Hbuild :
    build_itinerary fuel destination duration E s =
    synthetic_itinerary fuel destination duration E
      (State (drawn s) (S (sent s)) (ui s ++ [st_error e; st_warning]))).
  { unfold build_itinerary. rewrite Hother. bind_step Hfetch.
    unfold report at 1. unfold bind at 1. cbn [drawn sent ui].
    rewrite <- app_assoc. reflexivity. }
  split; [exact Hbuild |]. rewrite Hbuild. split.
  - intros itinerary s' Hrun.
    apply synthetic_itinerary_Done_inv in Hrun.
    destruct Hrun as (Hsent & _ & Hdays & Hacts). now repeat split.
  - intros fallback_list s1 T Hfb Hlong Hcov Hfuel.
    eapply synthetic_itinerary_returns; eassumption.
Qed.

Lemma fetch_failure_degrades_witness :
  fetch_failure (replies counting_env (sent initial_state)) RequestException /\
  fetch_itinerary_from_wiki 60 "Lima" 1 counting_env initial_state =
    (Done [], State 0 1 [st_error RequestException]).
Proof.
  split; [exact network_failure |].
  exact (proj1 (@fetch_failure_degrades 60 "Lima"%string 1 counting_env
                  initial_state RequestException network_failure)).
Defined.

(** The degraded run on the counting generator: one request, the error and
    the warning reported, one day of three fallback items. *)
Example lima_without_network :
  build_itinerary 60 "Lima" 1 counting_env initial_state =
  (Done [ {| Day := 1;
             Activities := [ PStr "Discover hidden alleys in unforgettable Lima";
                             PStr "Shop at local markets in Lima";
                             PStr "Join a guided historical tour in Lima" ] |} ],
   State 1256 1 [st_error RequestException; st_warning]).
Proof. vm_compute. reflexivity. Qed.

(** C5, as stated, fails: a body whose second element is the text "Lima",
    not a list of suggestions, is no failure for the fetch, which loops over
    the characters of the text and returns a day made of them, reporting
    nothing. *)
Lemma fetch_loops_over_text :
  fetch_itinerary_from_wiki 0 "Lima" 1
    (replying_env
       (Reply 200 (Some (PList [PStr "Lima tourist attractions"; PStr "Lima"]))))
    initial_state
  = (Done [ {| Day := 1; Activities := [PStr "L"; PStr "m"; PStr "a"] |} ],
     State 166 1 []) /\
  fst (fetch_itinerary_from_wiki 0 "Lima" 1
         (replying_env
            (Reply 200 (Some (PList [PStr "Lima tourist attractions"; PStr "Lima"]))))
         initial_state)
  <> Done [].
Proof.
  split; [vm_compute; reflexivity | vm_compute; discriminate].
Qed.

(** A text body is indexed and looped over by character, not by byte: the
    one character "é" has nothing at index 1, and the fetch fails on it;
    of "éa" the second character is taken. *)
Example fetch_on_text_bodies :
  fetch_itinerary_from_wiki 0 "Lima" 1
    (replying_env (Reply 200 (Some (PStr (bytes [195; 169]))))) initial_state
  = (Done [], State 0 1 [st_error IndexError]) /\
  py_subscript (PStr (bytes [195; 169; 97])) 1 counting_env initial_state
  = (Done (PStr "a"), initial_state) /\
  py_iter (PStr (bytes [76; 195; 169])) counting_env initial_state
  = (Done [PStr "L"; PStr (bytes [195; 169])], initial_state).
Proof. repeat split; vm_compute; reflexivity. Qed.

(** Nor is a status outside 2xx a failure by itself: only the 4xx and 5xx
    codes are; and the items of the list are not looked at. *)
Example fetch_accepts_other_replies :
  fetch_itinerary_from_wiki 0 "Lima" 1
    (replying_env
       (Reply 304 (Some (PList [ PStr "Lima tourist attractions";
                                 PList [ PStr "Plaza Mayor"; PStr "Huaca Pucllana";
                                         PStr "Larco Museum" ] ]))))
    initial_state
  = (Done [ {| Day := 1;
               Activities := [ PStr "Huaca Pucllana"; PStr "Larco Museum";
                               PStr "Plaza Mayor" ] |} ],
     State 166 1 []) /\
  fetch_itinerary_from_wiki 0 "Lima" 1
    (replying_env
       (Reply 200 (Some (PList [ PStr "Lima tourist attractions";
                                 PList [ PInt 1; PBool true; PInt 2; PNone ] ]))))
    initial_state
  = (Done [ {| Day := 1; Activities := [ PInt 2; PNone; PInt 1 ] |} ],
     State 166 1 []).
Proof. split; vm_compute; reflexivity. Qed.

(** The generator can come back short: a generator that always draws 0
    makes the same item at each of the 20 attempts allowed for 2 items. *)
Example generate_dynamic_fallback_short :
  fallback_loop (2 * 10) "Lima" 2 [] 0 stuck_env initial_state =
    (Done (["Explore local art galleries in amazing Lima"%string], 20),
     State 60 0 []) /\
  generate_dynamic_fallback "Lima" 2 stuck_env initial_state =
    (Done ["Explore local art galleries in amazing Lima"%string], State 60 0 []).
Proof. split; vm_compute; reflexivity. Qed.

(** With a fallback list that is not empty the top-up loop raises nothing:
    it returns at least [required] items or is still running. *)
Lemma top_up_Done_or_OutOfFuel {A} `{PyEq A} (fallback_list : list A)
    (required : nat) E :
  fallback_list <> [] ->
  forall fuel unique_tasks s,
    (exists pool n,
        top_up fuel fallback_list required unique_tasks E s =
          (Done pool, after_draws n s) /\
        required <= length pool) \/
    (exists s', top_up fuel fallback_list required unique_tasks E s = (OutOfFuel, s')).
Proof.
  intro Hne.
  assert (Hnz : length fallback_list <> 0)
    by (destruct fallback_list; [congruence | discriminate]).
  induction fuel as [| fuel IH]; intros u s; simpl;
    destruct (Nat.ltb_spec (length u) required) as [Hlt | Hge];
    try (left; exists u, 0; rewrite after_draws_0; split; [reflexivity | lia]).
  - right. now exists s.
  - unfold randrange.
    destruct (Nat.eqb_spec (length fallback_list) 0) as [Hz | _]; [contradiction |].
    bind_step (randbelow_Done (length fallback_list) E s).
    destruct (subscript_Done fallback_list E (after_draws 1 s)
                (Nat.mod_upper_bound (draws E (drawn s)) _ Hnz))
      as (c & _ & Hsub).
    bind_step Hsub.
    destruct (IH (append_new c u) (after_draws 1 s))
      as [(pool & n & Hrun & Hlen) | (s' & Hrun)].
    + left. exists pool, (1 + n). rewrite Hrun, after_draws_add. now split.
    + right. now exists s'.
Qed.

Lemma second_item_cases (data : pyval) :
  (exists e, no_second_item data e) \/
  (exists tasks,
      (forall E s, py_subscript data 1 E s = (Done tasks, s)) /\
      ((exists items, data = PList items /\ nth_error items 1 = Some tasks) \/
       (exists c, tasks = PStr c))).
Proof.
  destruct data as [| b | z | t | items | members];
    try solve [left; eexists; constructor].
  - destruct (code_points t) as [| c0 [| c1 cps]] eqn:Hpoints.
    + left. eexists. apply short_text. rewrite Hpoints. simpl. lia.
    + left. eexists. apply short_text. rewrite Hpoints. simpl. lia.
    + right. exists (PStr c1). split; [| right; now exists c1].
      intros E s. cbn [py_subscript]. unfold bind, subscript.
      now rewrite Hpoints.
  - destruct items as [| i0 [| tasks items]].
    + left. eexists. constructor. simpl. lia.
    + left. eexists. constructor. simpl. lia.
    + right. exists tasks. split; [reflexivity |].
      left. now exists (i0 :: tasks :: items).
Qed.

Lemma iterable_cases (tasks : pyval) :
  not_iterable tasks \/
  (exists items, forall E s, py_iter tasks E s = (Done items, s)).
Proof.
  destruct tasks as [| b | z | t | items | members];
    try solve [left; constructor]; right; eexists; reflexivity.
Qed.

(** Every reply is a failure of the kinds listed, or has something at index
    1 of its body that a loop can run over. *)
Lemma fetch_failure_or_items (reply : response) :
  (exists e, fetch_failure reply e) \/
  (exists status data tasks items,
      reply = Reply status (Some data) /\
      ~ 400 <= status < 600 /\
      (forall E s, py_subscript data 1 E s = (Done tasks, s)) /\
      (forall E s, py_iter tasks E s = (Done items, s))).
Proof.
  destruct reply as [| status body].
  { left. eexists. constructor. }
  assert (Hstatus : 400 <= status < 600 \/ ~ 400 <= status < 600) by lia.
  destruct Hstatus as [Herr | Hok].
  { left. exists HTTPError. now constructor. }
  destruct body as [data |]; [| left; eexists; now constructor].
  destruct (second_item_cases data) as [(e & Hno) | (tasks & Hsub & Hwhere)].
  { left. exists e. now constructor. }
  destruct (iterable_cases tasks) as [Hnot | (items & Hiter)].
  - destruct Hwhere as [(items & -> & Hnth) | (c & ->)].
    + left. eexists. eapply second_item_not_iterable; eassumption.
    + inversion Hnot.
  - right. exists status, data, tasks, items. now repeat split.
Qed.

(** On a reply that is none of the failures the fetch reports nothing: it
    returns one day for each day of the trip, or one of its loops (the
    top-up of the pool, the redrawing of positions of a large pool) is
    still running. *)
Lemma fetch_succeeds (fuel : nat) (destination : string) (duration : nat)
    E s status data tasks items :
  replies E (sent s) = Reply status (Some data) ->
  ~ 400 <= status < 600 ->
  (forall E s, py_subscript data 1 E s = (Done tasks, s)) ->
  (forall E s, py_iter tasks E s = (Done items, s)) ->
  (exists itinerary n,
      fetch_itinerary_from_wiki fuel destination duration E s =
        (Done itinerary, State (drawn s + n) (S (sent s)) (ui s)) /\
      length itinerary = duration) \/
  (exists s', fetch_itinerary_from_wiki fuel destination duration E s = (OutOfFuel, s')).
Proof.
  intros Hreply Hok Hsub Hiter.
  unfold fetch_itinerary_from_wiki, try_except.
  set (s1 := State (drawn s) (S (sent s)) (ui s)).
  assert (Hget : requests_get E s = (Done (status, Some data), s1))
    by (unfold requests_get; now rewrite Hreply).
  bind_step Hget. bind_step (raise_for_status_ok E s1 Hok).
  assert (Hjson : response_json (Some data) E s1 = (Done data, s1)) by reflexivity.
  bind_step Hjson. bind_step (Hsub E s1). bind_step (Hiter E s1).
  destruct (get_fallback_list_Done destination E s1)
    as (fallback_list & n & Hfb & _ & _ & Hone & _).
  bind_step Hfb.
  assert (Hne : map PStr fallback_list <> [])
    by (destruct fallback_list; [simpl in Hone; lia | discriminate]).
  unfold create_global_pool.
  destruct (top_up_Done_or_OutOfFuel (duration * 3) E Hne fuel (dedup (dedup items))
              (after_draws n s1)) as [(pool & n1 & Hpool & Hlen) | (s' & Hpool)].
  - bind_step Hpool.
    destruct (@generate_groups_outcome pyval fuel pool duration E
                (after_draws n1 (after_draws n s1)) Hlen)
      as [(sampled & rest & m & Hgroups & Hsampled & _) | (m & Hgroups & _)].
    + bind_step Hgroups. left. eexists. exists (n + n1 + m).
      split.
      * unfold ret, s1, after_draws. cbn [drawn sent ui].
        apply f_equal2; [reflexivity | f_equal; lia].
      * destruct (groups_shape sampled duration Hsampled) as (Hcount & _).
        pose proof (itinerary_of_shape
                      (map (fun i => slice sampled (i * 3) ((i + 1) * 3))
                           (seq 0 duration))) as [Hacts _].
        rewrite <- (length_map Activities), Hacts. exact Hcount.
    + right. eexists. bind_out Hgroups. reflexivity.
  - right. exists s'. bind_out Hpool. reflexivity.
Qed.

(** * Further properties *)

(** ** Splitting a list *)

Lemma firstn_add {A} (a b : nat) :
  forall l : list A, firstn (a + b) l = firstn a l ++ firstn b (skipn a l).
Proof.
  induction a as [| a IH]; intros [| x l]; simpl; try reflexivity.
  - now rewrite firstn_nil.
  - now rewrite IH.
Qed.

Lemma slice_app {A} (l : list A) (x y z : nat) :
  x <= y -> y <= z -> slice l x y ++ slice l y z = slice l x z.
Proof.
  intros Hxy Hyz. unfold slice.
  replace (z - x) with ((y - x) + (z - y)) by lia.
  rewrite firstn_add, skipn_skipn.
  now replace (y - x + x) with y by lia.
Qed.

(** Slices between consecutive cut points, put together, are the slice
    between the first and the last cut point. *)
Lemma concat_slices_between {A} (l : list A) (cut : nat -> nat) :
  (forall i, cut i <= cut (S i)) ->
  forall n a,
    concat (map (fun i => slice l (cut i) (cut (S i))) (seq a n)) =
    slice l (cut a) (cut (a + n)).
Proof.
  intro Hmono.
  assert (Hle : forall n a, cut a <= cut (a + n)).
  { induction n as [| n IH]; intro a; [now rewrite Nat.add_0_r |].
    rewrite Nat.add_succ_r. etransitivity; [apply IH | apply Hmono]. }
  induction n as [| n IH]; intro a; cbn [seq map concat].
  - rewrite Nat.add_0_r. unfold slice. now rewrite Nat.sub_diag.
  - rewrite IH, slice_app.
    + f_equal. f_equal. lia.
    + apply Hmono.
    + apply (Hle n (S a)).
Qed.

Lemma slice_all {A} (l : list A) : slice l 0 (length l) = l.
Proof. unfold slice. simpl. rewrite Nat.sub_0_r. apply firstn_all. Qed.

(** X1: [split_list(lst, n)] is the empty list when [n <= 0]; for [n > 0] it
    has exactly [n] parts, and the parts put together in order are [lst]. *)
Theorem split_list_partition {A} (lst : list A) (n : Z) :
  ((n <= 0)%Z -> split_list lst n = []) /\
  ((0 < n)%Z ->
   length (split_list lst n) = Z.to_nat n /\
   concat (split_list lst n) = lst).
Proof.
  unfold split_list. split; intro Hn.
  - now rewrite (proj2 (Z.leb_le n 0) Hn).
  - rewrite (proj2 (Z.leb_gt n 0) Hn).
    set (parts := Z.to_nat n).
    assert (Hparts : parts <> 0) by (unfold parts; lia).
    set (k := length lst / parts). set (m := length lst mod parts).
    split; [now rewrite length_map, length_seq |].
    set (cut := fun i => i * k + Nat.min i m).
    assert (Hcut : forall i, cut i <= cut (S i)) by (intro i; unfold cut; lia).
    rewrite (map_ext _ (fun i => slice lst (cut i) (cut (S i))))
      by (intro i; unfold cut; now rewrite Nat.add_1_r).
    rewrite (concat_slices_between lst cut Hcut parts 0).
    assert (Hm : m < parts) by (apply Nat.mod_upper_bound; exact Hparts).
    assert (Hlen : length lst = parts * k + m) by (apply Nat.div_mod_eq).
    unfold cut. cbn [Nat.add Nat.mul Nat.min].
    replace (parts * k + Nat.min parts m) with (length lst) by lia.
    apply slice_all.
Qed.

(** X2: the parts of [split_list(lst, n)], [n > 0], are nearly equal: with
    [k, m = divmod(len(lst), n)], part [i] has [k + 1] items when [i < m]
    and [k] items otherwise. *)
Theorem split_list_balanced {A} (lst : list A) (n : Z) (i : nat) :
  (0 < n)%Z ->
  i < Z.to_nat n ->
  exists part,
    nth_error (split_list lst n) i = Some part /\
    length part =
      length lst / Z.to_nat n + (if i <? length lst mod Z.to_nat n then 1 else 0).
Proof.
  intros Hn Hi. unfold split_list.
  rewrite (proj2 (Z.leb_gt n 0) Hn).
  set (parts := Z.to_nat n) in *.
  assert (Hparts : parts <> 0) by lia.
  set (k := length lst / parts). set (m := length lst mod parts).
  assert (Hm : m < parts) by (apply Nat.mod_upper_bound; exact Hparts).
  assert (Hlen : length lst = parts * k + m) by (apply Nat.div_mod_eq).
  eexists. split.
  - rewrite nth_error_map, nth_error_nth' with (d := 0)
      by (rewrite length_seq; exact Hi).
    rewrite seq_nth by exact Hi. reflexivity.
  - cbn [Nat.add]. rewrite slice_length.
    + destruct (Nat.ltb_spec i m); lia.
    + assert ((i + 1) * k <= parts * k) by (apply Nat.mul_le_mono_r; lia).
      destruct (Nat.le_gt_cases (i + 1) m) as [Hle | Hgt].
      * rewrite Nat.min_l by exact Hle.
        assert ((i + 1) * k + (i + 1) <= parts * k + m); [| lia].
        destruct (Nat.eq_dec (i + 1) parts); [lia |].
        assert ((i + 1) * k <= parts * k) by (apply Nat.mul_le_mono_r; lia). lia.
      * rewrite Nat.min_r by lia. lia.
Qed.

Lemma split_list_balanced_witness :
  exists part,
    nth_error (split_list ["a"; "b"; "c"; "d"; "e"; "f"; "g"]%string 3) 1 = Some part /\
    length part =
      length ["a"; "b"; "c"; "d"; "e"; "f"; "g"]%string / Z.to_nat 3
      + (if 1 <? length ["a"; "b"; "c"; "d"; "e"; "f"; "g"]%string mod Z.to_nat 3
         then 1 else 0).
Proof.
  apply (@split_list_balanced string ["a"; "b"; "c"; "d"; "e"; "f"; "g"]%string 3 1).
  - lia.
  - simpl. lia.
Defined.

(** ** More on the pool builder *)

Lemma dedup_into_length {A} `{PyEq A} (tasks : list A) :
  forall acc, length (dedup_into acc tasks) <= length acc + length tasks.
Proof.
  induction tasks as [| x tasks IH]; intro acc; simpl; [lia |].
  specialize (IH (append_new x acc)).
  pose proof (append_new_length x acc). lia.
Qed.

(** X3: the deduplication loop of [create_global_pool] returns a list
    without duplicates that has exactly the members of its input and is no
    longer; a list without duplicates is returned as it is, so running the
    loop a second time changes nothing. *)
Theorem dedup_loop_properties (tasks : list string) :
  NoDup (dedup tasks) /\
  (forall task, In task (dedup tasks) <-> In task tasks) /\
  length (dedup tasks) <= length tasks /\
  (NoDup tasks -> dedup tasks = tasks) /\
  dedup (dedup tasks) = dedup tasks.
Proof.
  assert (Hnd : NoDup (dedup tasks)) by apply (dedup_NoDup string_eq_spec).
  split; [exact Hnd |].
  split; [intro task; apply (dedup_In string_eq_spec) |].
  split; [apply (dedup_into_length tasks []) |].
  split; [apply (dedup_idempotent string_eq_spec) |].
  now apply (dedup_idempotent string_eq_spec).
Qed.

Lemma NoDup_app_apart {A} (l1 l2 : list A) (x : A) :
  NoDup (l1 ++ l2) -> In x l1 -> In x l2 -> False.
Proof.
  induction l1 as [| a l1 IH]; intros Hnd H1 H2; [destruct H1 |].
  simpl in Hnd. apply NoDup_cons_iff in Hnd. destruct Hnd as [Ha Hnd].
  destruct H1 as [-> | H1].
  - apply Ha, in_or_app. now right.
  - now apply IH.
Qed.

Lemma top_up_Done_draws {A} `{PyEq A} (fallback_list : list A) (required : nat) E :
  forall fuel unique_tasks s pool s',
    top_up fuel fallback_list required unique_tasks E s = (Done pool, s') ->
    exists n,
      s' = after_draws n s /\ n <= fuel /\
      length pool <= length unique_tasks + n /\
      required <= length pool.
Proof.
  induction fuel as [| fuel IH]; intros u s pool s' Hrun; simpl in Hrun;
    destruct (Nat.ltb_spec (length u) required) as [Hlt | Hge];
    try discriminate;
    try (injection Hrun as <- <-; exists 0; rewrite after_draws_0;
         repeat split; lia).
  unfold randrange in Hrun.
  destruct (Nat.eqb_spec (length fallback_list) 0) as [Hz | Hnz];
    [discriminate |].
  bind_step_in (randbelow_Done (length fallback_list) E s) Hrun.
  destruct (subscript_Done fallback_list E (after_draws 1 s)
              (Nat.mod_upper_bound (draws E (drawn s)) _ Hnz))
    as (c & _ & Hsub).
  bind_step_in Hsub Hrun.
  apply IH in Hrun. destruct Hrun as (n & -> & Hn & Hlen & Hreq).
  pose proof (append_new_length c u).
  exists (1 + n). rewrite after_draws_add. repeat split; lia.
Qed.

(** X4: whatever is drawn and whatever the fuel, a pool returned by
    [create_global_pool] has no duplicates and at least [required] items, it
    is the candidates at their first occurrences followed by fallback items
    only, and the loop drew at least once for each fallback item added;
    requests and reports are left untouched. *)
Theorem create_global_pool_whenever_returned (tasks fallback_list : list string)
    (destination : string) (required fuel : nat) E s pool s' :
  create_global_pool fuel tasks fallback_list destination required E s = (Done pool, s') ->
  NoDup pool /\
  required <= length pool /\
  (exists extra n,
      pool = dedup tasks ++ extra /\
      Forall (fun item => In item fallback_list) extra /\
      (forall item, In item extra -> ~ In item tasks) /\
      s' = after_draws n s /\
      length extra <= n) /\
  sent s' = sent s /\ ui s' = ui s.
Proof.
  intro Hrun.
  destruct (@create_global_pool_Done_inv _ _ _ _ _ _ _ _ _ Hrun)
    as (extra & n & Hpool & Hextra & Hnd & Hlen & Hs' & _).
  unfold create_global_pool in Hrun.
  destruct (@top_up_Done_draws _ _ _ _ _ _ _ _ _ _ Hrun)
    as (n' & Hs'' & _ & Hdraws & Hreq).
  assert (n' = n).
  { rewrite Hs' in Hs''. unfold after_draws in Hs''.
    injection Hs'' as Hd. lia. }
  subst n'. rewrite <- (dedup_first_occurrences string_eq_spec) in Hpool.
  split; [exact Hnd |]. split; [exact Hreq |].
  split; [| subst s'; split; reflexivity].
  exists extra, n. split; [exact Hpool |]. split; [exact Hextra |].
  split; [| split; [exact Hs' |]].
  - intros item Hitem Htask. rewrite Hpool in Hnd.
    apply (NoDup_app_apart _ _ item Hnd); [| exact Hitem].
    now apply (dedup_In string_eq_spec).
  - rewrite Hpool, length_app in Hdraws. lia.
Qed.

Lemma create_global_pool_whenever_returned_witness :
  create_global_pool 3 ["a"; "b"; "a"]%string ["b"; "c"; "d"]%string "Goa" 4
    counting_env initial_state = (Done ["a"; "b"; "c"; "d"]%string, State 3 0 []) /\
  NoDup ["a"; "b"; "c"; "d"]%string /\
  4 <= length ["a"; "b"; "c"; "d"]%string.
Proof.
  split; [vm_compute; reflexivity |].
  pose proof (@create_global_pool_whenever_returned
                ["a"; "b"; "a"]%string ["b"; "c"; "d"]%string "Goa"%string 4 3
                counting_env initial_state ["a"; "b"; "c"; "d"]%string (State 3 0 [])
                eq_refl) as (Hnd & Hreq & _).
  split; [exact Hnd | exact Hreq].
Defined.

(** X5: [create_global_pool] draws nothing and returns the deduplicated
    candidates when these are already [required] or more, whatever the
    fallback list, even an empty one.  The only exception it raises is
    [ValueError], and it raises it only with an empty fallback list and too
    few candidates, before anything is drawn. *)
Theorem create_global_pool_draws_and_errors {A} `{PyEq A}
    (tasks fallback_list : list A) (destination : string) (required fuel : nat) E s :
  (required <= length (dedup tasks) ->
   create_global_pool fuel tasks fallback_list destination required E s
   = (Done (dedup tasks), s)) /\
  (forall e s',
     create_global_pool fuel tasks fallback_list destination required E s
     = (Raise e, s') ->
     e = ValueError /\ fallback_list = [] /\
     length (dedup tasks) < required /\ s' = s).
Proof.
  unfold create_global_pool. split.
  - intro Henough. now apply top_up_enough.
  - intros e s' Hrun. destruct fallback_list as [| item fallback_list].
    + destruct fuel as [| fuel]; simpl in Hrun;
        destruct (Nat.ltb_spec (length (dedup tasks)) required) as [Hlt | Hge];
        try discriminate.
      injection Hrun as <- <-. now repeat split.
    + exfalso.
      destruct (@top_up_Done_or_OutOfFuel A _ (item :: fallback_list) required E
                  ltac:(discriminate) fuel (dedup tasks) s)
        as [(pool & n & Hdone & _) | (s'' & Hout)]; congruence.
Qed.

(** ** More on the day sampler *)

(** X6: for any group width, [generate_groups_from_global_pool] raises
    [ValueError], drawing nothing, when the pool has fewer than
    [days * tasks_per_day] items, and raises nothing otherwise.  When it
    returns, it returns [days] groups of [tasks_per_day] items each, which
    together with the items left out are the pool, item for item; so no
    place of the pool is used twice, and a pool of exactly
    [days * tasks_per_day] items is used up.  It returns after exactly
    [days * tasks_per_day] draws when the pool has at most
    [setsize (days * tasks_per_day)] items.  On a larger pool positions
    already taken are drawn again: it returns within the first [T] draws
    when every position of the pool is drawn among them, and is still
    redrawing when the fuel ends only if the draws so far missed a
    position. *)
Theorem generate_groups_any_width {A} (fuel : nat) (global_pool : list A)
    (days tasks_per_day : nat) E s :
  (length global_pool < days * tasks_per_day ->
   generate_groups_from_global_pool fuel global_pool days tasks_per_day E s
   = (Raise ValueError, s)) /\
  (days * tasks_per_day <= length global_pool ->
   (exists groups rest m,
       generate_groups_from_global_pool fuel global_pool days tasks_per_day E s
       = (Done groups, after_draws m s) /\
       length groups = days /\
       Forall (fun group => length group = tasks_per_day) groups /\
       Permutation global_pool (concat groups ++ rest) /\
       length rest = length global_pool - days * tasks_per_day /\
       days * tasks_per_day <= m /\
       (length global_pool <= setsize (days * tasks_per_day) ->
        m = days * tasks_per_day) /\
       (forall T, covers E s T (length global_pool) ->
                  0 < days * tasks_per_day -> m <= T)) \/
   (exists m,
       generate_groups_from_global_pool fuel global_pool days tasks_per_day E s
       = (OutOfFuel, after_draws m s) /\
       setsize (days * tasks_per_day) < length global_pool /\
       forall T, covers E s T (length global_pool) -> fuel < T)).
Proof.
  unfold generate_groups_from_global_pool. split; intro Hsize.
  - bind_raise (@random_sample_Raise A fuel global_pool _ E s Hsize). reflexivity.
  - destruct (@random_sample_outcome A fuel global_pool (days * tasks_per_day) E s
                Hsize)
      as [(sampled & rest & m & Hrun & Hlen & Hperm & Hm & Hsmall & Hcover)
         | (m & Hrun & Hlarge & Hcover)].
    + left. bind_step Hrun. eexists. exists rest, m. split; [reflexivity |].
      split; [now rewrite length_map, length_seq |].
      split; [| split; [| split]].
      * apply Forall_forall. intros group Hin.
        apply in_map_iff in Hin. destruct Hin as (i & <- & Hi).
        apply in_seq in Hi. rewrite slice_length.
        -- lia.
        -- rewrite Hlen. apply Nat.mul_le_mono_r. lia.
      * now rewrite concat_slices.
      * apply Permutation_length in Hperm. rewrite length_app in Hperm. lia.
      * now repeat split.
    + right. exists m. bind_out Hrun. now repeat split.
Qed.

(** ** More on the fallback generator *)

(** Each attempt adds at most one item. *)
Lemma fallback_loop_growth (destination : string) (count : nat) E :
  forall fuel fallbacks attempts s fallbacks' attempts' s',
    fallback_loop fuel destination count fallbacks attempts E s =
      (Done (fallbacks', attempts'), s') ->
    attempts <= attempts' /\
    length fallbacks' <= length fallbacks + (attempts' - attempts).
Proof.
  induction fuel as [| fuel IH]; intros fb att s fb' att' s' Hrun; simpl in Hrun;
    destruct ((length fb <? count) && (att <? count * 10))%bool;
    try discriminate;
    try (injection Hrun as <- <- <-; lia).
  apply bind_Done_inv in Hrun. destruct Hrun as (item & s1 & _ & Hrun).
  apply IH in Hrun. pose proof (set_add_length item fb). lia.
Qed.

Lemma generate_dynamic_fallback_Done (destination : string) (count : nat) E s :
  exists fallbacks attempts n,
    generate_dynamic_fallback destination count E s =
      (Done (set_order E fallbacks), after_draws n s) /\
    attempts <= count * 10 /\
    2 * attempts <= n <= 3 * attempts /\
    NoDup (set_order E fallbacks) /\
    Forall (synthetic destination) (set_order E fallbacks) /\
    (length (set_order E fallbacks) = count \/
     length (set_order E fallbacks) < count /\ attempts = count * 10) /\
    length (set_order E fallbacks) <= attempts /\
    (0 < attempts -> 1 <= length (set_order E fallbacks)).
Proof.
  destruct (@fallback_loop_Done destination count E (count * 10) [] 0 s
              ltac:(lia) ltac:(lia) (NoDup_nil _) ltac:(simpl; lia) (Forall_nil _))
    as (fb & att & n & Hrun & Hatt & Hn & Hnd & Hsyn & Hexit & _ & Hone).
  pose proof (set_order_perm E fb) as Hperm.
  pose proof (fallback_loop_growth _ _ _ _ _ _ _ Hrun) as [_ Hgrow].
  exists fb, att, n. rewrite (Permutation_length Hperm).
  split; [unfold generate_dynamic_fallback; bind_step Hrun; reflexivity |].
  repeat split; try (simpl in Hgrow; lia); try assumption.
  - eapply Permutation_NoDup; [symmetry; exact Hperm | assumption].
  - apply Forall_forall. intros item Hitem.
    eapply Forall_forall; [exact Hsyn |].
    eapply Permutation_in; eassumption.
Qed.

(** X7: asked for no item, [generate_dynamic_fallback] returns the empty
    list and draws nothing; asked for one or more, it never returns the
    empty list, and asked for exactly one it returns exactly one. *)
Theorem generate_dynamic_fallback_edges (destination : string) E s :
  generate_dynamic_fallback destination 0 E s = (Done [], s) /\
  (forall count, 1 <= count ->
     exists fallbacks n,
       generate_dynamic_fallback destination count E s =
         (Done fallbacks, after_draws n s) /\
       1 <= length fallbacks <= count /\ 2 <= n) /\
  (exists item n,
     generate_dynamic_fallback destination 1 E s = (Done [item], after_draws n s)).
Proof.
  assert (Hsome : forall count, 1 <= count ->
            exists fallbacks n,
              generate_dynamic_fallback destination count E s =
                (Done fallbacks, after_draws n s) /\
              1 <= length fallbacks <= count /\ 2 <= n).
  { intros count Hcount.
    destruct (generate_dynamic_fallback_Done destination count E s)
      as (fb & att & n & Hrun & Hatt & Hn & _ & _ & Hexit & Hgrow & Hone).
    exists (set_order E fb), n. split; [exact Hrun |].
    destruct Hexit as [Hfull | [Hshort Hused]]; lia. }
  split; [| split; [exact Hsome |]].
  - unfold generate_dynamic_fallback. simpl. unfold bind, ret, list_of_set.
    pose proof (set_order_perm E []) as Hperm.
    apply Permutation_sym, Permutation_nil in Hperm. now rewrite Hperm.
  - destruct (Hsome 1 (le_n 1)) as (fallbacks & n & Hrun & Hlen & _).
    destruct fallbacks as [| item [| ? ?]]; simpl in Hlen; try lia.
    now exists item, n.
Qed.

Lemma synthetic_listed (destination item : string) :
  synthetic destination item -> In item (all_fallbacks destination).
Proof.
  intros (tpl & prefix & Htpl & Hprefix & ->).
  unfold all_fallbacks. apply in_flat_map. exists tpl. split; [exact Htpl |].
  apply (in_map (fun prefix => format tpl (prefix ++ destination)%string)).
  unfold prefixes.
  destruct Hprefix as [-> | (adj & Hadj & ->)]; [now left | right].
  now apply (in_map (fun adj => (adj ++ " ")%string)).
Qed.

(** X8: there are 20 templates and 12 prefixes, so
    [generate_dynamic_fallback] never returns more than 240 strings: asked
    for more, it uses up all its attempts and comes back short. *)
Theorem generate_dynamic_fallback_capacity (destination : string) (count : nat) E s :
  exists fallbacks n,
    generate_dynamic_fallback destination count E s =
      (Done fallbacks, after_draws n s) /\
    length fallbacks <= 240 /\
    incl fallbacks (all_fallbacks destination) /\
    (240 < count -> length fallbacks < count /\ 20 * count <= n).
Proof.
  destruct (generate_dynamic_fallback_Done destination count E s)
    as (fb & att & n & Hrun & Hatt & Hn & Hnd & Hsyn & Hexit & _ & _).
  assert (Hincl : incl (set_order E fb) (all_fallbacks destination)).
  { intros item Hitem. apply synthetic_listed.
    revert item Hitem. now apply Forall_forall. }
  assert (Hcap : length (set_order E fb) <= 240).
  { replace 240 with (length (all_fallbacks destination)) by reflexivity.
    now apply NoDup_incl_length. }
  exists (set_order E fb), n. repeat split; try assumption; lia.
Qed.

(** ** More on the annotations *)

Lemma annotated_tipped start_location destination budget d :
  annotated start_location destination budget d (tipped budget d).
Proof.
  split; [reflexivity |]. exists [], []. simpl.
  repeat split; try (intros x []); lia.
Qed.

Lemma Forall2_map_r {A B} (R : A -> B -> Prop) (f : A -> B) (l : list A) :
  (forall x, R x (f x)) -> Forall2 R l (map f l).
Proof. intro HR. induction l; simpl; constructor; auto. Qed.

(** The annotations with the flight lines, for any itinerary of at least
    one day. *)
Lemma annotate_with_flights (start_location destination : string) (budget : Z)
    (first : day) (rest : list day) E s :
  flights_wanted E start_location destination = true ->
  exists itinerary',
    annotate start_location destination budget (first :: rest) E s =
      (Done itinerary', s) /\
    Forall2 (annotated start_location destination budget) (first :: rest) itinerary' /\
    (exists acts, Activities (hd first itinerary') =
                  PStr (departure_message start_location destination) :: acts).
Proof.
  intro Hyes. unfold annotate. rewrite Hyes.
  set (dep := PStr (departure_message start_location destination)).
  set (back := PStr (return_message start_location destination)).
  set (tip := PStr (budget_line budget)).
  destruct (exists_last (l := first :: rest) ltac:(discriminate))
    as (front & last & Hsplit).
  destruct front as [| first' middle].
  - simpl in Hsplit. injection Hsplit as -> ->.
    eexists. split; [cbn; reflexivity |]. split.
    + constructor; [| constructor]. split; [reflexivity |].
      exists [dep], [back]. cbn.
      repeat split; try (intros x Hx; exact Hx); try lia.
      now rewrite <- app_assoc.
    + cbn. eexists. reflexivity.
  - simpl in Hsplit. injection Hsplit as <- ->.
    assert (Hboth :
      (itinerary <- prepend_first dep (first :: middle ++ [last]) ;;
       append_last back itinerary) E s =
      (Done ((with_activities first (dep :: Activities first) :: middle)
             ++ [with_activities last (Activities last ++ [back])]), s)).
    { cbn [prepend_first]. unfold bind, ret. cbv beta iota.
      rewrite app_comm_cons. apply append_last_app. }
    bind_step Hboth. eexists. split; [reflexivity |]. split.
    + cbn [app map]. constructor.
      * split; [reflexivity |]. exists [dep], []. cbn.
        repeat split; try (intros x Hx; exact Hx); try (intros x []); lia.
      * rewrite map_app. apply Forall2_app.
        -- apply Forall2_map_r. intro d. apply annotated_tipped.
        -- constructor; [| constructor]. split; [reflexivity |].
           exists [], [back]. cbn.
           repeat split; try (intros x Hx; exact Hx); try (intros x []); try lia.
           now rewrite <- app_assoc.
    + cbn. eexists. reflexivity.
Qed.

(** What the annotations do to any itinerary. *)
Lemma annotate_outcome (start_location destination : string) (budget : Z)
    (itinerary : list day) E s :
  (exists itinerary',
      annotate start_location destination budget itinerary E s = (Done itinerary', s) /\
      Forall2 (annotated start_location destination budget) itinerary itinerary') \/
  (annotate start_location destination budget itinerary E s = (Raise IndexError, s) /\
   itinerary = [] /\ flights_wanted E start_location destination = true).
Proof.
  destruct (flights_wanted E start_location destination) eqn:Hguard.
  - destruct itinerary as [| first rest].
    + right. unfold annotate. rewrite Hguard. now repeat split.
    + left. destruct (@annotate_with_flights start_location destination budget
                        first rest E s Hguard)
        as (itinerary' & Hrun & Hshape & _).
      now exists itinerary'.
  - left. exists (map (tipped budget) itinerary). split.
    + unfold annotate. rewrite Hguard. reflexivity.
    + apply Forall2_map_r. intro d. apply annotated_tipped.
Qed.

(** X9: the annotations never change the number of days, their numbers or
    the order of the activities sampled for a day: each day gets at most
    the departure line in front, at most the return line behind, and the
    budget line last.  They fail, with [IndexError], only on an empty
    itinerary for which the flight lines are wanted, and they touch neither
    the generator nor the network nor the page. *)
Theorem annotate_keeps_days (start_location destination : string) (budget : Z)
    (itinerary : list day) E s :
  (exists itinerary',
      annotate start_location destination budget itinerary E s = (Done itinerary', s) /\
      length itinerary' = length itinerary /\
      map Day itinerary' = map Day itinerary /\
      Forall2 (annotated start_location destination budget) itinerary itinerary' /\
      Forall (fun d' => exists acts,
                Activities d' = acts ++ [PStr (budget_line budget)]) itinerary') \/
  (annotate start_location destination budget itinerary E s = (Raise IndexError, s) /\
   itinerary = [] /\ flights_wanted E start_location destination = true).
Proof.
  destruct (annotate_outcome start_location destination budget itinerary E s)
    as [(itinerary' & Hrun & Hshape) | Hraise]; [left | now right].
  exists itinerary'. split; [exact Hrun |].
  split; [symmetry; eapply Forall2_length; exact Hshape |].
  split; [| split; [exact Hshape |]].
  - clear Hrun.
    induction Hshape as [| d d' l l' [Hday _] _ IH]; simpl; [reflexivity |].
    now rewrite Hday, IH.
  - clear Hrun.
    induction Hshape as [| d d' l l' [_ (before & after & Hacts & _)] _ IH];
      constructor; [| exact IH].
    exists (before ++ Activities d ++ after). rewrite Hacts.
    now rewrite <- !app_assoc.
Qed.

(** ** More on the live source *)

Lemma append_new_incl {A} `{PyEq A} (x y : A) (l : list A) :
  In y (append_new x l) -> In y l \/ y = x.
Proof.
  unfold append_new. destruct (py_in x l); [now left |].
  rewrite in_app_iff. simpl. intuition.
Qed.

Lemma dedup_into_incl {A} `{PyEq A} (tasks : list A) :
  forall acc y, In y (dedup_into acc tasks) -> In y acc \/ In y tasks.
Proof.
  induction tasks as [| x tasks IH]; intros acc y Hy; simpl in *; [now left |].
  apply IH in Hy. destruct Hy as [Hy | Hy]; [| now right; right].
  apply append_new_incl in Hy. destruct Hy as [Hy | ->]; [now left | right; now left].
Qed.

(** Whatever [==] is, each item the loop adds was not yet there. *)
Lemma dedup_into_extends {A} `{PyEq A} (tasks : list A) :
  forall acc, exists added,
    dedup_into acc tasks = acc ++ added /\
    forall front back x,
      added = front ++ x :: back -> py_in x (acc ++ front) = false.
Proof.
  induction tasks as [| x tasks IH]; intro acc; simpl.
  - exists []. split; [now rewrite app_nil_r |].
    intros front back y Hsplit. destruct front; discriminate.
  - destruct (IH (append_new x acc)) as (added & Heq & Hfresh).
    unfold append_new in *. destruct (py_in x acc) eqn:Hx.
    + exists added. now split.
    + exists (x :: added). split; [now rewrite Heq, <- app_assoc |].
      intros front back y Hsplit. destruct front as [| z front].
      * simpl in Hsplit. injection Hsplit as <- _. now rewrite app_nil_r.
      * simpl in Hsplit. injection Hsplit as <- Hadded.
        specialize (Hfresh front back y Hadded).
        now rewrite <- app_assoc in Hfresh.
Qed.

Lemma dedup_into_fresh {A} `{PyEq A} (added : list A) :
  forall acc,
    (forall front back x,
        added = front ++ x :: back -> py_in x (acc ++ front) = false) ->
    dedup_into acc added = acc ++ added.
Proof.
  induction added as [| x added IH]; intros acc Hfresh; simpl;
    [now rewrite app_nil_r |].
  pose proof (Hfresh [] added x eq_refl) as Hx. rewrite app_nil_r in Hx.
  unfold append_new. rewrite Hx. rewrite IH; [now rewrite <- app_assoc |].
  intros front back y Hsplit. rewrite <- app_assoc. simpl.
  apply (Hfresh (x :: front) back y). simpl. now rewrite Hsplit.
Qed.

(** Running the deduplication loop on its own result changes nothing, for
    any element type. *)
Lemma dedup_twice {A} `{PyEq A} (tasks : list A) :
  dedup (dedup tasks) = dedup tasks.
Proof.
  unfold dedup. destruct (dedup_into_extends tasks []) as (added & Heq & Hfresh).
  simpl in Heq. rewrite Heq. exact (@dedup_into_fresh A _ added [] Hfresh).
Qed.

Lemma top_up_Done_incl {A} `{PyEq A} (fallback_list : list A) (required : nat) E :
  forall fuel unique_tasks s pool s',
    top_up fuel fallback_list required unique_tasks E s = (Done pool, s') ->
    forall y, In y pool -> In y unique_tasks \/ In y fallback_list.
Proof.
  induction fuel as [| fuel IH]; intros u s pool s' Hrun y Hy; simpl in Hrun;
    destruct (length u <? required); try discriminate;
    try (injection Hrun as <- <-; now left).
  unfold randrange in Hrun.
  destruct (Nat.eqb_spec (length fallback_list) 0) as [Hz | Hnz];
    [discriminate |].
  bind_step_in (randbelow_Done (length fallback_list) E s) Hrun.
  destruct (subscript_Done fallback_list E (after_draws 1 s)
              (Nat.mod_upper_bound (draws E (drawn s)) _ Hnz))
    as (c & Hnth & Hsub).
  bind_step_in Hsub Hrun.
  destruct (IH _ _ _ _ Hrun y Hy) as [Hin | Hin]; [| now right].
  apply append_new_incl in Hin. destruct Hin as [Hin | ->]; [now left | right].
  eapply nth_error_In; eassumption.
Qed.

Lemma groups_to_itinerary (groups : list (list pyval)) (duration : nat)
    (P : pyval -> Prop) :
  length groups = duration ->
  Forall (fun group => length group = 3) groups ->
  (forall a, In a (concat groups) -> P a) ->
  map Day (itinerary_of groups) = seq 1 duration /\
  Forall (fun d => length (Activities d) = 3 /\ Forall P (Activities d))
         (itinerary_of groups).
Proof.
  intros Hcount Hthree HP.
  destruct (itinerary_of_shape groups) as [Hacts Hdays].
  split; [now rewrite Hdays, Hcount |].
  apply Forall_forall. intros d Hd.
  assert (Hin : In (Activities d) groups)
    by (rewrite <- Hacts; exact (in_map Activities _ _ Hd)).
  split; [rewrite Forall_forall in Hthree; now apply Hthree |].
  apply Forall_forall. intros a Ha. apply HP, in_concat.
  exists (Activities d). now split.
Qed.

(** Whatever [==] is, the pool the top-up loop returns has [required] items
    when the candidates were fewer, and is the candidates otherwise. *)
Lemma top_up_Done_length {A} `{PyEq A} (fallback_list : list A) (required : nat) E :
  forall fuel unique_tasks s pool s',
    top_up fuel fallback_list required unique_tasks E s = (Done pool, s') ->
    length pool = Nat.max required (length unique_tasks).
Proof.
  induction fuel as [| fuel IH]; intros u s pool s' Hrun; simpl in Hrun;
    destruct (Nat.ltb_spec (length u) required) as [Hlt | Hge];
    try discriminate;
    try (injection Hrun as <- <-; lia).
  unfold randrange in Hrun.
  destruct (Nat.eqb_spec (length fallback_list) 0) as [Hz | Hnz];
    [discriminate |].
  bind_step_in (randbelow_Done (length fallback_list) E s) Hrun.
  destruct (subscript_Done fallback_list E (after_draws 1 s)
              (Nat.mod_upper_bound (draws E (drawn s)) _ Hnz))
    as (c & _ & Hsub).
  bind_step_in Hsub Hrun.
  apply IH in Hrun. pose proof (append_new_length c u). lia.
Qed.

(** The fetch on a reply that has something to loop over at index 1. *)
Lemma fetch_live (fuel : nat) (destination : string) (duration : nat)
    E s status data tasks items :
  replies E (sent s) = Reply status (Some data) ->
  ~ 400 <= status < 600 ->
  (forall E s, py_subscript data 1 E s = (Done tasks, s)) ->
  (forall E s, py_iter tasks E s = (Done items, s)) ->
  (exists itinerary n,
      fetch_itinerary_from_wiki fuel destination duration E s =
        (Done itinerary, State (drawn s + n) (S (sent s)) (ui s)) /\
      map Day itinerary = seq 1 duration /\
      Forall (fun d => length (Activities d) = 3 /\
                       Forall (fun a => In a items \/ synthetic_activity destination a)
                              (Activities d))
             itinerary /\
      (duration * 3 <= length (dedup items) ->
       Forall (fun d => Forall (fun a => In a items) (Activities d)) itinerary)) \/
  ((exists s', fetch_itinerary_from_wiki fuel destination duration E s = (OutOfFuel, s')) /\
   (length (dedup items) < duration * 3 \/
    setsize (duration * 3) < length (dedup items))).
Proof.
  intros Hreply Hok Hsub Hiter.
  unfold fetch_itinerary_from_wiki, try_except.
  set (s1 := State (drawn s) (S (sent s)) (ui s)).
  assert (Hget : requests_get E s = (Done (status, Some data), s1))
    by (unfold requests_get; now rewrite Hreply).
  bind_step Hget. bind_step (raise_for_status_ok E s1 Hok).
  assert (Hjson : response_json (Some data) E s1 = (Done data, s1)) by reflexivity.
  bind_step Hjson. bind_step (Hsub E s1). bind_step (Hiter E s1).
  destruct (get_fallback_list_Done destination E s1)
    as (fallback_list & n & Hfb & _ & Hsyn & Hone & _).
  bind_step Hfb.
  assert (Hne : map PStr fallback_list <> [])
    by (destruct fallback_list; [simpl in Hone; lia | discriminate]).
  unfold create_global_pool. rewrite dedup_twice.
  destruct (top_up_Done_or_OutOfFuel (duration * 3) E Hne fuel (dedup items)
              (after_draws n s1)) as [(pool & n1 & Hpool & Hlen) | (s' & Hpool)].
  - bind_step Hpool.
    pose proof (top_up_Done_length _ _ _ _ _ _ Hpool) as Hsize.
    destruct (@generate_groups_outcome pyval fuel pool duration E
                (after_draws n1 (after_draws n s1)) Hlen)
      as [(sampled & rest & m & Hgroups & Hsampled & Hperm & _)
         | (m & Hgroups & Hlarge & _)].
    + left. bind_step Hgroups.
      destruct (groups_shape sampled duration Hsampled) as (Hcount & Hthree & Hcat).
      set (groups := map (fun i => slice sampled (i * 3) ((i + 1) * 3))
                         (seq 0 duration)) in *.
      assert (Hsampled_pool : forall a, In a (concat groups) -> In a pool).
      { intros a Ha. rewrite Hcat in Ha.
        eapply Permutation_in; [symmetry; exact Hperm |].
        apply in_or_app. now left. }
      assert (Hfrom : forall a, In a pool ->
                        In a items \/ synthetic_activity destination a).
      { intros a Ha.
        destruct (top_up_Done_incl _ _ _ _ _ _ Hpool a Ha) as [Hin | Hin].
        - left. apply dedup_into_incl in Hin. now destruct Hin.
        - right. apply in_map_iff in Hin. destruct Hin as (item & <- & Hitem).
          exists item. split; [reflexivity |].
          rewrite Forall_forall in Hsyn. now apply Hsyn. }
      destruct (@groups_to_itinerary groups duration
                  (fun a => In a items \/ synthetic_activity destination a)
                  Hcount Hthree (fun a Ha => Hfrom a (Hsampled_pool a Ha)))
        as [Hdays Hacts].
      eexists. exists (n + n1 + m).
      split; [| split; [exact Hdays | split; [exact Hacts |]]].
      * unfold ret, s1, after_draws. cbn [drawn sent ui].
        apply f_equal2; [reflexivity | f_equal; lia].
      * intro Henough.
        rewrite (top_up_enough (map PStr fallback_list) (dedup items) fuel E
                   (after_draws n s1) Henough) in Hpool.
        injection Hpool as <- _.
        destruct (@groups_to_itinerary groups duration (fun a => In a items)
                    Hcount Hthree)
          as [_ Hreal].
        -- intros a Ha. apply Hsampled_pool in Ha.
           apply dedup_into_incl in Ha. now destruct Ha.
        -- eapply Forall_impl; [| exact Hreal]. now intros d [_ Hd].
    + right. split.
      * eexists. bind_out Hgroups. reflexivity.
      * right. pose proof (setsize_at_least (duration * 3)). lia.
  - right. split.
    + exists s'. bind_out Hpool. reflexivity.
    + left. destruct (Nat.lt_ge_cases (length (dedup items)) (duration * 3))
        as [Hlt | Hge]; [exact Hlt | exfalso].
      rewrite (top_up_enough (map PStr fallback_list) (dedup items) fuel E
                 (after_draws n s1) Hge) in Hpool.
      discriminate.
Qed.

(** X10: on a reply whose status is no 4xx or 5xx code and whose body is a
    list with a list of suggestions at index 1, the fetch raises nothing
    and reports nothing.  When it returns, it has sent its one request and
    returns one day for each day of the trip, numbered from 1, each with
    three activities that are suggestions of the reply or items of the
    fallback generator, and suggestions only when there were
    [duration * 3] different ones or more.  It is still running when the
    fuel ends only in its top-up loop, the different suggestions being fewer
    than [duration * 3], or in the redrawing loop of [random.sample], the
    different suggestions being more than [setsize (duration * 3)]: with a
    number of different suggestions from [duration * 3] to
    [setsize (duration * 3)] it returns, whatever is drawn and whatever the
    fuel. *)
Theorem fetch_live_itinerary (fuel : nat) (destination : string) (duration : nat)
    E s status query items more :
  replies E (sent s) = Reply status (Some (PList (query :: PList items :: more))) ->
  ~ 400 <= status < 600 ->
  (exists itinerary n,
      fetch_itinerary_from_wiki fuel destination duration E s =
        (Done itinerary, State (drawn s + n) (S (sent s)) (ui s)) /\
      map Day itinerary = seq 1 duration /\
      Forall (fun d => length (Activities d) = 3 /\
                       Forall (fun a => In a items \/ synthetic_activity destination a)
                              (Activities d))
             itinerary /\
      (duration * 3 <= length (dedup items) ->
       Forall (fun d => Forall (fun a => In a items) (Activities d)) itinerary)) \/
  ((exists s', fetch_itinerary_from_wiki fuel destination duration E s = (OutOfFuel, s')) /\
   (length (dedup items) < duration * 3 \/
    setsize (duration * 3) < length (dedup items))).
Proof.
  intros Hreply Hok.
  apply (@fetch_live fuel destination duration E s status
           (PList (query :: PList items :: more)) (PList items) items Hreply Hok);
    reflexivity.
Qed.

Lemma fetch_live_itinerary_witness :
  exists itinerary n,
    fetch_itinerary_from_wiki 0 "Lima" 1
      (replying_env
         (Reply 200 (Some (PList [ PStr "Lima tourist attractions";
                                   PList [ PStr "Plaza Mayor"; PStr "Huaca Pucllana";
                                           PStr "Larco Museum" ] ]))))
      initial_state = (Done itinerary, State (0 + n) 1 []) /\
    map Day itinerary = seq 1 1 /\
    Forall (fun d => Forall (fun a => In a [ PStr "Plaza Mayor"; PStr "Huaca Pucllana";
                                            PStr "Larco Museum" ]) (Activities d))
           itinerary.
Proof.
  destruct (@fetch_live_itinerary 0 "Lima"%string 1
              (replying_env
                 (Reply 200 (Some (PList [ PStr "Lima tourist attractions";
                                           PList [ PStr "Plaza Mayor";
                                                   PStr "Huaca Pucllana";
                                                   PStr "Larco Museum" ] ]))))
              initial_state 200 (PStr "Lima tourist attractions")
              [ PStr "Plaza Mayor"; PStr "Huaca Pucllana"; PStr "Larco Museum" ] []
              eq_refl ltac:(lia))
    as [(itinerary & n & Hrun & Hdays & _ & Hreal) | [_ Hsize]].
  - exists itinerary, n. split; [exact Hrun |]. split; [exact Hdays |].
    apply Hreal. vm_compute. lia.
  - exfalso. vm_compute in Hsize. lia.
Defined.

(** ** More on the handler *)

(** The steps shared by the preset branch and the fallback branch: from the
    candidates to the itinerary. *)
Lemma pool_itinerary_outcome (fuel : nat) (tasks : list string)
    (destination : string) (duration : nat) E s :
  (exists itinerary pool n,
      (fallback_list <- get_fallback_list destination ;;
       global_pool <- create_global_pool fuel tasks fallback_list destination
                        (duration * 3) ;;
       groups <- generate_groups_from_global_pool fuel global_pool duration 3 ;;
       ret (itinerary_of (map (map PStr) groups))) E s
      = (Done itinerary, after_draws n s) /\
      map Day itinerary = seq 1 duration /\
      Forall (fun d => length (Activities d) = 3 /\
                       Forall (fun a => exists item, a = PStr item /\ In item pool)
                              (Activities d))
             itinerary /\
      NoDup (concat (map Activities itinerary)) /\
      (exists fallback_list n0,
          get_fallback_list destination E s = (Done fallback_list, after_draws n0 s) /\
          (duration * 3 <= length (dedup tasks) -> pool = dedup tasks) /\
          forall item, In item pool -> In item tasks \/ In item fallback_list)) \/
  ((exists s',
       (fallback_list <- get_fallback_list destination ;;
        global_pool <- create_global_pool fuel tasks fallback_list destination
                         (duration * 3) ;;
        groups <- generate_groups_from_global_pool fuel global_pool duration 3 ;;
        ret (itinerary_of (map (map PStr) groups))) E s
       = (OutOfFuel, s')) /\
   (length (dedup tasks) < duration * 3 \/
    setsize (duration * 3) < length (dedup tasks))).
Proof.
  destruct (get_fallback_list_Done destination E s)
    as (fallback_list & n & Hfb & _ & _ & Hone & _).
  bind_step Hfb.
  assert (Hne : fallback_list <> [])
    by (destruct fallback_list; [simpl in Hone; lia | discriminate]).
  unfold create_global_pool.
  destruct (top_up_Done_or_OutOfFuel (duration * 3) E Hne fuel (dedup tasks)
              (after_draws n s)) as [(pool & n1 & Hpool & Hlen) | (s' & Hpool)].
  - bind_step Hpool.
    destruct (top_up_Done_inv string_eq_spec _ _ _ _ _ Hpool
                (dedup_NoDup string_eq_spec tasks))
      as (extra & _ & Hshape & Hextra & Hnd & Hsize & _).
    destruct (@generate_groups_outcome string fuel pool duration E
                (after_draws n1 (after_draws n s)) Hlen)
      as [(sampled & rest & m & Hgroups & Hsampled & Hperm & _)
         | (m & Hgroups & Hlarge & _)].
    + left. bind_step Hgroups.
      destruct (groups_shape sampled duration Hsampled) as (Hcount & Hthree & Hcat).
      set (groups := map (fun i => slice sampled (i * 3) ((i + 1) * 3))
                         (seq 0 duration)) in *.
      assert (Hcat' : concat (map (map PStr) groups) = map PStr sampled)
        by (now rewrite <- concat_map, Hcat).
      destruct (@groups_to_itinerary (map (map PStr) groups) duration
                  (fun a => exists item, a = PStr item /\ In item pool))
        as [Hdays Hacts].
      * now rewrite length_map.
      * apply Forall_forall. intros group Hin.
        apply in_map_iff in Hin. destruct Hin as (g & <- & Hg).
        rewrite length_map. rewrite Forall_forall in Hthree. now apply Hthree.
      * intros a Ha. rewrite Hcat' in Ha.
        apply in_map_iff in Ha. destruct Ha as (item & <- & Hitem).
        exists item. split; [reflexivity |].
        eapply Permutation_in; [symmetry; exact Hperm |].
        apply in_or_app. now left.
      * exists (itinerary_of (map (map PStr) groups)), pool, (n + n1 + m).
        split; [| split; [exact Hdays | split; [exact Hacts | split]]].
        -- unfold ret. rewrite !after_draws_add. now rewrite Nat.add_assoc.
        -- rewrite (proj1 (itinerary_of_shape (map (map PStr) groups))), Hcat'.
           assert (Hnds : NoDup sampled).
           { apply (Permutation_NoDup Hperm) in Hnd.
             eapply NoDup_app_remove_r; exact Hnd. }
           clear - Hnds. induction Hnds as [| x l Hx _ IH]; simpl; constructor; auto.
           rewrite in_map_iff. intros (y & Hy & Hin). injection Hy as ->.
           contradiction.
        -- exists fallback_list, n. split; [exact Hfb |]. split.
           ++ intro Henough.
              rewrite (top_up_enough fallback_list (dedup tasks) fuel E
                         (after_draws n s) Henough) in Hpool.
              now injection Hpool as <- _.
           ++ intros item Hitem. rewrite Hshape in Hitem.
              apply in_app_or in Hitem. destruct Hitem as [Hitem | Hitem].
              ** left. now apply (dedup_In string_eq_spec).
              ** right. rewrite Forall_forall in Hextra. now apply Hextra.
    + right. split.
      * eexists. bind_out Hgroups. reflexivity.
      * right. pose proof (setsize_at_least (duration * 3)). lia.
  - right. split.
    + exists s'. bind_out Hpool. reflexivity.
    + left. destruct (Nat.lt_ge_cases (length (dedup tasks)) (duration * 3))
        as [Hlt | Hge]; [exact Hlt | exfalso].
      rewrite (top_up_enough fallback_list (dedup tasks) fuel E
                 (after_draws n s) Hge) in Hpool.
      discriminate.
Qed.

(** Every outcome of the fetch: it raises nothing. *)
Lemma fetch_outcome (fuel : nat) (destination : string) (duration : nat) E s :
  (exists itinerary s',
      fetch_itinerary_from_wiki fuel destination duration E s = (Done itinerary, s') /\
      sent s' = S (sent s) /\
      (itinerary = [] \/
       map Day itinerary = seq 1 duration /\
       Forall (fun d => length (Activities d) = 3) itinerary)) \/
  (exists s', fetch_itinerary_from_wiki fuel destination duration E s = (OutOfFuel, s')).
Proof.
  destruct (fetch_failure_or_items (replies E (sent s)))
    as [(e & Hfail) | (status & data & tasks & items & Hreply & Hok & Hsub & Hiter)].
  - left. eexists. eexists. split; [exact (fetch_fails fuel destination duration E s Hfail) |].
    split; [reflexivity | now left].
  - destruct (@fetch_live fuel destination duration E s status data tasks items
                Hreply Hok Hsub Hiter)
      as [(itinerary & n & Hrun & Hdays & Hacts & _) | [(s' & Hrun) _]].
    + left. eexists. eexists. split; [exact Hrun |]. split; [reflexivity |].
      right. split; [exact Hdays |].
      eapply Forall_impl; [| exact Hacts]. now intros d [Hd _].
    + right. now exists s'.
Qed.

(** Every outcome of the construction of the itinerary: it raises nothing
    either. *)
Lemma build_itinerary_outcome (fuel : nat) (destination : string) (duration : nat) E s :
  (exists itinerary s',
      build_itinerary fuel destination duration E s = (Done itinerary, s') /\
      map Day itinerary = seq 1 duration /\
      Forall (fun d => length (Activities d) = 3) itinerary /\
      sent s <= sent s' <= S (sent s)) \/
  (exists s', build_itinerary fuel destination duration E s = (OutOfFuel, s')).
Proof.
  unfold build_itinerary.
  destruct (dict_get preset_itineraries destination) as [base_points |].
  - assert (Hset : forall candidates,
               list_of_set candidates E s = (Done (set_order E candidates), s))
      by reflexivity.
    bind_step (Hset (set_of (base_points ++ extra_tasks_for destination))).
    destruct (pool_itinerary_outcome fuel
                (set_order E (set_of (base_points ++ extra_tasks_for destination)))
                destination duration E s)
      as [(itinerary & pool & n & Hrun & Hdays & Hacts & _) | [(s' & Hrun) _]].
    + left. exists itinerary, (after_draws n s). split; [exact Hrun |].
      split; [exact Hdays |]. split; [| simpl; lia].
      eapply Forall_impl; [| exact Hacts]. now intros d [Hd _].
    + right. now exists s'.
  - destruct (fetch_outcome fuel destination duration E s)
      as [(fetched & s1 & Hfetch & Hsent & Hshape) | (s' & Hfetch)].
    + bind_step Hfetch. destruct fetched as [| d fetched].
      * set (s2 := State (drawn s1) (sent s1) (ui s1 ++ [st_warning])).
        assert (Hwarn : report st_warning E s1 = (Done tt, s2)) by reflexivity.
        bind_step Hwarn.
        destruct (pool_itinerary_outcome fuel [] destination duration E s2)
          as [(itinerary & pool & n & Hrun & Hdays & Hacts & _) | [(s' & Hrun) _]].
        -- left. exists itinerary, (after_draws n s2). split; [exact Hrun |].
           split; [exact Hdays |]. split; [| simpl; lia].
           eapply Forall_impl; [| exact Hacts]. now intros d [Hd _].
        -- right. now exists s'.
      * left. exists (d :: fetched), s1. split; [reflexivity |].
        destruct Hshape as [Hnil | [Hdays Hacts]]; [discriminate |].
        split; [exact Hdays |]. split; [exact Hacts | lia].
    + right. exists s'. bind_out Hfetch. reflexivity.
Qed.

(** The annotations, day by day: day [i] of the result is day [i] of the
    itinerary with the departure line in front when the flight lines are
    wanted and it is the first day, the return line behind when they are
    wanted and it is the last day, and the budget line last. *)
Lemma annotate_days (start_location destination : string) (budget : Z)
    (built : list day) E s itinerary s' :
  annotate start_location destination budget built E s = (Done itinerary, s') ->
  s' = s /\
  length itinerary = length built /\
  forall i d, nth_error built i = Some d ->
    nth_error itinerary i =
    Some (with_activities d
            (flight_lines (flights_wanted E start_location destination && (i =? 0))
                          (departure_message start_location destination)
             ++ Activities d
             ++ flight_lines (flights_wanted E start_location destination
                              && (S i =? length built))
                             (return_message start_location destination)
             ++ [PStr (budget_line budget)])).
Proof.
  unfold annotate. destruct (flights_wanted E start_location destination) eqn:Hguard.
  - destruct built as [| first rest]; [discriminate |].
    set (dep := PStr (departure_message start_location destination)).
    set (back := PStr (return_message start_location destination)).
    destruct (exists_last (l := first :: rest) ltac:(discriminate))
      as (front & last & Hsplit).
    destruct front as [| first' middle].
    + simpl in Hsplit. injection Hsplit as -> ->. cbn.
      intro Hrun. injection Hrun as <- <-.
      split; [reflexivity |]. split; [reflexivity |].
      intros [| i] d Hd; cbn in Hd; [| destruct i; discriminate].
      injection Hd as <-. cbn. unfold with_activities. cbn.
      now rewrite <- app_assoc.
    + simpl in Hsplit. injection Hsplit as <- ->.
      assert (Hboth :
        (itinerary <- prepend_first dep (first :: middle ++ [last]) ;;
         append_last back itinerary) E s =
        (Done ((with_activities first (dep :: Activities first) :: middle)
               ++ [with_activities last (Activities last ++ [back])]), s)).
      { cbn [prepend_first]. unfold bind, ret. cbv beta iota.
        rewrite app_comm_cons. apply append_last_app. }
      bind_step Hboth. unfold ret. intro Hrun. injection Hrun as <- <-.
      split; [reflexivity |].
      split; [cbn; now rewrite !length_map, !length_app |].
      intros i d Hd. cbn [length]. rewrite length_app. cbn [length].
      destruct i as [| i].
      * cbn in Hd. injection Hd as <-.
        replace (1 =? S (length middle + 1)) with false
          by (symmetry; apply Nat.eqb_neq; lia).
        cbn. unfold with_activities. cbn. reflexivity.
      * cbn [nth_error] in Hd.
        replace (S i =? 0) with false by reflexivity.
        rewrite andb_false_r. cbn [flight_lines app map nth_error].
        rewrite map_app. cbn [map].
        destruct (Nat.lt_ge_cases i (length middle)) as [Hin | Hlast].
        -- rewrite nth_error_app1 in Hd by exact Hin.
           rewrite nth_error_app1 by (now rewrite length_map).
           rewrite nth_error_map, Hd. cbn [option_map].
           replace (S (S i) =? S (length middle + 1)) with false
             by (symmetry; apply Nat.eqb_neq; lia).
           reflexivity.
        -- rewrite nth_error_app2 in Hd by exact Hlast.
           rewrite nth_error_app2 by (now rewrite length_map).
           rewrite length_map.
           destruct (i - length middle) as [| j] eqn:Hj;
             [| destruct j; discriminate].
           cbn in Hd. injection Hd as <-. cbn [nth_error].
           replace (S (S i) =? S (length middle + 1)) with true
             by (symmetry; apply Nat.eqb_eq; lia).
           cbn [andb flight_lines app]. unfold with_activities. cbn.
           now rewrite <- app_assoc.
  - cbn. intro Hrun. injection Hrun as <- <-.
    split; [reflexivity |]. split; [now rewrite length_map |].
    intros i d Hd. rewrite nth_error_map, Hd. reflexivity.
Qed.

(** X11: every outcome of the handler.  It returns an itinerary of one day
    for each day of the trip, day [i + 1] holding the departure line if the
    flight lines are wanted and it is the first day, then its three sampled
    activities, then the return line if the flight lines are wanted and it
    is the last day, then the budget line, and nothing else; together with
    the travel advice, at most one request having been sent.  Or one of its
    two loops without a bound is still running when the fuel ends: the
    top-up of the pool, or the redrawing of positions in [random.sample] on
    a pool too large to be copied.  Or, for a trip of no day with the flight
    lines wanted, it fails with [IndexError].  Nothing else is raised. *)
Theorem generate_itinerary_outcomes (fuel : nat) (destination start_location : string)
    (budget : Z) (duration : nat) (travel_date : date) E s :
  (exists itinerary s',
      generate_itinerary fuel destination start_location budget duration travel_date E s
      = (Done (itinerary, get_travel_advice destination travel_date), s') /\
      length itinerary = duration /\
      (forall i, i < duration ->
         exists a b c,
           nth_error itinerary i =
           Some {| Day := i + 1;
                   Activities :=
                     flight_lines (flights_wanted E start_location destination
                                   && (i =? 0))
                                  (departure_message start_location destination)
                     ++ [a; b; c]
                     ++ flight_lines (flights_wanted E start_location destination
                                      && (S i =? duration))
                                     (return_message start_location destination)
                     ++ [PStr (budget_line budget)] |}) /\
      sent s' <= S (sent s)) \/
  (exists s',
      generate_itinerary fuel destination start_location budget duration travel_date E s
      = (OutOfFuel, s')) \/
  (duration = 0 /\ flights_wanted E start_location destination = true /\
   exists s',
     generate_itinerary fuel destination start_location budget duration travel_date E s
     = (Raise IndexError, s')).
Proof.
  unfold generate_itinerary.
  destruct (build_itinerary_outcome fuel destination duration E s)
    as [(built & s1 & Hbuild & Hdays & Hacts & Hsent) | (s' & Hbuild)].
  - bind_step Hbuild.
    assert (Hcount : length built = duration)
      by (now rewrite <- (length_map Day), Hdays, length_seq).
    destruct (annotate_outcome start_location destination budget built E s1)
      as [(itinerary & Hrun & _) | (Hrun & -> & Hguard)].
    + left. bind_step Hrun. exists itinerary, s1. split; [reflexivity |].
      destruct (annotate_days _ _ _ _ _ _ Hrun) as (_ & Hlen & Hnth).
      split; [lia |]. split; [| lia].
      intros i Hi.
      destruct (nth_error built i) as [d |] eqn:Hd;
        [| apply nth_error_None in Hd; lia].
      assert (Hday : Day d = i + 1).
      { apply (map_nth_error Day) in Hd. rewrite Hdays in Hd.
        rewrite nth_error_nth' with (d := 0) in Hd by (now rewrite length_seq).
        rewrite seq_nth in Hd by exact Hi. injection Hd as <-. lia. }
      assert (Hthree : length (Activities d) = 3).
      { rewrite Forall_forall in Hacts. apply Hacts.
        eapply nth_error_In; exact Hd. }
      destruct (three_items _ Hthree) as (a & b & c & Habc).
      exists a, b, c. rewrite (Hnth i d Hd), Hcount.
      unfold with_activities. now rewrite Hday, Habc.
    + right. right. simpl in Hdays. destruct duration; [| discriminate].
      split; [reflexivity |]. split; [exact Hguard |].
      exists s1. bind_raise Hrun. reflexivity.
  - right. left. exists s'. bind_out Hbuild. reflexivity.
Qed.

Lemma set_of_In (l : list string) (x : string) : In x (set_of l) -> In x l.
Proof.
  unfold set_of.
  assert (Hgen : forall acc, In x (fold_left (fun s y => set_add y s) l acc) ->
                             In x acc \/ In x l).
  { induction l as [| y l IH]; intros acc Hx; simpl in *; [now left |].
    apply IH in Hx. destruct Hx as [Hx | Hx]; [| now right; right].
    apply set_add_In in Hx. destruct Hx as [Hx | ->]; [now left | right; now left]. }
  intro Hx. apply Hgen in Hx. now destruct Hx.
Qed.

(** Each preset has fifteen or sixteen different candidates. *)
Lemma preset_candidates (destination : string) (base_points : list string) :
  dict_get preset_itineraries destination = Some base_points ->
  15 <= length (set_of (base_points ++ extra_tasks_for destination)) <= 16.
Proof.
  unfold preset_itineraries. cbn [dict_get]. intro Hget.
  destruct (String.eqb_spec destination "Paris") as [-> | _];
    [injection Hget as <-; vm_compute; lia |].
  destruct (String.eqb_spec destination "Tokyo") as [-> | _];
    [injection Hget as <-; vm_compute; lia |].
  destruct (String.eqb_spec destination "New York") as [-> | _];
    [injection Hget as <-; vm_compute; lia |].
  destruct (String.eqb_spec destination "Goa") as [-> | _];
    [injection Hget as <-; vm_compute; lia | discriminate].
Qed.

(** X12: for a preset destination no request is sent and nothing is
    reported.  An itinerary returned has its days numbered from 1, three
    activities a day, no activity twice in the whole trip, each a candidate
    of the preset or an item of the fallback generator.  For a trip of five
    days or less the itinerary is returned whatever is drawn and whatever
    the fuel, and every activity is a candidate of the preset. *)
Theorem preset_itinerary (fuel : nat) (destination : string) (duration : nat)
    (base_points : list string) E s :
  dict_get preset_itineraries destination = Some base_points ->
  (forall itinerary s',
      build_itinerary fuel destination duration E s = (Done itinerary, s') ->
      sent s' = sent s /\ ui s' = ui s /\
      map Day itinerary = seq 1 duration /\
      NoDup (concat (map Activities itinerary)) /\
      Forall (fun d =>
                length (Activities d) = 3 /\
                Forall (fun a => exists item,
                          a = PStr item /\
                          (In item (base_points ++ extra_tasks_for destination) \/
                           synthetic destination item))
                       (Activities d))
             itinerary) /\
  (duration <= 5 ->
   exists itinerary n,
     build_itinerary fuel destination duration E s = (Done itinerary, after_draws n s) /\
     Forall (fun d =>
               Forall (fun a => exists item,
                         a = PStr item /\
                         In item (base_points ++ extra_tasks_for destination))
                      (Activities d))
            itinerary).
Proof.
  intro Hget. pose proof (preset_candidates destination Hget) as Hcount.
  unfold build_itinerary. rewrite Hget.
  set (candidates := set_of (base_points ++ extra_tasks_for destination)) in *.
  pose proof (set_order_perm E candidates) as Hperm.
  set (global_tasks := set_order E candidates) in *.
  assert (Hnd : NoDup global_tasks).
  { eapply Permutation_NoDup; [symmetry; exact Hperm |]. apply set_of_NoDup. }
  assert (Hfrom : forall item, In item global_tasks ->
                    In item (base_points ++ extra_tasks_for destination)).
  { intros item Hitem. apply set_of_In. eapply Permutation_in; eassumption. }
  assert (Hset : list_of_set candidates E s = (Done global_tasks, s)) by reflexivity.
  bind_step Hset.
  pose proof (dedup_idempotent string_eq_spec Hnd) as Hdedup.
  destruct (get_fallback_list_Done destination E s)
    as (fallback_list' & n' & Hfb' & _ & Hsyn & _).
  destruct (pool_itinerary_outcome fuel global_tasks destination duration E s)
    as [(itinerary & pool & n & Hrun & Hdays & Hacts & Hnodup
          & fallback_list & n0 & Hfb & Henough & Hpool)
       | [(s' & Hrun) Hfew]].
  - rewrite Hfb' in Hfb. injection Hfb as <- _.
    rewrite Hrun. split.
    + intros itinerary' s' Heq. injection Heq as <- <-.
      split; [reflexivity |]. split; [reflexivity |].
      split; [exact Hdays |]. split; [exact Hnodup |].
      eapply Forall_impl; [| exact Hacts].
      intros d [Hthree Hitems]. split; [exact Hthree |].
      eapply Forall_impl; [| exact Hitems].
      intros a (item & -> & Hitem). exists item. split; [reflexivity |].
      destruct (Hpool item Hitem) as [Hin | Hin]; [left; now apply Hfrom | right].
      rewrite Forall_forall in Hsyn. now apply Hsyn.
    + intro Hshort. exists itinerary, n. split; [reflexivity |].
      assert (Hpool' : pool = global_tasks).
      { rewrite <- Hdedup. apply Henough. rewrite Hdedup.
        rewrite (Permutation_length Hperm). lia. }
      subst pool.
      eapply Forall_impl; [| exact Hacts].
      intros d [_ Hitems].
      eapply Forall_impl; [| exact Hitems].
      intros a (item & -> & Hitem). exists item. split; [reflexivity |].
      now apply Hfrom.
  - rewrite Hrun. split; [intros itinerary s'' Heq; discriminate |].
    intro Hshort. exfalso. rewrite Hdedup in Hfew.
    rewrite (Permutation_length Hperm) in Hfew.
    pose proof (setsize_at_least (duration * 3)). lia.
Qed.

Lemma preset_itinerary_witness :
  exists itinerary n,
    build_itinerary 0 "Paris" 5 counting_env initial_state =
      (Done itinerary, after_draws n initial_state) /\
    length itinerary = 5.
Proof.
  destruct (dict_get preset_itineraries "Paris") as [base_points |] eqn:Hget;
    [| discriminate].
  destruct (proj2 (@preset_itinerary 0 "Paris"%string 5 base_points counting_env
                     initial_state Hget) (le_n 5))
    as (itinerary & n & Hrun & _).
  exists itinerary, n. split; [exact Hrun |].
  destruct (proj1 (@preset_itinerary 0 "Paris"%string 5 base_points counting_env
                     initial_state Hget) itinerary _ Hrun)
    as (_ & _ & Hdays & _).
  rewrite <- (length_map Day), Hdays. reflexivity.
Defined.

(** ** More on the travel advice *)

Lemma starts_with_sound (p : string) :
  forall s, starts_with p s = true -> exists post, s = (p ++ post)%string.
Proof.
  induction p as [| a p IH]; intros s Hs; simpl in *; [now exists s |].
  destruct s as [| b s]; [discriminate |].
  apply andb_true_iff in Hs. destruct Hs as [Hab Hs].
  apply Ascii.eqb_eq in Hab. subst b.
  destruct (IH s Hs) as (post & ->). now exists post.
Qed.

Lemma containsb_sound (s sub : string) :
  containsb s sub = true -> contains s sub.
Proof.
  induction s as [| c s IH]; simpl; intro Hs.
  - rewrite orb_false_r in Hs. apply starts_with_sound in Hs.
    destruct Hs as (post & Hpost). now exists ""%string, post.
  - apply orb_true_iff in Hs. destruct Hs as [Hs | Hs].
    + apply starts_with_sound in Hs. destruct Hs as (post & Hpost).
      now exists ""%string, post.
    + destruct (IH Hs) as (pre & post & ->).
      now exists (String c pre), post.
Qed.

(** X13: whatever the destination and the date, the weather advice names
    the month of the date and the destination; for a destination outside
    the four presets the language advice names the destination too. *)
Theorem advice_names_month_and_destination (destination : string) (travel_date : date) :
  contains (fst (get_travel_advice destination travel_date))
           (month_name (date_month travel_date)) /\
  contains (fst (get_travel_advice destination travel_date)) destination /\
  (~ In destination ["Paris"; "Tokyo"; "New York"; "Goa"]%string ->
   contains (snd (get_travel_advice destination travel_date)) destination).
Proof.
  destruct travel_date as [y m d].
  destruct (String.eqb_spec destination "Paris") as [-> | HP].
  { split; [| split; [| intro Hout; exfalso; apply Hout; simpl; tauto]];
      destruct m; apply containsb_sound; vm_compute; reflexivity. }
  destruct (String.eqb_spec destination "Tokyo") as [-> | HT].
  { split; [| split; [| intro Hout; exfalso; apply Hout; simpl; tauto]];
      destruct m; apply containsb_sound; vm_compute; reflexivity. }
  destruct (String.eqb_spec destination "New York") as [-> | HN].
  { split; [| split; [| intro Hout; exfalso; apply Hout; simpl; tauto]];
      destruct m; apply containsb_sound; vm_compute; reflexivity. }
  destruct (String.eqb_spec destination "Goa") as [-> | HG].
  { split; [| split; [| intro Hout; exfalso; apply Hout; simpl; tauto]];
      destruct m; apply containsb_sound; vm_compute; reflexivity. }
  unfold get_travel_advice.
  rewrite !eqb_other by assumption. cbn [fst snd date_month].
  split; [| split; [| intros _]].
  - exists ("Weather in " ++ destination ++ " during ")%string,
           " can be variable – please check the forecast and pack accordingly."%string.
    now rewrite !string_app_assoc.
  - exists "Weather in "%string,
           (" during " ++ month_name m
              ++ " can be variable – please check the forecast and pack accordingly.")%string.
    reflexivity.
  - exists "Local languages in "%string,
           " may vary – consider learning a few basic phrases or using a translation app."%string.
    reflexivity.
Qed.

(** ** When the pool builder cannot finish *)

(** X14: the construction from fallback items alone needs [duration * 3]
    different fallback items.  When the fallback generator came back with
    fewer, the top-up loop is still running after any number of passes; as
    the generator never makes more than 50, this is so for every trip of 17
    days or more. *)
Theorem synthetic_itinerary_starved (destination : string) (duration : nat)
    E s fallback_list s1 :
  get_fallback_list destination E s = (Done fallback_list, s1) ->
  length fallback_list < duration * 3 \/ 17 <= duration ->
  forall fuel,
    fst (synthetic_itinerary fuel destination duration E s) = OutOfFuel.
Proof.
  intros Hfb Hfew fuel.
  destruct (get_fallback_list_Done destination E s)
    as (fallback_list' & n & Hfb' & _ & _ & Hone & Hmost).
  rewrite Hfb in Hfb'. injection Hfb' as <- ->.
  assert (Hshort : length fallback_list < duration * 3) by lia.
  unfold synthetic_itinerary. bind_step Hfb.
  assert (Hstall : fst (create_global_pool fuel [] fallback_list destination
                          (duration * 3) E (after_draws n s)) = OutOfFuel).
  { unfold create_global_pool.
    apply (top_up_stalls string_eq_spec) with (unique0 := []).
    - destruct fallback_list; [simpl in Hone; lia | discriminate].
    - intros l Hl Hincl. pose proof (NoDup_incl_length Hl Hincl). simpl in *. lia.
    - constructor.
    - intros x []. }
  unfold bind.
  destruct (create_global_pool fuel [] fallback_list destination (duration * 3) E
              (after_draws n s)) as [[pool | e |] s2]; try discriminate.
  reflexivity.
Qed.

Lemma synthetic_itinerary_starved_witness :
  fst (synthetic_itinerary 1000 "Lima" 1 stuck_env initial_state) = OutOfFuel.
Proof.
  apply (@synthetic_itinerary_starved "Lima"%string 1 stuck_env initial_state
           ["Explore local art galleries in amazing Lima"%string] (State 1500 0 [])).
  - vm_compute. reflexivity.
  - left. simpl. lia.
Defined.

(** X15: the draws decide whether [create_global_pool] finishes.  When the
    generator keeps drawing the same position of the fallback list and the
    candidates are two or more short of [required], the loop is still
    running after any number of passes, however many different items the
    fallback list holds. *)
Theorem create_global_pool_same_draw (tasks fallback_list : list string)
    (destination : string) (required position : nat) E s :
  position < length fallback_list ->
  (forall t, draws E (drawn s + t) mod length fallback_list = position) ->
  length (dedup tasks) + 1 < required ->
  forall fuel,
    fst (create_global_pool fuel tasks fallback_list destination required E s)
    = OutOfFuel.
Proof.
  intros Hpos Hsame Hshort fuel. unfold create_global_pool.
  destruct (nth_error fallback_list position) as [c |] eqn:Hc;
    [| apply nth_error_None in Hc; lia].
  assert (Hloop : forall fuel unique_tasks s',
             (exists k, drawn s' = drawn s + k) ->
             NoDup unique_tasks ->
             incl unique_tasks (dedup tasks ++ [c]) ->
             fst (top_up fuel fallback_list required unique_tasks E s') = OutOfFuel).
  { clear fuel. induction fuel as [| fuel IH]; intros u s' (k & Hk) Hnd Hincl; simpl;
      pose proof (NoDup_incl_length Hnd Hincl) as Hlen;
      rewrite length_app in Hlen; simpl in Hlen;
      destruct (Nat.ltb_spec (length u) required) as [_ | Hge];
      try reflexivity; try lia.
    unfold randrange.
    destruct (Nat.eqb_spec (length fallback_list) 0) as [Hz | Hnz]; [lia |].
    bind_step (randbelow_Done (length fallback_list) E s').
    rewrite Hk, Hsame.
    assert (Hsub : subscript fallback_list position E (after_draws 1 s')
                   = (Done c, after_draws 1 s'))
      by (unfold subscript; now rewrite Hc).
    bind_step Hsub. apply IH.
    - exists (k + 1). simpl. lia.
    - now apply (append_new_NoDup string_eq_spec).
    - intros y Hy. apply (append_new_In string_eq_spec) in Hy.
      destruct Hy as [Hy | ->]; [now apply Hincl |].
      apply in_or_app. right. now left. }
  apply Hloop.
  - exists 0. lia.
  - apply (dedup_NoDup string_eq_spec).
  - apply incl_appl, incl_refl.
Qed.

Lemma create_global_pool_same_draw_witness :
  fst (create_global_pool 1000 [] ["a"; "b"; "c"]%string "Goa" 2 stuck_env initial_state)
  = OutOfFuel.
Proof.
  apply (@create_global_pool_same_draw [] ["a"; "b"; "c"]%string "Goa"%string 2 0
           stuck_env initial_state).
  - simpl. lia.
  - intro t. reflexivity.
  - simpl. lia.
Defined.
